(** * PaperClerk (paper_triage): the triage orchestration engine

    A shallow embedding of the Python package [paper_triage]
    (discover.py, ui.py, log.py, emailer.py, extract.py, summarize.py and
    main.py) and the properties its specification states about it.

    Conventions.
    - A Python [str] is a [string]; text is taken to be ASCII, so that
      [str.lower] and [str.strip] act on the ASCII letters and blanks.
    - A [pathlib.Path] is the list of its [parts]; an absolute path starts
      with the part "/".
    - The file system is a finite map from resolved paths to nodes; there
      are no symbolic links.  The operating system resolves a path before
      every access (current directory, then the ".." components).
    - Effects are threaded through a state-and-exception monad over a
      [World]; everything the program only reads is in an [Env]. *)

From stdpp Require Import base option list strings gmap sets pretty sorting.
From Stdlib Require Import Ascii ZArith Lia.

Local Open Scope Z_scope.
Local Open Scope nat_scope.

(** ** Python strings *)

Module Str.

Definition lower_char (c : ascii) : ascii :=
  let n := nat_of_ascii c in
  if (65 <=? n) && (n <=? 90) then ascii_of_nat (n + 32) else c.

(** [str.lower] *)
Fixpoint lower (s : string) : string :=
  match s with
  | EmptyString => EmptyString
  | String c r => String (lower_char c) (lower r)
  end.

(** The ASCII characters [str.strip] removes. *)
Definition is_space (c : ascii) : bool :=
  let n := nat_of_ascii c in
  ((9 <=? n) && (n <=? 13)) || ((28 <=? n) && (n <=? 32)).

Fixpoint lstrip (s : string) : string :=
  match s with
  | EmptyString => EmptyString
  | String c r => if is_space c then lstrip r else s
  end.

Fixpoint rstrip (s : string) : string :=
  match s with
  | EmptyString => EmptyString
  | String c r =>
      match rstrip r with
      | EmptyString => if is_space c then EmptyString else String c EmptyString
      | r' => String c r'
      end
  end.

(** [str.strip] *)
Definition strip (s : string) : string := rstrip (lstrip s).

Fixpoint take (n : nat) (s : string) : string :=
  match n, s with
  | S n', String c r => String c (take n' r)
  | _, _ => EmptyString
  end.

Fixpoint drop (n : nat) (s : string) : string :=
  match n, s with
  | S n', String _ r => drop n' r
  | _, _ => s
  end.

(** [s.rfind(".")], [None] for -1 *)
Fixpoint rfind_dot (s : string) : option nat :=
  match s with
  | EmptyString => None
  | String c r =>
      match rfind_dot r with
      | Some i => Some (S i)
      | None => if decide (c = "."%char) then Some 0 else None
      end
  end.

(** [s.endswith(t)] *)
Definition endswith (s t : string) : bool :=
  bool_decide (drop (String.length s - String.length t) s = t).

(** [s.split(sep)] for a one-character separator: the pieces between the
    separators, empty pieces included. *)
Fixpoint split_go (sep : ascii) (cur : string) (s : string) : list string :=
  match s with
  | EmptyString => [String.rev cur]
  | String c r =>
      if decide (c = sep) then String.rev cur :: split_go sep EmptyString r
      else split_go sep (String c cur) r
  end.
Definition split (sep : ascii) (s : string) : list string :=
  split_go sep EmptyString s.

(** [sep.join(l)] *)
Fixpoint join (sep : string) (l : list string) : string :=
  match l with
  | [] => EmptyString
  | [x] => x
  | x :: r => x +:+ sep +:+ join sep r
  end.

(** Python truthiness of a [str]. *)
Definition truthy (s : string) : bool := negb (bool_decide (s = EmptyString)).

(** [a or b] on strings *)
Definition or_else (a b : string) : string := if truthy a then a else b.

(** ["-" in s] *)
Fixpoint has_dash (s : string) : bool :=
  match s with
  | EmptyString => false
  | String c r => bool_decide (c = "-"%char) || has_dash r
  end.

End Str.

(** ** pathlib

    A [Path] is its tuple of parts, as [PurePosixPath.parts] gives it:
    the anchor "/" first when the path is absolute, no empty part and no
    "." part, ".." kept where it stands. *)

Definition Path := list string.

Module PathLib.

(** [Path(s)] *)
Definition of_str (s : string) : Path :=
  let parts :=
    filter (λ p, p ≠ EmptyString ∧ p ≠ ".") (Str.split "/" s) in
  match s with
  | String c _ => if decide (c = "/"%char) then "/" :: parts else parts
  | EmptyString => parts
  end.

(** [str(p)] *)
Definition to_str (p : Path) : string :=
  match p with
  | [] => "."
  | x :: r => if decide (x = "/") then "/" +:+ Str.join "/" r else Str.join "/" p
  end.

(** [p.name]: the last part, empty for the anchor and for the empty path. *)
Definition name (p : Path) : string :=
  match last p with
  | Some n => if decide (n = "/") then EmptyString else n
  | None => EmptyString
  end.

(** [p.suffix] (CPython 3.8 to 3.12): from the last dot of the name, when
    that dot is neither its first nor its last character. *)
Definition suffix (p : Path) : string :=
  let n := name p in
  match Str.rfind_dot n with
  | Some i =>
      if (0 <? i) && (i <? String.length n - 1) then Str.drop i n
      else EmptyString
  | None => EmptyString
  end.

(** [p.stem]: the name without its suffix. *)
Definition stem (p : Path) : string :=
  let n := name p in
  match Str.rfind_dot n with
  | Some i =>
      if (0 <? i) && (i <? String.length n - 1) then Str.take i n else n
  | None => n
  end.

(** [p.parent] *)
Definition parent (p : Path) : Path :=
  if decide (p = ["/"]) then p else removelast p.

(** [p / n] for a single component [n] (a name, not a path with
    separators): an empty or "." component adds nothing. *)
Definition joinpath (p : Path) (n : string) : Path :=
  if decide (n = EmptyString ∨ n = ".") then p else p ++ [n].

(** [p.expanduser()]: a leading "~" is replaced by the home directory.
    ([~user] forms are left as they are.) *)
Definition expanduser (home : Path) (p : Path) : Path :=
  match p with
  | x :: r => if decide (x = "~") then home ++ r else p
  | [] => p
  end.

(** The order [sorted] uses on paths: the parts compared as tuples of
    strings. *)
Fixpoint leb (p q : Path) : bool :=
  match p, q with
  | [], _ => true
  | _ :: _, [] => false
  | a :: p', b :: q' =>
      if decide (a = b) then leb p' q' else String.leb a b
  end.

Fixpoint insert_sorted (x : Path) (l : list Path) : list Path :=
  match l with
  | [] => [x]
  | y :: r => if leb x y then x :: l else y :: insert_sorted x r
  end.

(** [sorted(paths)] *)
Definition sorted (l : list Path) : list Path := foldr insert_sorted [] l.

(** One step of resolution on an absolute path: ".." leaves the
    directory reached so far (the root is its own parent). *)
Definition resolve_step (acc : Path) (part : string) : Path :=
  if decide (part = "..") then removelast acc else acc ++ [part].

(** The resolved form of [p] for a process whose current directory is
    [cwd] (itself resolved): the parts below the root, without ".."; the
    root is []. *)
Definition resolve (cwd : Path) (p : Path) : Path :=
  match p with
  | x :: r =>
      if decide (x = "/") then fold_left resolve_step r []
      else fold_left resolve_step p cwd
  | [] => cwd
  end.

End PathLib.

(** ** The world the program runs in *)

(** A row of cells, as the [csv] module reads and writes it. *)
Definition Row := list string.

(** A file-system node.  A regular file is abstracted as the sequence of
    records it holds (the rows [csv.writer] emitted; one one-cell record
    per line of a text file); what a PDF or a metadata export holds is
    read through the oracles of [Env]. *)
Inductive Node :=
| Dir
| File (content : list Row).

(** A Python dict from [str] to [str]; a key that is absent reads as
    [None] through [dict.get]. *)
Abbreviation StrDict := (gmap string string).

(** What [json.load] returns for a bookmarks file: an object, with or
    without a list under "bookmarks", or a list of entries. *)
Inductive JsonDoc :=
| JObject (bookmarks : option (list StrDict))
| JArray (entries : list StrDict).

Inductive exn :=
| ValueError (msg : string)
| IndexError
| EOFError
| RuntimeError (msg : string)
| FileNotFoundError (p : Path)
| FileExistsError (p : Path)
| NotADirectoryError (p : Path)
| IsADirectoryError (p : Path)
| ShutilError (msg : string)
| ParseError (p : Path)
| SMTPError (msg : string).

Inductive Result (A : Type) :=
| Ok (a : A)
| Raise (e : exn).
Arguments Ok {A} a.
Arguments Raise {A} e.

(** [email.message.EmailMessage] as [build_message] fills it. *)
Record Attachment := {
  att_filename : string;
  att_subtype : string;
  att_data : list Row;
}.

Record EmailMessage := {
  msg_subject : string;
  msg_from : string;
  msg_to : string;
  msg_body : string;
  msg_attachments : list Attachment;
}.

(** One call of [send_message]. *)
Record SendRequest := {
  req_message : EmailMessage;
  req_host : string;
  req_port : Z;
  req_username : option string;
  req_password : option string;
  req_use_tls : bool;
}.

Inductive Level := INFO | WARNING | ERROR.

(** What the program does to the outside, in the order it does it. *)
Inductive Event :=
| EvLog (lvl : Level) (msg : string)
| EvMove (src : Path) (dst : Path)
| EvOpenFile (p : Path)
| EvSummarize (p : Path)
| EvSmtp (req : SendRequest).

Record World := {
  w_nodes : gmap Path Node;
  w_stdin : list string;
  w_ticks : nat;
  w_cache : gmap Path string;
  w_trace : list Event;
}.

Record Env := {
  e_cwd : Path;
  e_home : Path;
  e_environ : gmap string string;
  (** [json.load] of the file at a resolved path; [None]: it raises. *)
  e_json : Path → option JsonDoc;
  (** the rows [csv.DictReader] yields for the file at a resolved path *)
  e_csv : Path → option (list StrDict);
  (** the text of the pages of a PDF; [None]: [PdfReader] raises *)
  e_pdf_pages : Path → option (list string);
  e_ollama_installed : bool;
  (** [ollama.chat model prompt]: [None] when the call raises, else the
      content of the reply, if it has one *)
  e_ollama_chat : string → string → option (option string);
  (** the SMTP transport: [Some msg] when sending raises *)
  e_smtp : SendRequest → option string;
  (** [datetime.utcnow()] at the n-th reading of the clock *)
  e_isoformat : nat → string;
  e_compact : nat → string;
}.

Definition M (A : Type) : Type := World → Result A * World.

#[global] Instance M_ret : MRet M := λ A a w, (Ok a, w).
#[global] Instance M_bind : MBind M := λ A B f m w,
  match m w with
  | (Ok a, w') => f a w'
  | (Raise e, w') => (Raise e, w')
  end.

Definition raise {A} (e : exn) : M A := λ w, (Raise e, w).

(** [try: m  except Exception as e: h e] *)
Definition try_except {A} (m : M A) (h : exn → M A) : M A := λ w,
  match m w with
  | (Raise e, w') => h e w'
  | r => r
  end.

Definition set_nodes (f : gmap Path Node → gmap Path Node) (w : World) : World :=
  {| w_nodes := f (w_nodes w); w_stdin := w_stdin w; w_ticks := w_ticks w;
     w_cache := w_cache w; w_trace := w_trace w |}.
Definition set_stdin (l : list string) (w : World) : World :=
  {| w_nodes := w_nodes w; w_stdin := l; w_ticks := w_ticks w;
     w_cache := w_cache w; w_trace := w_trace w |}.
Definition set_ticks (n : nat) (w : World) : World :=
  {| w_nodes := w_nodes w; w_stdin := w_stdin w; w_ticks := n;
     w_cache := w_cache w; w_trace := w_trace w |}.
Definition set_cache (c : gmap Path string) (w : World) : World :=
  {| w_nodes := w_nodes w; w_stdin := w_stdin w; w_ticks := w_ticks w;
     w_cache := c; w_trace := w_trace w |}.
Definition add_event (ev : Event) (w : World) : World :=
  {| w_nodes := w_nodes w; w_stdin := w_stdin w; w_ticks := w_ticks w;
     w_cache := w_cache w; w_trace := w_trace w ++ [ev] |}.

Definition emit (ev : Event) : M unit := λ w, (Ok tt, add_event ev w).
Definition log_msg (lvl : Level) (msg : string) : M unit := emit (EvLog lvl msg).
Definition get_nodes : M (gmap Path Node) := λ w, (Ok (w_nodes w), w).

(** [[f x for x in l]], the calls made from left to right *)
Fixpoint map_m {A B} (f : A → M B) (l : list A) : M (list B) :=
  match l with
  | [] => mret []
  | x :: r => y ← f x; ys ← map_m f r; mret (y :: ys)
  end.

(** [for x in l: body x] *)
Fixpoint for_each {A} (l : list A) (body : A → M unit) : M unit :=
  match l with
  | [] => mret tt
  | x :: r => body x ;; for_each r body
  end.

(** ** File-system operations *)

Module FS.
Section WithEnv.
Variable env : Env.

Definition resolve (p : Path) : Path := PathLib.resolve (e_cwd env) p.

Definition is_dir (nodes : gmap Path Node) (r : Path) : bool :=
  match r, nodes !! r with
  | [], _ => true
  | _, Some Dir => true
  | _, _ => false
  end.

Definition node_exists (nodes : gmap Path Node) (r : Path) : bool :=
  match r, nodes !! r with
  | [], _ => true
  | _, Some _ => true
  | _, None => false
  end.

(** [p.exists()] *)
Definition exists_ (p : Path) : M bool :=
  nodes ← get_nodes; mret (node_exists nodes (resolve p)).

(** The directories from the root down to [r], [r] included. *)
Fixpoint chain (pre : Path) (r : Path) : list Path :=
  match r with
  | [] => []
  | x :: r' => (pre ++ [x]) :: chain (pre ++ [x]) r'
  end.

Fixpoint mkdirs (ps : list Path) (nodes : gmap Path Node) : Result (gmap Path Node) :=
  match ps with
  | [] => Ok nodes
  | d :: ps' =>
      match nodes !! d with
      | Some (File _) =>
          Raise (match ps' with [] => FileExistsError d | _ => NotADirectoryError d end)
      | Some Dir => mkdirs ps' nodes
      | None => mkdirs ps' (<[d := Dir]> nodes)
      end
  end.

(** [p.mkdir(parents=True, exist_ok=True)] *)
Definition mkdir_p (p : Path) : M unit := λ w,
  match mkdirs (chain [] (resolve p)) (w_nodes w) with
  | Ok nodes' => (Ok tt, set_nodes (λ _, nodes') w)
  | Raise e => (Raise e, w)
  end.

Fixpoint strip_prefix (pre p : Path) : option Path :=
  match pre, p with
  | [], _ => Some p
  | a :: pre', b :: p' => if decide (a = b) then strip_prefix pre' p' else None
  | _ :: _, [] => None
  end.

(** [folder.rglob("*.pdf")]: every entry below the folder whose name ends
    in ".pdf", spelled from the folder as it was given. *)
Definition rglob_pdf (nodes : gmap Path Node) (folder : Path) : list Path :=
  omap (λ e,
          match strip_prefix (resolve folder) e with
          | Some (x :: rel) =>
              if Str.endswith (PathLib.name (x :: rel)) ".pdf"
              then Some (folder ++ x :: rel) else None
          | _ => None
          end)
       (map fst (map_to_list nodes)).

(** [p.open("a")]: creates the file when it is missing. *)
Definition open_append (p : Path) : M unit := λ w,
  let r := resolve p in
  match r, w_nodes w !! r with
  | [], _ | _, Some Dir => (Raise (IsADirectoryError p), w)
  | _, Some (File _) => (Ok tt, w)
  | _, None =>
      if is_dir (w_nodes w) (removelast r)
      then (Ok tt, set_nodes (insert r (File [])) w)
      else (Raise (FileNotFoundError p), w)
  end.

(** Writing rows to a handle opened by [open_append]. *)
Definition write_rows (p : Path) (rows : list Row) : M unit := λ w,
  let r := resolve p in
  match w_nodes w !! r with
  | Some (File c) => (Ok tt, set_nodes (insert r (File (c ++ rows))) w)
  | _ => (Raise (FileNotFoundError p), w)
  end.

(** [p.write_text(...)]: creates or replaces the file. *)
Definition write_text (p : Path) (lines : list string) : M unit := λ w,
  let r := resolve p in
  match r, w_nodes w !! r with
  | [], _ | _, Some Dir => (Raise (IsADirectoryError p), w)
  | _, _ =>
      if is_dir (w_nodes w) (removelast r)
      then (Ok tt, set_nodes (insert r (File ((λ l, [l]) <$> lines))) w)
      else (Raise (FileNotFoundError p), w)
  end.

(** [p.read_text()] *)
Definition read_text (p : Path) : M (list Row) := λ w,
  let r := resolve p in
  match r, w_nodes w !! r with
  | [], _ | _, Some Dir => (Raise (IsADirectoryError p), w)
  | _, Some (File c) => (Ok c, w)
  | _, None => (Raise (FileNotFoundError p), w)
  end.

(** [os.rename] of one node: the destination is created or replaced. *)
Definition rename (src dst : Path) : M unit := λ w,
  let rs := resolve src in
  let rd := resolve dst in
  match w_nodes w !! rs with
  | None => (Raise (FileNotFoundError src), w)
  | Some n =>
      if is_dir (w_nodes w) (removelast rd) && negb (bool_decide (rd = []))
      then (Ok tt, set_nodes (λ m, <[rd := n]> (delete rs m)) w)
      else (Raise (FileNotFoundError dst), w)
  end.

(** [shutil.move(src, dst)] of a file: into [dst] when that is an
    existing directory, onto [dst] otherwise. *)
Definition move (src dst : Path) : M unit :=
  nodes ← get_nodes;
  emit (EvMove src dst);;
  if is_dir nodes (resolve dst) then
    let real_dst := PathLib.joinpath dst (PathLib.name src) in
    if bool_decide (resolve src = resolve dst) then rename src dst
    else if node_exists nodes (resolve real_dst)
    then raise (ShutilError "Destination path already exists")
    else rename src real_dst
  else rename src dst.

End WithEnv.
End FS.

(** ** discover.py *)

(** A metadata record: a dict whose values are [str] or [None]. *)
Abbreviation MetaRecord := (gmap string (option string)).

Record PaperCandidate := {
  pc_path : Path;
  pc_title : string;
  pc_metadata : MetaRecord;
}.

(** A metadata source descriptor of the configuration. *)
Record Source := {
  src_type : option string;
  src_path : string;
}.

(** [a or b] where [a] is a [str] or [None] *)
Definition opt_or (a : option string) (b : string) : string :=
  match a with
  | Some s => if Str.truthy s then s else b
  | None => b
  end.

(** [a or b] where both are a [str] or [None] *)
Definition opt_or_opt (a b : option string) : option string :=
  match a with
  | Some s => if Str.truthy s then a else b
  | None => b
  end.

(** [record.get(key)] *)
Definition rec_get (r : MetaRecord) (key : string) : option string :=
  default None (r !! key).

Module Discover.
Section WithEnv.
Variable env : Env.

Definition bookmark_record (source : Path) (entry : StrDict) : option MetaRecord :=
  let file_path := opt_or (entry !! "path") (opt_or (entry !! "file") EmptyString) in
  if negb (Str.truthy file_path) then None
  else
    let file_key := Str.lower (PathLib.name (PathLib.of_str file_path)) in
    Some (<["title" := Some (opt_or (entry !! "title")
                                    (PathLib.stem (PathLib.of_str file_path)))]>
          (<["file_key" := Some file_key]>
           (<["source" := Some (PathLib.to_str source)]> ∅))).

Definition _parse_bookmarks_json (path : Path) : M (list MetaRecord) :=
  match e_json env (FS.resolve env path) with
  | None => raise (ParseError path)
  | Some data =>
      let entries :=
        match data with
        | JObject b => default [] b
        | JArray l => l
        end in
      mret (omap (bookmark_record path) entries)
  end.

Definition export_record (source : Path) (row : StrDict) : option MetaRecord :=
  let attachment :=
    opt_or (row !! "File Attachments")
      (opt_or (row !! "Attachments")
         (opt_or (row !! "file") (opt_or (row !! "path") EmptyString))) in
  if negb (Str.truthy attachment) then None
  else
    let attachment := Str.strip (hd EmptyString (Str.split ";" attachment)) in
    if negb (Str.truthy attachment) then None
    else
      let file_key := Str.lower (PathLib.name (PathLib.of_str attachment)) in
      Some (<["title" := Some (opt_or (row !! "Title")
                                 (opt_or (row !! "title")
                                    (PathLib.stem (PathLib.of_str attachment))))]>
            (<["file_key" := Some file_key]>
             (<["authors" := opt_or_opt (row !! "Author") (row !! "Authors")]>
              (<["year" := row !! "Year"]>
               (<["source" := Some (PathLib.to_str source)]> ∅))))).

Definition _parse_reference_export (path : Path) : M (list MetaRecord) :=
  match e_csv env (FS.resolve env path) with
  | None => raise (ParseError path)
  | Some rows => mret (omap (export_record path) rows)
  end.

(** The body of the loop over the sources, up to the records of one
    source: [None] when the source is skipped. *)
Definition load_source (source : Source) : M (option (list MetaRecord)) :=
  let source_type := Str.lower (opt_or (src_type source) "bookmarks") in
  let path := PathLib.expanduser (e_home env) (PathLib.of_str (src_path source)) in
  found ← FS.exists_ env path;
  if negb found then
    log_msg WARNING ("Metadata source not found: " +:+ PathLib.to_str path);;
    mret None
  else
    try_except
      (if decide (source_type = "bookmarks") then
         records ← _parse_bookmarks_json path; mret (Some records)
       else if decide (source_type = "zotero" ∨ source_type = "mendeley") then
         records ← _parse_reference_export path; mret (Some records)
       else
         log_msg WARNING ("Unknown metadata source type '" +:+ source_type +:+ "'");;
         mret None)
      (λ _,
         log_msg ERROR ("Failed to parse metadata source " +:+ PathLib.to_str path);;
         mret None).

(** [for record in records: ... lookup[file_key] = record] *)
Definition store_record (lookup : gmap string MetaRecord) (record : MetaRecord)
  : gmap string MetaRecord :=
  match rec_get record "file_key" with
  | Some file_key =>
      if Str.truthy file_key then <[file_key := record]> lookup else lookup
  | None => lookup
  end.

Definition store_records (records : list MetaRecord) (lookup : gmap string MetaRecord)
  : gmap string MetaRecord :=
  fold_left store_record records lookup.

Fixpoint build_from (sources : list Source) (lookup : gmap string MetaRecord)
  : M (gmap string MetaRecord) :=
  match sources with
  | [] => mret lookup
  | source :: rest =>
      loaded ← load_source source;
      match loaded with
      | Some records => build_from rest (store_records records lookup)
      | None => build_from rest lookup
      end
  end.

Definition _build_metadata_lookup (sources : list Source) : M (gmap string MetaRecord) :=
  build_from sources ∅.

(** The state of the discovery loops: [candidates] and [seen_paths]. *)
Definition DiscState : Type := list PaperCandidate * gset Path.

(** The body of the loop over the PDFs of a folder. *)
Definition visit_pdf (metadata_lookup : gmap string MetaRecord)
    (st : DiscState) (pdf_path : Path) : DiscState :=
  let norm_key := Str.lower (PathLib.name pdf_path) in
  let info := default ∅ (metadata_lookup !! norm_key) in
  let title := opt_or (rec_get info "title") (PathLib.stem pdf_path) in
  if decide (pdf_path ∈ st.2) then st
  else (st.1 ++ [{| pc_path := pdf_path; pc_title := title; pc_metadata := info |}],
        {[pdf_path]} ∪ st.2).

Fixpoint discover_in (folders : list string)
    (metadata_lookup : gmap string MetaRecord) (st : DiscState) : M DiscState :=
  match folders with
  | [] => mret st
  | folder :: rest =>
      let folder_path := PathLib.expanduser (e_home env) (PathLib.of_str folder) in
      found ← FS.exists_ env folder_path;
      if negb found then
        log_msg WARNING ("Input folder does not exist: " +:+ folder);;
        discover_in rest metadata_lookup st
      else
        nodes ← get_nodes;
        discover_in rest metadata_lookup
          (fold_left (visit_pdf metadata_lookup)
             (PathLib.sorted (FS.rglob_pdf env nodes folder_path)) st)
  end.

Definition discover_papers (folders : list string)
    (metadata_sources : option (list Source)) : M (list PaperCandidate) :=
  metadata_lookup ← _build_metadata_lookup (default [] metadata_sources);
  st ← discover_in folders metadata_lookup ([], ∅);
  mret st.1.

End WithEnv.
End Discover.

(** ** ui.py *)

(** An action: the paper, its summary and the decision. *)
Definition Action : Type := PaperCandidate * string * string.

Module UI.

(** The three decisions, as the program stores them. *)
Definition allowed : list string := ["k"; "r"; "s"].

Definition _auto_decide (mode : string) : Result string :=
  match mode with
  | EmptyString => Raise IndexError
  | String c _ =>
      let short := String (Str.lower_char c) EmptyString in
      if bool_decide (short ∈ allowed) then Ok short
      else Raise (ValueError ("Unsupported auto decision '" +:+ mode +:+ "'"))
  end.

(** [Prompt.ask(..., default)] on one line of input: an empty line gives
    the default, any other line is stripped. *)
Definition prompt_response (default line : string) : string :=
  if decide (line = EmptyString) then default else Str.strip line.

(** The loop of [_prompt_for_decision] over the lines the operator
    types; the end of the input raises [EOFError]. *)
Fixpoint prompt_loop (path : Path) (lines : list string) (w : World)
  : Result string * World :=
  match lines with
  | [] => (Raise EOFError, set_stdin [] w)
  | line :: rest =>
      let choice := Str.lower (Str.strip (prompt_response "k" line)) in
      if decide (choice = "o") then
        prompt_loop path rest (add_event (EvOpenFile path) w)
      else if bool_decide (choice ∈ allowed) then (Ok choice, set_stdin rest w)
      else prompt_loop path rest w
  end.

Definition _prompt_for_decision (paper : PaperCandidate) (summary : string)
    (dry_run : bool) : M string :=
  λ w, prompt_loop (pc_path paper) (w_stdin w) w.

(** Truthiness of [auto_decision : str | None]. *)
Definition mode_given (auto_decision : option string) : option string :=
  match auto_decision with
  | Some mode => if Str.truthy mode then Some mode else None
  | None => None
  end.

Fixpoint triage_from (papers : list PaperCandidate)
    (summary_fn : PaperCandidate → M string) (dry_run : bool)
    (auto_decision : option string) (actions : list Action) : M (list Action) :=
  match papers with
  | [] => mret actions
  | paper :: rest =>
      summary ← summary_fn paper;
      decision ←
        match mode_given auto_decision with
        | Some mode => λ w, (_auto_decide mode, w)
        | None => _prompt_for_decision paper summary dry_run
        end;
      triage_from rest summary_fn dry_run auto_decision
        (actions ++ [(paper, summary, decision)])
  end.

Definition triage_papers (papers : list PaperCandidate)
    (summary_fn : PaperCandidate → M string) (dry_run : bool)
    (auto_decision : option string) : M (list Action) :=
  triage_from papers summary_fn dry_run auto_decision [].

End UI.

(** ** log.py *)

Record LogEntry := {
  le_timestamp : string;
  le_title : string;
  le_path : string;
  le_summary : string;
  le_decision : string;
  le_dry_run : string;
}.

Module Log.
Section WithEnv.
Variable env : Env.

Definition LOG_FIELDS : Row :=
  ["timestamp"; "title"; "path"; "summary"; "decision"; "dry_run"].

(** [writer.writerow(entry)]: the cells in the order of [LOG_FIELDS]. *)
Definition row_of (entry : LogEntry) : Row :=
  [le_timestamp entry; le_title entry; le_path entry; le_summary entry;
   le_decision entry; le_dry_run entry].

Definition append_log_entry (log_path : Path) (entry : LogEntry) : M unit :=
  FS.mkdir_p env (PathLib.parent log_path);;
  file_exists ← FS.exists_ env log_path;
  FS.open_append env log_path;;
  (if negb file_exists then FS.write_rows env log_path [LOG_FIELDS] else mret tt);;
  FS.write_rows env log_path [row_of entry].

(** [datetime.utcnow()], formatted by [fmt] *)
Definition utcnow (fmt : nat → string) : M string :=
  λ w, (Ok (fmt (w_ticks w)), set_ticks (S (w_ticks w)) w).

Definition digest_lines (entry : LogEntry) : list string :=
  ["## " +:+ le_title entry;
   "- Decision: **" +:+ le_decision entry +:+ "**";
   "- File: `" +:+ le_path entry +:+ "`";
   EmptyString;
   Str.or_else (le_summary entry) "(no summary)";
   EmptyString].

Definition write_digest (digest_dir : Path) (actions : list LogEntry) : M Path :=
  FS.mkdir_p env digest_dir;;
  timestamp ← utcnow (e_compact env);
  let digest_path := PathLib.joinpath digest_dir ("digest-" +:+ timestamp +:+ ".md") in
  let lines := ["# Weekly Paper Digest"; EmptyString] ++ concat (digest_lines <$> actions) in
  FS.write_text env digest_path lines;;
  mret digest_path.

End WithEnv.
End Log.

(** ** extract.py and summarize.py *)

Module Summarize.
Section WithEnv.
Variable env : Env.

Definition nl : string := String "010"%char EmptyString.

Definition len (s : string) : Z := Z.of_nat (String.length s).

(** The chunks read before the running total reaches [max_chars]. *)
Fixpoint read_chunks (pages : list string) (total max_chars : Z) : list string :=
  match pages with
  | [] => []
  | chunk :: rest =>
      if (max_chars <=? total + len chunk)%Z then [chunk]
      else chunk :: read_chunks rest (total + len chunk)%Z max_chars
  end.

(** [text[:n]] *)
Definition slice_to (text : string) (n : Z) : string :=
  if (0 <=? n)%Z then Str.take (Z.to_nat n) text
  else Str.take (Z.to_nat (len text + n)) text.

Definition extract_text (pdf_path : Path) (max_pages max_chars : Z) : M string :=
  if (max_pages <=? 0)%Z then raise (ValueError "max_pages must be positive")
  else
    match e_pdf_pages env (FS.resolve env pdf_path) with
    | None =>
        log_msg ERROR ("Unable to read PDF " +:+ PathLib.to_str pdf_path);;
        mret EmptyString
    | Some pages =>
        let text_chunks := read_chunks (take (Z.to_nat max_pages) pages) 0 max_chars in
        let text := Str.join nl text_chunks in
        if (max_chars <? len text)%Z then mret (slice_to text max_chars)
        else mret text
    end.

Definition SUMMARY_PROMPT : string :=
  "Summarize this academic paper in 1-2 concise lines: clearly describe the problem, "
  +:+ "method/approach, dataset or domain context, and key findings or implications. "
  +:+ "Highlight anything notable about limitations or future work if space allows.".

Definition summarize_text (text : string) (model : string) : M string :=
  if negb (Str.truthy (Str.strip text)) then
    mret "No extractable text found in the PDF."
  else if negb (e_ollama_installed env) then
    raise (RuntimeError "ollama package is not installed.")
  else
    match e_ollama_chat env model (SUMMARY_PROMPT +:+ nl +:+ nl +:+ text) with
    | None =>
        log_msg ERROR "Failed to call Ollama";;
        mret "Ollama call failed. Check local model/runtime."
    | Some content => mret (Str.strip (opt_or content "(no response)"))
    end.

End WithEnv.
End Summarize.

(** ** extract.py, page by page

    [extract_text] over a reader whose pages can fail one by one:
    [reader] is [None] when [PdfReader] raises, and a page is [None] when
    its extraction raises.  [Summarize.extract_text] is the case where
    every page extracts. *)

Module Extract.

(** The loop over the pages: a page that fails is logged and passed
    over, the loop stops once the chunks read reach [max_chars]. *)
Fixpoint read_pages (pdf_path : Path) (index : nat) (pages : list (option string))
    (total max_chars : Z) : M (list string) :=
  match pages with
  | [] => mret []
  | Some chunk :: rest =>
      if (max_chars <=? total + Summarize.len chunk)%Z then mret [chunk]
      else
        chunks ← read_pages pdf_path (S index) rest
                   (total + Summarize.len chunk)%Z max_chars;
        mret (chunk :: chunks)
  | None :: rest =>
      log_msg WARNING ("Failed to extract page " +:+ pretty index +:+ " from "
                       +:+ PathLib.to_str pdf_path);;
      read_pages pdf_path (S index) rest total max_chars
  end.

Definition extract_text (reader : option (list (option string))) (pdf_path : Path)
    (max_pages max_chars : Z) : M string :=
  if (max_pages <=? 0)%Z then raise (ValueError "max_pages must be positive")
  else
    match reader with
    | None =>
        log_msg ERROR ("Unable to read PDF " +:+ PathLib.to_str pdf_path);;
        mret EmptyString
    | Some pages =>
        text_chunks ← read_pages pdf_path 0 (take (Z.to_nat max_pages) pages) 0 max_chars;
        let text := Str.join Summarize.nl text_chunks in
        if (max_chars <? Summarize.len text)%Z
        then mret (Summarize.slice_to text max_chars)
        else mret text
    end.

End Extract.

(** ** emailer.py *)

Module Emailer.
Section WithEnv.
Variable env : Env.

Fixpoint attach_all (attachments : list (string * Path)) (acc : list Attachment)
  : M (list Attachment) :=
  match attachments with
  | [] => mret acc
  | (filename, path) :: rest =>
      found ← FS.exists_ env path;
      if negb found then attach_all rest acc
      else
        let sfx := Str.lower (PathLib.suffix path) in
        let subtype :=
          if bool_decide (sfx ∈ [".md"; ".markdown"]) then "markdown" else "plain" in
        data ← FS.read_text env path;
        attach_all rest
          (acc ++ [{| att_filename := filename; att_subtype := subtype;
                      att_data := data |}])
  end.

Definition build_message (subject sender : string) (recipients : list string)
    (body_lines : list string) (attachments : list (string * Path)) : M EmailMessage :=
  atts ← attach_all attachments [];
  mret {| msg_subject := subject;
          msg_from := sender;
          msg_to := Str.join ", " recipients;
          msg_body := Str.join Summarize.nl body_lines;
          msg_attachments := atts |}.

(** The SMTP session is one call of the transport. *)
Definition send_message (message : EmailMessage) (host : string) (port : Z)
    (username password : option string) (use_tls : bool) : M unit :=
  let req := {| req_message := message; req_host := host; req_port := port;
                req_username := username; req_password := password;
                req_use_tls := use_tls |} in
  emit (EvSmtp req);;
  match e_smtp env req with
  | Some err => raise (SMTPError err)
  | None => mret tt
  end.

End WithEnv.
End Emailer.

(** ** main.py *)

(** The [email] section of the configuration, after the defaults of
    [dict.get] are applied. *)
Record EmailCfg := {
  em_enabled : bool;
  em_sender : option string;
  em_recipients : list string;
  em_subject : string;
  em_password_env : option string;
  em_smtp_host : string;
  em_smtp_port : Z;
  em_username : option string;
  em_use_tls : bool;
}.

(** The [auto_decision] section: [ad_default] is [None] when the key
    "default" is absent, [Some None] when it is null. *)
Record AutoCfg := {
  ad_enabled : bool;
  ad_default : option (option string);
}.

Record Config := {
  cfg_input_folders : list string;
  cfg_metadata_sources : option (list Source);
  cfg_archive_dir : string;
  cfg_log_path : string;
  cfg_digest_dir : string;
  cfg_max_pages : Z;
  cfg_max_chars : Z;
  cfg_model : string;
  cfg_auto_decision : AutoCfg;
  cfg_digest_enabled : bool;
  cfg_email : EmailCfg;
}.

(** The command-line arguments [triage_once] reads. *)
Record Args := {
  arg_dry_run : bool;
  arg_archive : option string;
  arg_log_path : option string;
  arg_digest_dir : option string;
  arg_max_pages : option Z;
  arg_max_chars : option Z;
  arg_auto_decision : option string;
}.

(** [a or b] where [a] is an [int] or [None] *)
Definition int_or (a : option Z) (b : Z) : Z :=
  match a with
  | Some n => if (n =? 0)%Z then b else n
  | None => b
  end.

Module Main.
Section WithEnv.
Variable env : Env.

(** [str(b)] for a [bool] *)
Definition str_of_bool (b : bool) : string := if b then "True" else "False".

Definition _resolve_decision_mode (auto_cfg : AutoCfg) (args : Args) : option string :=
  match UI.mode_given (arg_auto_decision args) with
  | Some _ => arg_auto_decision args
  | None =>
      if ad_enabled auto_cfg then
        match ad_default auto_cfg with
        | None => Some "keep"
        | Some configured => configured
        end
      else None
  end.

(** [f"{stem}-{counter}{suffix}"] *)
Definition numbered_name (target : Path) (counter : nat) : string :=
  PathLib.stem target +:+ "-" +:+ pretty counter +:+ PathLib.suffix target.

(** The candidate tried for the given counter. *)
Definition numbered (target : Path) (counter : nat) : Path :=
  PathLib.joinpath (PathLib.parent target) (numbered_name target counter).

(** The [while True] loop of [_unique_target], run for at most [fuel]
    counters. *)
Fixpoint unique_from (fuel : nat) (nodes : gmap Path Node) (target : Path)
    (counter : nat) : option Path :=
  match fuel with
  | 0 => None
  | S fuel' =>
      let candidate := numbered target counter in
      if negb (FS.node_exists nodes (FS.resolve env candidate)) then Some candidate
      else unique_from fuel' nodes target (S counter)
  end.

(** [_unique_target] on a given state of the file system; the fuel is
    one more than the number of nodes, which the loop cannot exhaust. *)
Definition unique_target_in (nodes : gmap Path Node) (target : Path) : option Path :=
  if negb (FS.node_exists nodes (FS.resolve env target)) then Some target
  else unique_from (S (size nodes)) nodes target 1.

Definition _unique_target (target : Path) : M Path :=
  nodes ← get_nodes;
  match unique_target_in nodes target with
  | Some p => mret p
  | None => raise (RuntimeError "no free name")
  end.

(** [summarize_factory(...)]: the cached [_summarize] and its wrapper;
    the cache of the run is [w_cache]. *)
Definition _summarize (model : string) (max_pages max_chars : Z) (path : Path) : M string :=
  emit (EvSummarize path);;
  text ← Summarize.extract_text env path max_pages max_chars;
  Summarize.summarize_text env text model.

Definition summary_wrapper (model : string) (max_pages max_chars : Z)
    (paper : PaperCandidate) : M string := λ w,
  match w_cache w !! pc_path paper with
  | Some summary => (Ok summary, w)
  | None =>
      match _summarize model max_pages max_chars (pc_path paper) w with
      | (Ok summary, w') =>
          (Ok summary, set_cache (<[pc_path paper := summary]> (w_cache w')) w')
      | r => r
      end
  end.

Definition body_line (entry : LogEntry) : string :=
  "- " +:+ le_title entry +:+ " — decision: " +:+ le_decision entry
  +:+ " — file: " +:+ le_path entry.

(** [attachments = {}; if digest_path and digest_path.exists(): ...] *)
Definition collect_attachments (digest_path : option Path) : M (list (string * Path)) :=
  match digest_path with
  | Some dp =>
      found ← FS.exists_ env dp;
      mret (if (found : bool) then [(PathLib.name dp, dp)] else [])
  | None => mret []
  end.

Definition maybe_send_email (email_cfg : EmailCfg) (log_entries : list LogEntry)
    (digest_path : option Path) : M unit :=
  if negb (em_enabled email_cfg) then mret tt
  else if bool_decide (log_entries = []) then
    log_msg INFO "Email enabled but no triage actions were taken; skipping send."
  else
    let sender := em_sender email_cfg in
    let recipients := em_recipients email_cfg in
    if negb (Str.truthy (default EmptyString sender)) || bool_decide (recipients = []) then
      log_msg ERROR "Email sending requires 'sender' and 'recipients' in config."
    else
      let subject := em_subject email_cfg in
      let body_lines :=
        ["Weekly paper triage report"; EmptyString]
        ++ (body_line <$> log_entries)
        ++ [EmptyString;
            "This email was generated automatically by the paper triage assistant."] in
      attachments ← collect_attachments digest_path;
      message ← Emailer.build_message env subject (default EmptyString sender)
                  recipients body_lines attachments;
      let send (password : option string) : M unit :=
        try_except
          (Emailer.send_message env message (em_smtp_host email_cfg)
             (em_smtp_port email_cfg) (em_username email_cfg) password
             (em_use_tls email_cfg);;
           log_msg INFO ("Email digest sent to " +:+ Str.join ", " recipients))
          (λ _, log_msg ERROR "Failed to send email digest") in
      match em_password_env email_cfg with
      | Some password_env =>
          if Str.truthy password_env then
            match e_environ env !! password_env with
            | Some password =>
                if Str.truthy password then send (Some password)
                else log_msg ERROR ("Email password env var " +:+ password_env
                                    +:+ " is not set; skipping email send.")
            | None =>
                log_msg ERROR ("Email password env var " +:+ password_env
                               +:+ " is not set; skipping email send.")
            end
          else send None
      | None => send None
      end.

(** The move of a removed paper into the archive directory; the result
    is the target it was moved to. *)
Definition archive_paper (archive_dir : Path) (paper : PaperCandidate) : M Path :=
  target ← _unique_target (PathLib.joinpath archive_dir (PathLib.name (pc_path paper)));
  FS.move env (pc_path paper) target;;
  mret target.

(** The body of the loop over the actions: the move of a removed paper,
    then the log entry. *)
Definition archive_and_log (archive_dir log_path : Path) (dry_run : bool)
    (action : Action) : M LogEntry :=
  let '(paper, summary, decision) := action in
  (if bool_decide (decision = "r") && negb dry_run then
     archive_paper archive_dir paper;; mret tt
   else mret tt);;
  timestamp ← Log.utcnow (e_isoformat env);
  let entry := {| le_timestamp := timestamp;
                  le_title := pc_title paper;
                  le_path := PathLib.to_str (pc_path paper);
                  le_summary := summary;
                  le_decision := decision;
                  le_dry_run := str_of_bool dry_run |} in
  Log.append_log_entry env log_path entry;;
  mret entry.

Fixpoint process_actions (archive_dir log_path : Path) (dry_run : bool)
    (actions : list Action) (log_entries : list LogEntry) : M (list LogEntry) :=
  match actions with
  | [] => mret log_entries
  | action :: rest =>
      entry ← archive_and_log archive_dir log_path dry_run action;
      process_actions archive_dir log_path dry_run rest (log_entries ++ [entry])
  end.

Definition config_path (override : option string) (configured : string) : Path :=
  PathLib.expanduser (e_home env) (PathLib.of_str (opt_or override configured)).

Definition triage_once (config : Config) (args : Args) : M (list LogEntry) :=
  papers ← Discover.discover_papers env (cfg_input_folders config)
             (cfg_metadata_sources config);
  if bool_decide (papers = []) then
    log_msg INFO ("No PDFs found in configured folders."
                  +:+ (if arg_dry_run args then " (dry-run)" else EmptyString));;
    mret []
  else
    let archive_dir := config_path (arg_archive args) (cfg_archive_dir config) in
    (if negb (arg_dry_run args) then FS.mkdir_p env archive_dir else mret tt);;
    let log_path := config_path (arg_log_path args) (cfg_log_path config) in
    let digest_dir := config_path (arg_digest_dir args) (cfg_digest_dir config) in
    let max_pages := int_or (arg_max_pages args) (cfg_max_pages config) in
    let max_chars := int_or (arg_max_chars args) (cfg_max_chars config) in
    let model_name := cfg_model config in
    (λ w, (Ok tt, set_cache ∅ w));;
    let summary_fn := summary_wrapper model_name max_pages max_chars in
    let decision_mode := _resolve_decision_mode (cfg_auto_decision config) args in
    actions ← UI.triage_papers papers summary_fn (arg_dry_run args) decision_mode;
    log_entries ← process_actions archive_dir log_path (arg_dry_run args) actions [];
    digest_path ←
      (if negb (bool_decide (log_entries = [])) && cfg_digest_enabled config
       then dp ← Log.write_digest env digest_dir log_entries; mret (Some dp)
       else mret None);
    maybe_send_email (cfg_email config) log_entries digest_path;;
    mret log_entries.

End WithEnv.
End Main.

(** * Vocabulary of the statements *)

(** A computation respects a relation on worlds when every run of it,
    returning or raising, takes a world to a related one. *)
Definition respects {A} (R : relation World) (m : M A) : Prop :=
  ∀ w r w', m w = (r, w') → R w w'.

Definition is_move (ev : Event) : bool :=
  match ev with EvMove _ _ => true | _ => false end.

Definition is_smtp (ev : Event) : bool :=
  match ev with EvSmtp _ => true | _ => false end.

(** The events added between two worlds, none of which satisfies [P]. *)
Definition quiet (P : Event → bool) (w w' : World) : Prop :=
  ∃ evs, w_trace w' = w_trace w ++ evs ∧ Forall (λ ev, P ev = false) evs.

(** The file system is the same in both worlds. *)
Definition same_nodes (w w' : World) : Prop := w_nodes w' = w_nodes w.

(** The log can be written: no ancestor of its directory is a regular
    file, its path names an entry of that directory, and it is not a
    directory itself. *)
Definition log_ready (env : Env) (log_path : Path) (w : World) : Prop :=
  (∀ d c, d ∈ FS.chain [] (FS.resolve env (PathLib.parent log_path)) →
          w_nodes w !! d ≠ Some (File c))
  ∧ (∃ x, FS.resolve env log_path = FS.resolve env (PathLib.parent log_path) ++ [x])
  ∧ w_nodes w !! FS.resolve env log_path ≠ Some Dir.

(** The records a source yields in the file system of [w]. *)
Definition yields (env : Env) (w : World) (source : Source)
    (records : list MetaRecord) : Prop :=
  (Discover.load_source env source w).1 = Ok (Some records).

(** The lookup after the records of the given sources are stored, one
    source after the other. *)
Definition stored (env : Env) (w : World) (sources : list Source)
    (lookup : gmap string MetaRecord) : gmap string MetaRecord :=
  fold_left
    (λ lk source,
       match (Discover.load_source env source w).1 with
       | Ok (Some records) => Discover.store_records records lk
       | _ => lk
       end) sources lookup.

(** The invariant of the discovery loops: the paths of the candidates
    are pairwise distinct, and [seen_paths] holds exactly those paths. *)
Definition discovery_inv (st : Discover.DiscState) : Prop :=
  NoDup (pc_path <$> st.1) ∧ ∀ p, p ∈ st.2 ↔ p ∈ pc_path <$> st.1.

(** [q] is enumerated from one of the folders: the folder exists and its
    recursive listing of PDFs has [q]. *)
Definition enumerated (env : Env) (nodes : gmap Path Node)
    (folders : list string) (q : Path) : Prop :=
  ∃ folder, folder ∈ folders
    ∧ FS.node_exists nodes
        (FS.resolve env (PathLib.expanduser (e_home env) (PathLib.of_str folder))) = true
    ∧ q ∈ FS.rglob_pdf env nodes (PathLib.expanduser (e_home env) (PathLib.of_str folder)).

(** The name the j-th file of a given name gets in the archive: the name
    itself, then the names [_unique_target] numbers 1, 2, ... *)
Definition archive_name (target : Path) (j : nat) : string :=
  match j with
  | 0 => PathLib.name target
  | S _ => Main.numbered_name target j
  end.

(** The target of the j-th move of files named [nm] into [archive_dir]. *)
Definition archived_as (archive_dir : Path) (nm : string) (j : nat) : Path :=
  match j with
  | 0 => PathLib.joinpath archive_dir nm
  | S _ => Main.numbered (PathLib.joinpath archive_dir nm) j
  end.

(** The children of the directory [ra] are the first [i] archive names
    of [target], and nothing else. *)
Definition archive_holds (ra : Path) (target : Path) (i : nat)
    (nodes : gmap Path Node) : Prop :=
  FS.is_dir nodes ra = true
  ∧ ∀ x, is_Some (nodes !! (ra ++ [x])) ↔ ∃ j, j < i ∧ x = archive_name target j.

(** The papers are regular files outside the directory [ra], no two of
    them the same file. *)
Definition movable (env : Env) (ra : Path) (papers : list PaperCandidate)
    (nodes : gmap Path Node) : Prop :=
  (∀ paper, paper ∈ papers →
     (∃ c, nodes !! FS.resolve env (pc_path paper) = Some (File c))
     ∧ ∀ x, FS.resolve env (pc_path paper) ≠ ra ++ [x])
  ∧ NoDup ((λ paper, FS.resolve env (pc_path paper)) <$> papers).

(** Nothing was moved between two worlds: no call of [shutil.move] was
    added to the trace, and every node of the file system is still
    there. *)
Definition unmoved (w w' : World) : Prop :=
  quiet is_move w w' ∧ dom (w_nodes w) ⊆ dom (w_nodes w').

(** The log entry of an action: its title, path, summary and decision,
    and the dry-run flag of the run. *)
Definition describes (dry_run : bool) (action : Action) (entry : LogEntry) : Prop :=
  le_title entry = pc_title action.1.1
  ∧ le_path entry = PathLib.to_str (pc_path action.1.1)
  ∧ le_summary entry = action.1.2
  ∧ le_decision entry = action.2
  ∧ le_dry_run entry = Main.str_of_bool dry_run.

(** The log file after the rows of [new] are appended to what it was
    [before]: nothing changes when there is nothing to append, the rows
    go after the rows of an existing file, and a new file starts with the
    header. *)
Definition logged (before : option Node) (new : list LogEntry) : option Node :=
  match new with
  | [] => before
  | _ :: _ =>
      Some (File (match before with
                  | Some (File rows) => rows
                  | _ => [Log.LOG_FIELDS]
                  end ++ (Log.row_of <$> new)))
  end.

(** No move among the events takes the file [r] away or puts a file in
    its place. *)
Definition moves_avoid (env : Env) (r : Path) (evs : list Event) : Prop :=
  ∀ src dst, EvMove src dst ∈ evs → FS.resolve env src ≠ r ∧ FS.resolve env dst ≠ r.

(** A password is required (a variable is named) but the environment
    has no value for it. *)
Definition password_missing (env : Env) (email_cfg : EmailCfg) : bool :=
  match em_password_env email_cfg with
  | Some name =>
      Str.truthy name && negb (Str.truthy (default EmptyString (e_environ env !! name)))
  | None => false
  end.

(** The configuration allows an email: it is enabled, with a sender and
    at least one recipient. *)
Definition can_send (email_cfg : EmailCfg) : Prop :=
  em_enabled email_cfg = true
  ∧ Str.truthy (default EmptyString (em_sender email_cfg)) = true
  ∧ em_recipients email_cfg ≠ [].

Definition is_log (ev : Event) : bool :=
  match ev with EvLog _ _ => true | _ => false end.

(** Between two worlds only log messages were emitted: the file system,
    the input, the clock and the cache are as they were. *)
Definition logs_only (w w' : World) : Prop :=
  w_nodes w' = w_nodes w ∧ w_stdin w' = w_stdin w ∧ w_ticks w' = w_ticks w
  ∧ w_cache w' = w_cache w
  ∧ ∃ evs, w_trace w' = w_trace w ++ evs ∧ Forall (λ ev, is_log ev = true) evs.

(** The paths of [l] that are not in [seen], each at its first
    occurrence. *)
Fixpoint keep_first (seen : gset Path) (l : list Path) : list Path :=
  match l with
  | [] => []
  | p :: r =>
      if decide (p ∈ seen) then keep_first seen r
      else p :: keep_first ({[p]} ∪ seen) r
  end.

(** The PDFs one configured folder contributes, in the order the loop
    visits them: nothing when the folder does not exist. *)
Definition listing (env : Env) (nodes : gmap Path Node) (folder : string) : list Path :=
  let folder_path := PathLib.expanduser (e_home env) (PathLib.of_str folder) in
  if FS.node_exists nodes (FS.resolve env folder_path)
  then PathLib.sorted (FS.rglob_pdf env nodes folder_path) else [].

(** The configured folders that do not exist, in the order they are
    configured. *)
Definition missing_folders (env : Env) (nodes : gmap Path Node)
    (folders : list string) : list string :=
  filter (λ folder,
            FS.node_exists nodes
              (FS.resolve env (PathLib.expanduser (e_home env) (PathLib.of_str folder)))
            = false) folders.

(** A candidate as [discover_papers] fills it from the lookup. *)
Definition filled_from (lookup : gmap string MetaRecord) (c : PaperCandidate) : Prop :=
  pc_metadata c = default ∅ (lookup !! Str.lower (PathLib.name (pc_path c)))
  ∧ pc_title c = opt_or (rec_get (pc_metadata c) "title") (PathLib.stem (pc_path c))
  ∧ Str.endswith (PathLib.name (pc_path c)) ".pdf" = true
  ∧ pc_title c ≠ EmptyString.

(** The choice [_prompt_for_decision] reads from one line of input. *)
Definition choice_of (line : string) : string :=
  Str.lower (Str.strip (UI.prompt_response "k" line)).

(** The world after the prompt consumed lines of the input: what is left
    of the input, and one opening of the file for every "o" among the
    lines consumed. *)
Definition prompted (path : Path) (consumed rest : list string) (w : World) : World :=
  {| w_nodes := w_nodes w; w_stdin := rest; w_ticks := w_ticks w;
     w_cache := w_cache w;
     w_trace := w_trace w
                ++ ((λ _, EvOpenFile path) <$> filter (λ l, choice_of l = "o") consumed) |}.

(** The paths whose text was extracted and sent to the model, in the
    order of the calls. *)
Definition summarized (evs : list Event) : list Path :=
  omap (λ ev, match ev with EvSummarize p => Some p | _ => None end) evs.

(** A Python [str] that [str.strip] leaves as it is. *)
Definition stripped (s : string) : Prop := Str.lstrip s = s ∧ Str.rstrip s = s.

(** The papers of the actions whose decision is "r". *)
Definition removed (actions : list Action) : list PaperCandidate :=
  (λ a : Action, a.1.1) <$> filter (λ a : Action, a.2 = "r") actions.

(** [dst] is a name [_unique_target] can return for a file named like
    [src] in [archive_dir]: the name itself or a numbered one. *)
Definition archive_target (archive_dir : Path) (src dst : Path) : Prop :=
  let target := PathLib.joinpath archive_dir (PathLib.name src) in
  dst = target ∨ ∃ k, 1 ≤ k ∧ dst = Main.numbered target k.

(** The file [p] is not an entry of the directory [dir]. *)
Definition outside (env : Env) (p dir : Path) : Prop :=
  ∀ x, FS.resolve env p ≠ FS.resolve env dir ++ [x].

(** The loop over the actions can run: the log can be written and,
    unless the run is dry, the archive directory exists, neither the log
    file nor a directory on the way to it is an entry of the archive
    directory, and the papers to remove are regular PDF files, no two of
    them the same file and none of them the log file. *)
Definition loop_ready (env : Env) (archive_dir log_path : Path) (dry_run : bool)
    (actions : list Action) (w : World) : Prop :=
  log_ready env log_path w
  ∧ (dry_run = false →
     FS.is_dir (w_nodes w) (FS.resolve env archive_dir) = true
     ∧ (∀ d x, d ∈ FS.chain [] (FS.resolve env log_path) →
               d ≠ FS.resolve env archive_dir ++ [x])
     ∧ (∀ paper, paper ∈ removed actions →
          Str.endswith (PathLib.name (pc_path paper)) ".pdf" = true
          ∧ (∃ c, w_nodes w !! FS.resolve env (pc_path paper) = Some (File c))
          ∧ FS.resolve env (pc_path paper) ≠ FS.resolve env log_path)
     ∧ NoDup ((λ paper, FS.resolve env (pc_path paper)) <$> removed actions)).

(** The path a bookmark entry names: "path", else "file". *)
Definition bookmark_path (entry : StrDict) : string :=
  opt_or (entry !! "path") (opt_or (entry !! "file") EmptyString).

(** The attachment a row of a reference export names: the first of the
    paths its attachment column lists, without surrounding blanks; the
    column is "File Attachments", else "Attachments", "file", "path". *)
Definition export_attachment (row : StrDict) : string :=
  Str.strip (hd EmptyString (Str.split ";"
    (opt_or (row !! "File Attachments")
       (opt_or (row !! "Attachments")
          (opt_or (row !! "file") (opt_or (row !! "path") EmptyString)))))).

(** The key under which a record for the file at [file_path] is stored. *)
Definition key_of (file_path : string) : string :=
  Str.lower (PathLib.name (PathLib.of_str file_path)).

(** The lines of a digest of the given entries. *)
Definition digest_text (entries : list LogEntry) : list string :=
  ["# Weekly Paper Digest"; EmptyString] ++ concat (Log.digest_lines <$> entries).

(** The name of the digest written when the clock shows [tick]. *)
Definition digest_name (env : Env) (tick : nat) : string :=
  "digest-" +:+ e_compact env tick +:+ ".md".

(** The directory can be made: no regular file stands where it or one of
    its ancestors should be. *)
Definition dir_ready (env : Env) (dir : Path) (w : World) : Prop :=
  ∀ d c, d ∈ FS.chain [] (FS.resolve env dir) → w_nodes w !! d ≠ Some (File c).

(** The lines of the report [maybe_send_email] sends: one line per
    entry, between a heading and a closing sentence. *)
Definition report_lines (entries : list LogEntry) : list string :=
  ["Weekly paper triage report"; EmptyString]
  ++ (Main.body_line <$> entries)
  ++ [EmptyString;
      "This email was generated automatically by the paper triage assistant."].

(** What is attached to the report: the digest, when there is one and it
    is a regular file. *)
Definition digest_attachment (env : Env) (w : World) (digest_path : option Path)
  : list Attachment :=
  match digest_path with
  | Some dp =>
      match w_nodes w !! FS.resolve env dp with
      | Some (File c) =>
          [{| att_filename := PathLib.name dp;
              att_subtype :=
                if bool_decide (Str.lower (PathLib.suffix dp) ∈ [".md"; ".markdown"])
                then "markdown" else "plain";
              att_data := c |}]
      | _ => []
      end
  | None => []
  end.

(** The password the session logs in with: the value of the variable the
    configuration names, if it names one. *)
Definition password_of (env : Env) (email_cfg : EmailCfg) : option string :=
  match em_password_env email_cfg with
  | Some name => if Str.truthy name then e_environ env !! name else None
  | None => None
  end.

(** The one call of the transport a report takes. *)
Definition report_request (env : Env) (email_cfg : EmailCfg) (entries : list LogEntry)
    (digest_path : option Path) (w : World) : SendRequest :=
  {| req_message :=
       {| msg_subject := em_subject email_cfg;
          msg_from := default EmptyString (em_sender email_cfg);
          msg_to := Str.join ", " (em_recipients email_cfg);
          msg_body := Str.join Summarize.nl (report_lines entries);
          msg_attachments := digest_attachment env w digest_path |};
     req_host := em_smtp_host email_cfg;
     req_port := em_smtp_port email_cfg;
     req_username := em_username email_cfg;
     req_password := password_of env email_cfg;
     req_use_tls := em_use_tls email_cfg |}.

(** ** A small world for the examples

    The home directory /home/u holds two folders of papers, [a] and [b];
    the process runs in /home/u. *)

Module Example.

Definition env : Env := {|
  e_cwd := ["home"; "u"];
  e_home := ["/"; "home"; "u"];
  e_environ := ∅;
  e_json := λ _, None;
  e_csv := λ _, None;
  e_pdf_pages := λ _, Some ["Some text"];
  e_ollama_installed := true;
  e_ollama_chat := λ _ _, Some (Some "A summary.");
  e_smtp := λ _, None;
  e_isoformat := λ n, "T" +:+ pretty n;
  e_compact := λ n, "C" +:+ pretty n;
|}.

Definition nodes : gmap Path Node :=
  list_to_map
    [(["home"], Dir); (["home"; "u"], Dir);
     (["home"; "u"; "a"], Dir); (["home"; "u"; "b"], Dir);
     (["home"; "u"; "a"; "x.pdf"], File []);
     (["home"; "u"; "b"; "x.pdf"], File []);
     (["home"; "u"; "b"; "Paper.pdf"], File [])].

Definition world : World := {|
  w_nodes := nodes;
  w_stdin := [];
  w_ticks := 0;
  w_cache := ∅;
  w_trace := [];
|}.

Definition entry (n : nat) : LogEntry := {|
  le_timestamp := "T" +:+ pretty n;
  le_title := "x";
  le_path := "a/x.pdf";
  le_summary := "A summary.";
  le_decision := "k";
  le_dry_run := "False";
|}.

Definition log_path : Path := ["triage_log.csv"].

Definition email_off : EmailCfg := {|
  em_enabled := false;
  em_sender := Some "paper-triage@example.com";
  em_recipients := [];
  em_subject := "Weekly paper triage digest";
  em_password_env := None;
  em_smtp_host := "localhost";
  em_smtp_port := 587;
  em_username := None;
  em_use_tls := true;
|}.

(** The folders [a] and [b], automatic decisions with the given default. *)
Definition config (default : option (option string)) : Config := {|
  cfg_input_folders := ["a"; "b"];
  cfg_metadata_sources := None;
  cfg_archive_dir := "archive";
  cfg_log_path := "triage_log.csv";
  cfg_digest_dir := "digests";
  cfg_max_pages := 3;
  cfg_max_chars := 4000;
  cfg_model := "llama3.2:latest";
  cfg_auto_decision := {| ad_enabled := true; ad_default := default |};
  cfg_digest_enabled := false;
  cfg_email := email_off;
|}.

Definition args (dry_run : bool) : Args := {|
  arg_dry_run := dry_run;
  arg_archive := None;
  arg_log_path := None;
  arg_digest_dir := None;
  arg_max_pages := None;
  arg_max_chars := None;
  arg_auto_decision := None;
|}.

(** Two metadata sources that both describe paper.pdf: a bookmarks file
    and, processed after it, a Zotero export. *)
Definition bookmarks : Source := {| src_type := None; src_path := "bookmarks.json" |}.
Definition zotero : Source := {| src_type := Some "Zotero"; src_path := "~/zotero.csv" |}.

Definition env_with_metadata : Env := {|
  e_cwd := ["home"; "u"];
  e_home := ["/"; "home"; "u"];
  e_environ := ∅;
  e_json := λ p,
    if decide (p = ["home"; "u"; "bookmarks.json"])
    then Some (JArray [{[ "path" := "/library/paper.pdf"; "title" := "Old title" ]}])
    else None;
  e_csv := λ p,
    if decide (p = ["home"; "u"; "zotero.csv"])
    then Some [{[ "Title" := "X"; "Author" := "A. Author"; "Year" := "2020";
                  "File Attachments" := "/zotero/paper.pdf; /zotero/notes.txt" ]}]
    else None;
  e_pdf_pages := λ _, Some ["Some text"];
  e_ollama_installed := true;
  e_ollama_chat := λ _ _, Some (Some "A summary.");
  e_smtp := λ _, None;
  e_isoformat := λ n, "T" +:+ pretty n;
  e_compact := λ n, "C" +:+ pretty n;
|}.

Definition world_with_metadata : World :=
  set_nodes (λ m, <[["home"; "u"; "bookmarks.json"] := File []]>
                    (<[["home"; "u"; "zotero.csv"] := File []]> m)) world.

Definition zotero_record : MetaRecord :=
  {[ "title" := Some "X"; "file_key" := Some "paper.pdf";
     "authors" := Some "A. Author"; "year" := Some "2020";
     "source" := Some "/home/u/zotero.csv" ]}.

End Example.

(** * Facts *)

(** ** Strings and paths *)

Lemma str_take_drop n s : Str.take n s +:+ Str.drop n s = s.
Proof.
  revert s; induction n as [|n IH]; intros [|c r]; simpl; try reflexivity.
  unfold String.app; simpl. f_equal. apply IH.
Qed.

Lemma str_app_nil_r s : s +:+ EmptyString = s.
Proof. induction s as [|c r IH]; [reflexivity|]. unfold String.app in *; simpl; by rewrite IH. Qed.

Lemma str_app_cons c a b : String c a +:+ b = String c (a +:+ b).
Proof. reflexivity. Qed.

Lemma str_length_app a b :
  String.length (a +:+ b) = String.length a + String.length b.
Proof.
  induction a as [|x a IH]; [reflexivity|].
  rewrite str_app_cons. simpl. by rewrite IH.
Qed.

Lemma str_app_inj_r a b c : a +:+ c = b +:+ c → a = b.
Proof.
  revert b; induction a as [|x a IH]; intros [|y b] H; try reflexivity.
  - apply (f_equal String.length) in H. rewrite !str_length_app in H. simpl in H. lia.
  - apply (f_equal String.length) in H. rewrite !str_length_app in H. simpl in H. lia.
  - rewrite !str_app_cons in H. injection H as -> H. f_equal. by apply IH.
Qed.

Lemma has_dash_app a b : Str.has_dash (a +:+ "-" +:+ b) = true.
Proof.
  induction a as [|x a IH]; [reflexivity|].
  rewrite str_app_cons. simpl. rewrite IH. by destruct (bool_decide _).
Qed.

Lemma stem_suffix p : PathLib.stem p +:+ PathLib.suffix p = PathLib.name p.
Proof.
  unfold PathLib.stem, PathLib.suffix.
  destruct (Str.rfind_dot (PathLib.name p)) as [i|]; [|apply str_app_nil_r].
  destruct (_ && _); [apply str_take_drop | apply str_app_nil_r].
Qed.

Lemma name_snoc p n : n ≠ "/" → PathLib.name (p ++ [n]) = n.
Proof.
  intros Hn. unfold PathLib.name. rewrite last_snoc. by destruct (decide _).
Qed.

Lemma parent_snoc p n : n ≠ "/" → PathLib.parent (p ++ [n]) = p.
Proof.
  intros Hn. unfold PathLib.parent. destruct (decide _) as [E|_].
  - destruct p as [|x [|y p]]; simplify_eq/=.
  - apply removelast_last.
Qed.

Lemma joinpath_ordinary p n : n ≠ "" → n ≠ "." → PathLib.joinpath p n = p ++ [n].
Proof. intros ??. unfold PathLib.joinpath. destruct (decide _) as [[?|?]|?]; done. Qed.

Lemma resolve_snoc cwd p n :
  n ≠ "/" → n ≠ ".." → PathLib.resolve cwd (p ++ [n]) = PathLib.resolve cwd p ++ [n].
Proof.
  intros H1 H2. unfold PathLib.resolve.
  assert (∀ acc, PathLib.resolve_step acc n = acc ++ [n]) as Hstep.
  { intros acc. unfold PathLib.resolve_step. by destruct (decide _). }
  destruct p as [|x r]; simpl.
  - destruct (decide _); [done|]. apply Hstep.
  - destruct (decide _); rewrite fold_left_app; simpl; apply Hstep.
Qed.

Lemma numbered_name_ordinary target k :
  Main.numbered_name target k ∉ [""; "."; ".."; "/"].
Proof.
  intros Hin. pose proof (has_dash_app (PathLib.stem target)
    (pretty k +:+ PathLib.suffix target)) as Hd.
  fold (Main.numbered_name target k) in Hd.
  set_unfold in Hin. destruct Hin as [E|[E|[E|[E|[]]]]]; by rewrite E in Hd.
Qed.

Lemma numbered_name_inj target i j :
  Main.numbered_name target i = Main.numbered_name target j → i = j.
Proof.
  unfold Main.numbered_name. intros H.
  apply String.app_inj in H. apply String.app_inj in H.
  apply str_app_inj_r in H. by apply pretty_nat_inj in H.
Qed.

Lemma numbered_name_fresh target k : Main.numbered_name target k ≠ PathLib.name target.
Proof.
  unfold Main.numbered_name. rewrite <-stem_suffix. intros H.
  apply String.app_inj in H.
  apply (f_equal String.length) in H. rewrite !str_length_app in H. simpl in H. lia.
Qed.

(** ** The monad *)

Lemma bind_inv {A B} (m : M A) (f : A → M B) w r w' :
  (m ≫= f) w = (r, w') →
  (∃ a w1, m w = (Ok a, w1) ∧ f a w1 = (r, w'))
  ∨ (∃ e, m w = (Raise e, w') ∧ r = Raise e).
Proof.
  unfold mbind, M_bind. destruct (m w) as [[a|e] w1]; intros H.
  - left; eauto.
  - right; exists e. by simplify_eq.
Qed.

Lemma bind_ok_inv {A B} (m : M A) (f : A → M B) w b w' :
  (m ≫= f) w = (Ok b, w') → ∃ a w1, m w = (Ok a, w1) ∧ f a w1 = (Ok b, w').
Proof. intros [H|(e & _ & ?)]%bind_inv; [done|discriminate]. Qed.

Lemma bind_ok {A B} (m : M A) (f : A → M B) w a w1 :
  m w = (Ok a, w1) → (m ≫= f) w = f a w1.
Proof. unfold mbind, M_bind. by intros ->. Qed.

Lemma try_except_inv {A} (m : M A) (h : exn → M A) w r w' :
  try_except m h w = (r, w') →
  (∃ a, m w = (Ok a, w') ∧ r = Ok a) ∨ (∃ e w1, m w = (Raise e, w1) ∧ h e w1 = (r, w')).
Proof.
  unfold try_except. destruct (m w) as [[a|e] w1]; intros H.
  - left; exists a. by simplify_eq.
  - right; eauto.
Qed.

Section Respects.
Context (R : relation World) `{!PreOrder R}.

Lemma respects_ret {A} (a : A) : respects R (mret a).
Proof. intros w r w' [= _ <-]. reflexivity. Qed.

Lemma respects_raise {A} e : respects R (raise (A := A) e).
Proof. intros w r w' [= _ <-]. reflexivity. Qed.

Lemma respects_pure {A} (x : Result A) : respects R (λ w, (x, w)).
Proof. intros w r w' [= _ <-]. reflexivity. Qed.

Lemma respects_bind {A B} (m : M A) (f : A → M B) :
  respects R m → (∀ a, respects R (f a)) → respects R (m ≫= f).
Proof.
  intros Hm Hf w r w' [(a & w1 & H1 & H2)|(e & H1 & _)]%bind_inv.
  - etrans; [by eapply Hm | by eapply Hf].
  - by eapply Hm.
Qed.

Lemma respects_try {A} (m : M A) (h : exn → M A) :
  respects R m → (∀ e, respects R (h e)) → respects R (try_except m h).
Proof.
  intros Hm Hh w r w' [(a & H1 & _)|(e & w1 & H1 & H2)]%try_except_inv.
  - by eapply Hm.
  - etrans; [by eapply Hm | by eapply Hh].
Qed.

End Respects.

#[global] Instance quiet_preorder P : PreOrder (quiet P).
Proof.
  split.
  - intros w. exists []. by rewrite app_nil_r.
  - intros w1 w2 w3 (e1 & H1 & F1) (e2 & H2 & F2). exists (e1 ++ e2).
    split; [by rewrite H2, H1, app_assoc | by apply Forall_app].
Qed.

Lemma log_msg_run lvl msg w : log_msg lvl msg w = (Ok tt, add_event (EvLog lvl msg) w).
Proof. reflexivity. Qed.

(** ** ui.py: decisions and actions *)

Lemma auto_decide_allowed mode d : UI._auto_decide mode = Ok d → d ∈ UI.allowed.
Proof.
  destruct mode as [|c rest]; simpl; [done|].
  case_bool_decide as Hin; [|done]. by intros [= <-].
Qed.

Lemma prompt_loop_allowed path lines w d w' :
  UI.prompt_loop path lines w = (Ok d, w') → d ∈ UI.allowed.
Proof.
  revert w. induction lines as [|line rest IH]; intros w; simpl; [done|].
  destruct (decide _); [apply IH|].
  case_bool_decide as Hin; [|apply IH]. by intros [= <- _].
Qed.

Lemma quiet_same_trace P w w' : w_trace w' = w_trace w → quiet P w w'.
Proof. intros H. exists []. by rewrite app_nil_r. Qed.

Lemma prompt_loop_quiet P path lines w r w' :
  (∀ p, P (EvOpenFile p) = false) →
  UI.prompt_loop path lines w = (r, w') → quiet P w w'.
Proof.
  intros HP. revert w. induction lines as [|line rest IH]; intros w; simpl.
  - intros [= _ <-]. by apply quiet_same_trace.
  - destruct (decide _).
    + intros H%IH. etrans; [|exact H]. exists [EvOpenFile path]. split; [done|].
      by constructor.
    + case_bool_decide; [|apply IH]. intros [= _ <-]. by apply quiet_same_trace.
Qed.

Lemma prompt_loop_same_nodes path lines w r w' :
  UI.prompt_loop path lines w = (r, w') → same_nodes w w'.
Proof.
  revert w. induction lines as [|line rest IH]; intros w; simpl.
  - by intros [= _ <-].
  - destruct (decide _).
    + intros H%IH. unfold same_nodes in *. by rewrite H.
    + case_bool_decide; [|apply IH]. by intros [= _ <-].
Qed.

(** The operator's line is a decision when it normalises to k, r or s. *)
Lemma prompt_loop_returns path lines w :
  (∃ line, line ∈ lines ∧
     Str.lower (Str.strip (UI.prompt_response "k" line)) ∈ UI.allowed) →
  ∃ d w', UI.prompt_loop path lines w = (Ok d, w').
Proof.
  intros (line & Hin & Hok). revert w.
  induction lines as [|l rest IH]; intros w; [by apply elem_of_nil in Hin|].
  simpl. destruct (decide _) as [Ho|_].
  - apply elem_of_cons in Hin as [->|Hin]; [|by apply IH].
    rewrite Ho in Hok. apply (bool_decide_eq_true_2 _) in Hok. vm_compute in Hok. discriminate.
  - case_bool_decide as Hl; [eauto|].
    apply elem_of_cons in Hin as [->|Hin]; [done|by apply IH].
Qed.

Lemma triage_from_shape papers sf dry auto acc w actions w' :
  UI.triage_from papers sf dry auto acc w = (Ok actions, w') →
  ∃ new, actions = acc ++ new
    ∧ (λ a : Action, a.1.1) <$> new = papers
    ∧ Forall (λ a : Action, a.2 ∈ UI.allowed) new
    ∧ (∀ mode, UI.mode_given auto = Some mode →
         Forall (λ a : Action, UI._auto_decide mode = Ok a.2) new).
Proof.
  revert acc w. induction papers as [|paper rest IH]; intros acc w; simpl.
  - intros [= <- _]. exists []. rewrite app_nil_r. repeat split; by constructor.
  - intros (summary & w1 & Hs & H)%bind_ok_inv.
    apply bind_ok_inv in H as (decision & w2 & Hd & H).
    apply IH in H as (new & -> & Hp & Hall & Hauto).
    exists ((paper, summary, decision) :: new).
    split; [by rewrite <-app_assoc|]. split; [by rewrite fmap_cons, Hp|]. split.
    + constructor; [|done]. simpl.
      destruct (UI.mode_given auto) as [mode|].
      * injection Hd as Hd _. by eapply auto_decide_allowed.
      * by eapply prompt_loop_allowed.
    + intros mode Hm. constructor; [|by apply Hauto]. simpl.
      rewrite Hm in Hd. by injection Hd as Hd _.
Qed.

Lemma triage_from_respects (R : relation World) `{!PreOrder R} papers sf dry auto acc :
  (∀ paper, respects R (sf paper)) →
  (∀ path lines w r w', UI.prompt_loop path lines w = (r, w') → R w w') →
  respects R (UI.triage_from papers sf dry auto acc).
Proof.
  intros Hsf Hprompt. revert acc. induction papers as [|paper rest IH]; intros acc; simpl.
  - by apply respects_ret.
  - apply respects_bind; [done..|]. intros summary.
    apply respects_bind; [done| |by intros; apply IH].
    destruct (UI.mode_given auto).
    + by apply respects_pure.
    + intros w r w' H. by eapply Hprompt.
Qed.

(** With a mode the automatic decision rejects, a run over at least one
    paper raises. *)
Lemma triage_from_rejected papers sf dry auto acc mode e w r w' :
  UI.mode_given auto = Some mode → UI._auto_decide mode = Raise e → papers ≠ [] →
  UI.triage_from papers sf dry auto acc w = (r, w') → ∃ e', r = Raise e'.
Proof.
  intros Hm He Hne. destruct papers as [|paper rest]; [done|]. simpl.
  intros [(summary & w1 & Hs & H)|(e' & _ & ->)]%bind_inv; [|eauto].
  rewrite Hm in H. apply bind_inv in H as [(d & w2 & Hd & _)|(e' & _ & ->)]; [|eauto].
  rewrite He in Hd. discriminate.
Qed.

(** ** The file system *)

Lemma exists_run env p w :
  FS.exists_ env p w = (Ok (FS.node_exists (w_nodes w) (FS.resolve env p)), w).
Proof. reflexivity. Qed.

Lemma node_exists_lookup nodes (r : Path) :
  r ≠ [] → FS.node_exists nodes r = bool_decide (is_Some (nodes !! r)).
Proof.
  intros Hr. unfold FS.node_exists. destruct r; [done|].
  destruct (nodes !! _); symmetry; [by apply bool_decide_eq_true_2|].
  apply bool_decide_eq_false_2. by intros [? ?].
Qed.

Lemma mkdirs_lookup ps nodes nodes' q :
  FS.mkdirs ps nodes = Ok nodes' →
  nodes' !! q = nodes !! q ∨ (nodes !! q = None ∧ nodes' !! q = Some Dir ∧ q ∈ ps).
Proof.
  revert nodes. induction ps as [|d ps IH]; intros nodes; simpl.
  - intros [= <-]. by left.
  - destruct (nodes !! d) as [[|c]|] eqn:Hd; [|done|].
    + intros [H|(?&?&?)]%IH; [by left|]. right.
      split; [done|]. split; [done|]. by apply elem_of_cons; right.
    + intros H%IH. destruct (decide (q = d)) as [->|Hne].
      * right. split; [done|]. split; [|by apply elem_of_cons; left].
        destruct H as [H|(H&_)]; by rewrite lookup_insert_eq in H.
      * rewrite lookup_insert_ne in H by done.
        destruct H as [H|(?&?&?)]; [by left|]. right.
        split; [done|]. split; [done|]. by apply elem_of_cons; right.
Qed.

Lemma mkdirs_made ps nodes nodes' d :
  FS.mkdirs ps nodes = Ok nodes' → d ∈ ps → nodes' !! d = Some Dir.
Proof.
  revert nodes. induction ps as [|d' ps IH]; intros nodes; simpl; [set_solver|].
  intros H Hin.
  assert (∀ m, m !! d' = Some Dir → FS.mkdirs ps m = Ok nodes' → nodes' !! d = Some Dir) as Hstep.
  { intros m Hm Hrun. apply elem_of_cons in Hin as [->|Hin]; [|by eapply IH].
    destruct (mkdirs_lookup _ _ _ d' Hrun) as [E|(E&_)]; congruence. }
  destruct (nodes !! d') as [[|c]|] eqn:Hd; [by eapply Hstep|done|].
  eapply Hstep; [|done]. by rewrite lookup_insert_eq.
Qed.

Lemma mkdirs_total ps nodes :
  (∀ d c, d ∈ ps → nodes !! d ≠ Some (File c)) → ∃ nodes', FS.mkdirs ps nodes = Ok nodes'.
Proof.
  revert nodes. induction ps as [|d ps IH]; intros nodes Hfree; simpl; [eauto|].
  destruct (nodes !! d) as [[|c]|] eqn:Hd.
  - apply IH. intros. apply Hfree. set_solver.
  - exfalso. eapply Hfree; [|done]. set_solver.
  - apply IH. intros d' c Hin. destruct (decide (d' = d)) as [->|Hne].
    + by rewrite lookup_insert_eq.
    + rewrite lookup_insert_ne by done. apply Hfree. set_solver.
Qed.

Lemma chain_length pre r d : d ∈ FS.chain pre r → length pre < length d ≤ length pre + length r.
Proof.
  revert pre. induction r as [|x r IH]; intros pre; simpl; [set_solver|].
  intros [->|Hin%IH]%elem_of_cons; rewrite ?length_app in *; simpl in *; lia.
Qed.

Lemma chain_last pre r : r ≠ [] → pre ++ r ∈ FS.chain pre r.
Proof.
  revert pre. induction r as [|x r IH]; intros pre Hne; [done|]. simpl.
  destruct r as [|y r]; [set_solver|].
  apply elem_of_cons. right. rewrite (cons_middle x), app_assoc. by apply IH.
Qed.

Lemma mkdir_p_inv env p w r w' :
  FS.mkdir_p env p w = (r, w') →
  (∃ nodes', FS.mkdirs (FS.chain [] (FS.resolve env p)) (w_nodes w) = Ok nodes'
             ∧ r = Ok tt ∧ w' = set_nodes (λ _, nodes') w)
  ∨ (∃ e, r = Raise e ∧ w' = w).
Proof.
  unfold FS.mkdir_p. destruct (FS.mkdirs _ _) as [nodes'|e]; intros [= <- <-]; eauto.
Qed.

Lemma open_append_inv env p w r w' :
  FS.open_append env p w = (r, w') →
  r = Ok tt →
  FS.resolve env p ≠ [] ∧
  ((∃ c, w_nodes w !! FS.resolve env p = Some (File c) ∧ w' = w)
   ∨ (w_nodes w !! FS.resolve env p = None
      ∧ w' = set_nodes (insert (FS.resolve env p) (File [])) w)).
Proof.
  unfold FS.open_append. intros H ->.
  destruct (FS.resolve env p) as [|x rp]; [by simplify_eq|].
  split; [done|].
  destruct (w_nodes w !! (x :: rp : Path)) as [[|c]|]; [by simplify_eq| |].
  - left. exists c. split; [done|]. by simplify_eq.
  - right. split; [done|]. destruct (FS.is_dir _ _); by simplify_eq.
Qed.

Lemma open_append_silent env p w r w' :
  FS.open_append env p w = (r, w') → w_trace w' = w_trace w.
Proof.
  unfold FS.open_append. intros H.
  destruct (FS.resolve env p) as [|x rp]; [by simplify_eq|].
  destruct (w_nodes w !! (x :: rp : Path)) as [[|c]|]; [by simplify_eq..|].
  destruct (FS.is_dir _ _); by simplify_eq.
Qed.

Lemma write_rows_inv env p rows w r w' :
  FS.write_rows env p rows w = (r, w') → r = Ok tt →
  ∃ c, w_nodes w !! FS.resolve env p = Some (File c)
       ∧ w' = set_nodes (insert (FS.resolve env p) (File (c ++ rows))) w.
Proof.
  unfold FS.write_rows. intros H ->.
  destruct (w_nodes w !! FS.resolve env p) as [[|c]|]; [discriminate| |discriminate].
  exists c. split; [done|]. congruence.
Qed.

Lemma write_rows_silent env p rows w r w' :
  FS.write_rows env p rows w = (r, w') → w_trace w' = w_trace w.
Proof.
  unfold FS.write_rows. intros H.
  destruct (w_nodes w !! FS.resolve env p) as [[|c]|]; by simplify_eq.
Qed.

Lemma write_text_silent env p lines w r w' :
  FS.write_text env p lines w = (r, w') → w_trace w' = w_trace w.
Proof.
  unfold FS.write_text. intros H.
  destruct (FS.resolve env p) as [|x rp]; [by simplify_eq|].
  destruct (w_nodes w !! (x :: rp : Path)) as [[|c]|]; [by simplify_eq|..];
    destruct (FS.is_dir _ _); by simplify_eq.
Qed.

Lemma read_text_silent env p w r w' :
  FS.read_text env p w = (r, w') → w_trace w' = w_trace w.
Proof.
  unfold FS.read_text. intros H.
  destruct (FS.resolve env p) as [|x rp]; [by simplify_eq|].
  destruct (w_nodes w !! (x :: rp : Path)) as [[|c]|]; by simplify_eq.
Qed.

(** ** log.py: the CSV log *)

Section LogFacts.
Variable env : Env.

(** What one successful call does to the log file and to the others. *)
Lemma append_log_entry_inv log_path entry w w' :
  Log.append_log_entry env log_path entry w = (Ok tt, w') →
  let r := FS.resolve env log_path in
  w_trace w' = w_trace w
  ∧ ((∃ c, w_nodes w !! r = Some (File c)
           ∧ w_nodes w' !! r = Some (File (c ++ [Log.row_of entry])))
     ∨ (w_nodes w !! r = None
        ∧ w_nodes w' !! r = Some (File [Log.LOG_FIELDS; Log.row_of entry])))
  ∧ (∀ q c, q ≠ r → w_nodes w' !! q = Some (File c) ↔ w_nodes w !! q = Some (File c)).
Proof.
  intros H r. unfold Log.append_log_entry in H.
  apply bind_ok_inv in H as ([] & w1 & Hmk & H).
  apply mkdir_p_inv in Hmk as [(nodes1 & Hmk & _ & ->)|(e & ? & _)]; [|done].
  rewrite (bind_ok _ _ _ _ _ (exists_run _ _ _)) in H.
  apply bind_ok_inv in H as ([] & w2 & Hopen & H).
  pose proof (open_append_silent _ _ _ _ _ Hopen) as Ht2.
  apply open_append_inv in Hopen as [Hr Hopen]; [|done]. fold r in Hr, Hopen.
  simpl in Hopen.
  assert (∀ q c, nodes1 !! q = Some (File c) ↔ w_nodes w !! q = Some (File c)) as Hkeep.
  { intros q c. destruct (mkdirs_lookup _ _ _ q Hmk) as [E|(E1&E2&_)].
    - by rewrite E.
    - rewrite E1, E2. split; discriminate. }
  pose proof (node_exists_lookup nodes1 r Hr) as Hex.
  fold r in H. simpl in H. rewrite Hex in H.
  destruct Hopen as [(c & Hc & ->)|(Hnone & ->)].
  - rewrite Hc in H. rewrite bool_decide_eq_true_2 in H by eauto. simpl in H.
    apply bind_ok_inv in H as ([] & w3 & [= <-] & H).
    pose proof (write_rows_silent _ _ _ _ _ _ H) as Ht.
    apply write_rows_inv in H as (c' & Hc' & ->); [|done]. fold r in Hc'.
    simpl in Hc'. rewrite Hc in Hc'. injection Hc' as <-.
    split; [done|]. split.
    + left. exists c. split; [|by simpl; fold r; rewrite lookup_insert_eq].
      destruct (mkdirs_lookup _ _ _ r Hmk) as [E|(_&E&_)]; congruence.
    + intros q c' Hq. simpl. fold r. rewrite lookup_insert_ne by done. apply Hkeep.
  - rewrite Hnone in H. rewrite bool_decide_eq_false_2 in H by (by intros [? ?]).
    simpl in H.
    apply bind_ok_inv in H as ([] & w3 & Hhdr & H).
    pose proof (write_rows_silent _ _ _ _ _ _ Hhdr) as Ht3.
    apply write_rows_inv in Hhdr as (c1 & Hc1 & ->); [|done]. fold r in Hc1.
    simpl in Hc1. rewrite lookup_insert_eq in Hc1. injection Hc1 as <-.
    pose proof (write_rows_silent _ _ _ _ _ _ H) as Ht.
    apply write_rows_inv in H as (c2 & Hc2 & ->); [|done]. fold r in Hc2.
    simpl in Hc2. rewrite lookup_insert_eq in Hc2. injection Hc2 as <-.
    split; [done|]. split.
    + right. split; [|by simpl; fold r; rewrite lookup_insert_eq].
      destruct (mkdirs_lookup _ _ _ r Hmk) as [E|(E&_)]; congruence.
    + intros q c' Hq. simpl. fold r.
      rewrite !lookup_insert_ne by done. apply Hkeep.
Qed.

Lemma open_append_file p w c :
  w_nodes w !! FS.resolve env p = Some (File c) → FS.resolve env p ≠ [] →
  FS.open_append env p w = (Ok tt, w).
Proof.
  intros Hn Hr. unfold FS.open_append. cbv zeta.
  destruct (FS.resolve env p) as [|x rp]; [done|]. by rewrite Hn.
Qed.

Lemma open_append_new p w :
  w_nodes w !! FS.resolve env p = None → FS.resolve env p ≠ [] →
  FS.is_dir (w_nodes w) (removelast (FS.resolve env p)) = true →
  FS.open_append env p w = (Ok tt, set_nodes (insert (FS.resolve env p) (File [])) w).
Proof.
  intros Hn Hr Hd. unfold FS.open_append. cbv zeta.
  destruct (FS.resolve env p) as [|x rp]; [done|]. by rewrite Hn, Hd.
Qed.

Lemma write_rows_file p rows w c :
  w_nodes w !! FS.resolve env p = Some (File c) →
  FS.write_rows env p rows w
  = (Ok tt, set_nodes (insert (FS.resolve env p) (File (c ++ rows))) w).
Proof. intros Hn. unfold FS.write_rows. cbv zeta. by rewrite Hn. Qed.

Lemma append_log_entry_total log_path entry w :
  log_ready env log_path w →
  ∃ w', Log.append_log_entry env log_path entry w = (Ok tt, w').
Proof.
  intros (Hanc & (x & Hr) & Hnd).
  set (rp := FS.resolve env (PathLib.parent log_path)) in *.
  set (r := FS.resolve env log_path) in *.
  destruct (mkdirs_total _ _ Hanc) as (nodes1 & Hmk).
  assert (r ≠ []) as Hne by (rewrite Hr; by destruct rp).
  assert (nodes1 !! r = w_nodes w !! r) as Hsame.
  { destruct (mkdirs_lookup _ _ _ r Hmk) as [E|(_&_&Hin)]; [done|].
    apply chain_length in Hin. rewrite Hr, length_app in Hin. simpl in Hin. lia. }
  assert (FS.is_dir nodes1 (removelast r) = true) as Hdir.
  { rewrite Hr, removelast_last. unfold FS.is_dir.
    destruct rp as [|y rp'] eqn:Erp; [done|].
    by rewrite (mkdirs_made _ _ _ (y :: rp') Hmk) by (apply (chain_last []); done). }
  unfold Log.append_log_entry.
  rewrite (bind_ok _ _ w tt (set_nodes (λ _, nodes1) w))
    by (unfold FS.mkdir_p; fold rp; by rewrite Hmk).
  rewrite (bind_ok _ _ _ _ _ (exists_run _ _ _)). fold r. simpl.
  destruct (w_nodes w !! r) as [[|c]|] eqn:Hn; [done| |].
  - erewrite (bind_ok _ _ _ tt); [|by eapply open_append_file; [simpl; fold r; rewrite Hsame|] ].
    rewrite node_exists_lookup, Hsame by done.
    rewrite bool_decide_eq_true_2 by eauto. simpl.
    erewrite (bind_ok _ _ _ tt); [|done].
    erewrite write_rows_file; [eauto|]. simpl. by fold r; rewrite Hsame.
  - erewrite (bind_ok _ _ _ tt); [|by eapply open_append_new; simpl; fold r; rewrite ?Hsame].
    rewrite node_exists_lookup, Hsame by done.
    rewrite bool_decide_eq_false_2 by (by intros [? ?]). simpl.
    erewrite (bind_ok _ _ _ tt);
      [|by eapply write_rows_file; simpl; fold r; rewrite lookup_insert_eq].
    erewrite write_rows_file; [eauto|]. simpl. fold r.
    by rewrite lookup_insert_eq.
Qed.

End LogFacts.

Section LogSequences.
Variable env : Env.

Lemma append_all_inv log_path entries w w' :
  for_each entries (Log.append_log_entry env log_path) w = (Ok tt, w') →
  let r := FS.resolve env log_path in
  (∀ c, w_nodes w !! r = Some (File c) →
        w_nodes w' !! r = Some (File (c ++ (Log.row_of <$> entries))))
  ∧ (w_nodes w !! r = None → entries ≠ [] →
     w_nodes w' !! r = Some (File (Log.LOG_FIELDS :: (Log.row_of <$> entries)))).
Proof.
  intros H r. revert w H. induction entries as [|e entries IH]; intros w H.
  - injection H as <-. split; [|done]. intros c Hc. by rewrite app_nil_r.
  - simpl in H. apply bind_ok_inv in H as ([] & w1 & H1 & H).
    apply append_log_entry_inv in H1 as (_ & Hfile & _). fold r in Hfile.
    destruct (IH _ H) as [IHfile _]. split.
    + intros c Hc. destruct Hfile as [(c' & Hc' & Hw1)|(Hn & _)]; [|congruence].
      rewrite Hc in Hc'. injection Hc' as <-.
      rewrite (IHfile _ Hw1). by rewrite <-app_assoc.
    + intros Hnone _. destruct Hfile as [(c' & Hc' & _)|(_ & Hw1)]; [congruence|].
      by rewrite (IHfile _ Hw1).
Qed.

Lemma log_ready_after log_path entry w w' :
  log_ready env log_path w →
  Log.append_log_entry env log_path entry w = (Ok tt, w') →
  log_ready env log_path w'.
Proof.
  intros (Hanc & (x & Hr) & Hnd) H.
  apply append_log_entry_inv in H as (_ & Hfile & Hothers).
  split; [|split; [eauto|]].
  - intros d c Hin Hd. apply (Hanc d c Hin). apply Hothers; [|done].
    intros ->. apply chain_length in Hin. rewrite Hr, length_app in Hin.
    simpl in Hin. lia.
  - destruct Hfile as [(c & _ & ->)|(_ & ->)]; done.
Qed.

Lemma append_all_total log_path entries w :
  log_ready env log_path w →
  ∃ w', for_each entries (Log.append_log_entry env log_path) w = (Ok tt, w').
Proof.
  revert w. induction entries as [|e entries IH]; intros w Hready; simpl; [by eexists|].
  destruct (append_log_entry_total env log_path e w Hready) as (w1 & H1).
  rewrite (bind_ok _ _ _ _ _ H1). apply IH. by eapply log_ready_after.
Qed.

End LogSequences.

(** C8.  [append_log_entry] writes the six-column header exactly when the
    log file does not exist yet, and every call appends exactly one row
    after the rows already there.  Hence a sequence of appends that
    starts without the file leaves the header followed by one row per
    entry, in order, and a sequence onto an existing log leaves its rows
    as they were and adds one row per entry.  The calls return whenever
    the log can be written at all. *)
Theorem log_has_one_header_then_one_row_per_entry env log_path :
  let r := FS.resolve env log_path in
  Log.LOG_FIELDS = ["timestamp"; "title"; "path"; "summary"; "decision"; "dry_run"]
  ∧ (∀ entry w w',
       Log.append_log_entry env log_path entry w = (Ok tt, w') →
       (w_nodes w !! r = None
        ∧ w_nodes w' !! r = Some (File [Log.LOG_FIELDS; Log.row_of entry]))
       ∨ (∃ rows, w_nodes w !! r = Some (File rows)
                  ∧ w_nodes w' !! r = Some (File (rows ++ [Log.row_of entry]))))
  ∧ (∀ entries w w',
       w_nodes w !! r = None → entries ≠ [] →
       for_each entries (Log.append_log_entry env log_path) w = (Ok tt, w') →
       w_nodes w' !! r = Some (File (Log.LOG_FIELDS :: (Log.row_of <$> entries))))
  ∧ (∀ entries rows w w',
       w_nodes w !! r = Some (File rows) →
       for_each entries (Log.append_log_entry env log_path) w = (Ok tt, w') →
       w_nodes w' !! r = Some (File (rows ++ (Log.row_of <$> entries))))
  ∧ (∀ entries w,
       log_ready env log_path w →
       ∃ w', for_each entries (Log.append_log_entry env log_path) w = (Ok tt, w')).
Proof.
  intros r. split; [reflexivity|]. split; [|split; [|split]].
  - intros entry w w' H. apply append_log_entry_inv in H as (_ & [H|H] & _); eauto.
  - intros entries w w' Hnone Hne H. by apply (append_all_inv _ _ _ _ _ H).
  - intros entries rows w w' Hrows H. by apply (append_all_inv _ _ _ _ _ H).
  - intros entries w. apply append_all_total.
Qed.

Lemma log_has_one_header_then_one_row_per_entry_witness :
  w_nodes Example.world !! ["home"; "u"; "triage_log.csv"] = None
  ∧ w_nodes
      (for_each [Example.entry 0; Example.entry 1]
         (Log.append_log_entry Example.env Example.log_path) Example.world).2
    !! ["home"; "u"; "triage_log.csv"]
    = Some (File [Log.LOG_FIELDS;
                  Log.row_of (Example.entry 0); Log.row_of (Example.entry 1)]).
Proof.
  split; [reflexivity|].
  apply (proj1 (proj2 (proj2
           (log_has_one_header_then_one_row_per_entry Example.env Example.log_path)))
           [Example.entry 0; Example.entry 1] Example.world).
  - reflexivity.
  - discriminate.
  - vm_compute. reflexivity.
Defined.

(** C7.  The decision stored in every produced action is one of the three
    decisions keep, remove and skip, which the program stores as "k", "r"
    and "s": that holds for the automatic decision, for the interactive
    one, and so for every action of [triage_papers].  The interactive
    decision is produced as soon as the operator types a line that
    normalises to one of the three letters. *)
Theorem decision_is_keep_remove_or_skip :
  (∀ mode d, UI._auto_decide mode = Ok d → d ∈ ["k"; "r"; "s"])
  ∧ (∀ paper summary dry_run w d w',
       UI._prompt_for_decision paper summary dry_run w = (Ok d, w') →
       d ∈ ["k"; "r"; "s"])
  ∧ (∀ papers summary_fn dry_run auto_decision w actions w',
       UI.triage_papers papers summary_fn dry_run auto_decision w = (Ok actions, w') →
       Forall (λ a : Action, a.2 ∈ ["k"; "r"; "s"]) actions)
  ∧ (∀ paper summary dry_run w,
       (∃ line, line ∈ w_stdin w
          ∧ Str.lower (Str.strip (UI.prompt_response "k" line)) ∈ ["k"; "r"; "s"]) →
       ∃ d w', UI._prompt_for_decision paper summary dry_run w = (Ok d, w')).
Proof.
  split; [apply auto_decide_allowed|]. split; [|split].
  - intros paper summary dry_run w d w'. apply prompt_loop_allowed.
  - intros papers sf dry auto w actions w' H.
    by apply triage_from_shape in H as (new & -> & _ & Hall & _).
  - intros paper summary dry_run w. apply prompt_loop_returns.
Qed.

Lemma decision_is_keep_remove_or_skip_witness :
  Forall (λ a : Action, a.2 ∈ ["k"; "r"; "s"])
    [({| pc_path := ["a"; "x.pdf"]; pc_title := "x"; pc_metadata := ∅ |},
      "A summary.", "r")].
Proof.
  apply (proj1 (proj2 (proj2 decision_is_keep_remove_or_skip))
           [{| pc_path := ["a"; "x.pdf"]; pc_title := "x"; pc_metadata := ∅ |}]
           (λ _, mret "A summary.") false None
           (set_stdin ["o"; "what"; " R "] Example.world) _
           (add_event (EvOpenFile ["a"; "x.pdf"]) Example.world)).
  reflexivity.
Defined.

Lemma triage_from_keep papers (summary : PaperCandidate → string) dry acc w :
  UI.triage_from papers (λ paper, mret (summary paper)) dry (Some "keep") acc w
  = (Ok (acc ++ ((λ paper, (paper, summary paper, "k")) <$> papers)), w).
Proof.
  revert acc. induction papers as [|paper rest IH]; intros acc.
  - simpl. by rewrite app_nil_r.
  - rewrite fmap_cons, (cons_middle _ acc), app_assoc, <-IH. reflexivity.
Qed.

(** ** discover.py: the metadata lookup *)

Section LookupFacts.
Variable env : Env.

Ltac run_load_source :=
  unfold Discover.load_source; cbv zeta;
  rewrite ?(bind_ok _ _ _ _ _ (exists_run _ _ _));
  unfold try_except, Discover._parse_bookmarks_json,
    Discover._parse_reference_export, mbind, M_bind, mret, M_ret, raise,
    log_msg, emit.

(** What a source yields depends on the file system only. *)
Lemma load_source_nodes_only source w v :
  w_nodes v = w_nodes w →
  (Discover.load_source env source v).1 = (Discover.load_source env source w).1.
Proof.
  intros E. run_load_source. rewrite E.
  destruct (FS.node_exists _ _); [|done]. simpl.
  repeat destruct (decide _); try done.
  - by destruct (e_json env _).
  - by destruct (e_csv env _).
Qed.

(** Loading a source never raises, leaves the file system as it is and
    adds nothing but log messages. *)
Lemma load_source_inv source w :
  ∃ loaded w', Discover.load_source env source w = (Ok loaded, w')
    ∧ w_nodes w' = w_nodes w
    ∧ (∀ P, (∀ lvl msg, P (EvLog lvl msg) = false) → quiet P w w').
Proof.
  assert (∀ v msg lvl P, (∀ lvl msg, P (EvLog lvl msg) = false) →
            quiet P v (add_event (EvLog lvl msg) v)) as Hq.
  { intros v msg lvl P HP. exists [EvLog lvl msg]. split; [done|]. by constructor. }
  run_load_source.
  destruct (FS.node_exists _ _); simpl.
  2:{ eexists _, _. split; [reflexivity|]. split; [done|]. by intros; apply Hq. }
  repeat destruct (decide _).
  - destruct (e_json env _); simpl; eexists _, _;
      (split; [reflexivity|]; split; [done|]); intros; [reflexivity|by apply Hq].
  - destruct (e_csv env _); simpl; eexists _, _;
      (split; [reflexivity|]; split; [done|]); intros; [reflexivity|by apply Hq].
  - simpl. eexists _, _. split; [reflexivity|]. split; [done|]. by intros; apply Hq.
Qed.

Lemma store_record_lookup lookup record k :
  Discover.store_record lookup record !! k
  = if decide (rec_get record "file_key" = Some k ∧ k ≠ "") then Some record
    else lookup !! k.
Proof.
  unfold Discover.store_record.
  destruct (rec_get record "file_key") as [fk|] eqn:Hfk.
  - unfold Str.truthy. case_bool_decide as Hempty; simpl.
    + subst fk. destruct (decide _) as [[[= <-] ?]|]; done.
    + destruct (decide (fk = k)) as [->|Hne].
      * rewrite lookup_insert_eq. by destruct (decide _) as [|[]].
      * rewrite lookup_insert_ne by done. destruct (decide _) as [[[= ?] ?]|]; done.
  - by destruct (decide _) as [[? ?]|].
Qed.

Lemma store_records_other records lookup k :
  (∀ r, r ∈ records → rec_get r "file_key" ≠ Some k) →
  Discover.store_records records lookup !! k = lookup !! k.
Proof.
  unfold Discover.store_records. revert lookup.
  induction records as [|r records IH]; intros lookup Hno; simpl; [done|].
  rewrite IH by (intros; apply Hno; set_solver).
  rewrite store_record_lookup. destruct (decide _) as [[Hk _]|]; [|done].
  exfalso. eapply Hno; [|done]. set_solver.
Qed.

Lemma store_records_last before record after lookup k :
  rec_get record "file_key" = Some k → k ≠ "" →
  (∀ r, r ∈ after → rec_get r "file_key" ≠ Some k) →
  Discover.store_records (before ++ record :: after) lookup !! k = Some record.
Proof.
  intros Hk Hne Hafter. unfold Discover.store_records.
  rewrite fold_left_app. simpl.
  fold (Discover.store_records after
          (Discover.store_record (fold_left Discover.store_record before lookup) record)).
  rewrite store_records_other by done.
  rewrite store_record_lookup. by destruct (decide _) as [|[]].
Qed.

(** Every record of the lookup was stored under its own file key by one
    of the records given. *)
Lemma store_records_origin records lookup k record :
  Discover.store_records records lookup !! k = Some record →
  lookup !! k = Some record
  ∨ (record ∈ records ∧ rec_get record "file_key" = Some k).
Proof.
  unfold Discover.store_records. revert lookup.
  induction records as [|r records IH]; intros lookup; simpl; [by left|].
  intros [H|[? ?]]%IH; [|right; set_solver].
  rewrite store_record_lookup in H. destruct (decide _) as [[Hk _]|]; [|by left].
  injection H as <-. right. set_solver.
Qed.

(** The lookup a list of sources builds, source after source. *)
Lemma build_from_run sources lookup w :
  ∃ w', Discover.build_from env sources lookup w
        = (Ok (fold_left
                 (λ lk source,
                    match (Discover.load_source env source w).1 with
                    | Ok (Some records) => Discover.store_records records lk
                    | _ => lk
                    end) sources lookup), w')
    ∧ w_nodes w' = w_nodes w
    ∧ (∀ P, (∀ lvl msg, P (EvLog lvl msg) = false) → quiet P w w').
Proof.
  assert (∀ v, w_nodes v = w_nodes w →
    ∃ w', Discover.build_from env sources lookup v
        = (Ok (fold_left
                 (λ lk source,
                    match (Discover.load_source env source w).1 with
                    | Ok (Some records) => Discover.store_records records lk
                    | _ => lk
                    end) sources lookup), w')
    ∧ w_nodes w' = w_nodes w
    ∧ (∀ P, (∀ lvl msg, P (EvLog lvl msg) = false) → quiet P v w')) as H; [|by apply H].
  revert lookup. induction sources as [|source rest IH]; intros lookup v Hv; simpl.
  - exists v. split; [done|]. split; [done|]. intros. reflexivity.
  - destruct (load_source_inv source v) as (loaded & v1 & Hrun & Hn1 & Hq1).
    rewrite (bind_ok _ _ _ _ _ Hrun).
    rewrite <-(load_source_nodes_only source w v Hv), Hrun. simpl.
    destruct loaded as [records|].
    + destruct (IH (Discover.store_records records lookup) v1) as (w' & -> & Hn & Hq);
        [congruence|].
      exists w'. split; [done|]. split; [done|]. intros P HP. etrans; eauto.
    + destruct (IH lookup v1) as (w' & -> & Hn & Hq); [congruence|].
      exists w'. split; [done|]. split; [done|]. intros P HP. etrans; eauto.
Qed.

Lemma stored_other w sources lookup k :
  (∀ s rs r, s ∈ sources → yields env w s rs → r ∈ rs → rec_get r "file_key" ≠ Some k) →
  stored env w sources lookup !! k = lookup !! k.
Proof.
  unfold stored. revert lookup.
  induction sources as [|s sources IH]; intros lookup Hno; simpl; [done|].
  rewrite IH by (intros; eapply Hno; [by apply elem_of_cons; right|done..]).
  destruct (Discover.load_source env s w).1 as [[rs|]|] eqn:Hs; [|done..].
  apply store_records_other. intros r Hr. eapply Hno; [|done..]. by apply elem_of_cons; left.
Qed.

Lemma stored_origin w sources lookup k record :
  stored env w sources lookup !! k = Some record →
  lookup !! k = Some record
  ∨ ∃ s rs, s ∈ sources ∧ yields env w s rs ∧ record ∈ rs
            ∧ rec_get record "file_key" = Some k.
Proof.
  unfold stored. revert lookup.
  induction sources as [|s sources IH]; intros lookup; simpl; [by left|].
  intros [H|(s' & rs & ? & ? & ? & ?)]%IH.
  - destruct (Discover.load_source env s w).1 as [[rs|]|] eqn:Hs; [|by left..].
    apply store_records_origin in H as [H|[? ?]]; [by left|].
    right. exists s, rs. split; [by apply elem_of_cons; left|done].
  - right. exists s', rs. split; [by apply elem_of_cons; right|done].
Qed.

(** A key that is defined stays defined, and a record with a key
    defines it. *)
Lemma store_records_defined records lookup k :
  is_Some (lookup !! k)
  ∨ (∃ r, r ∈ records ∧ rec_get r "file_key" = Some k ∧ k ≠ "") →
  is_Some (Discover.store_records records lookup !! k).
Proof.
  unfold Discover.store_records. revert lookup.
  induction records as [|r records IH]; intros lookup; simpl.
  - intros [?|(r & []%elem_of_nil & _)]. done.
  - intros H. apply IH. rewrite store_record_lookup.
    destruct (decide _) as [|Hno]; [by left; eauto|].
    destruct H as [?|(r' & [->|Hin]%elem_of_cons & Hk & Hne)]; [by left| |by right; eauto].
    by destruct Hno.
Qed.

Lemma stored_defined w sources lookup k :
  is_Some (lookup !! k)
  ∨ (∃ s rs r, s ∈ sources ∧ yields env w s rs ∧ r ∈ rs
               ∧ rec_get r "file_key" = Some k ∧ k ≠ "") →
  is_Some (stored env w sources lookup !! k).
Proof.
  unfold stored. revert lookup.
  induction sources as [|s sources IH]; intros lookup; simpl.
  - intros [?|(s & rs & r & []%elem_of_nil & _)]. done.
  - intros H. apply IH.
    destruct H as [H|(s' & rs & r & [->|Hin]%elem_of_cons & Hy & Hr & Hk & Hne)].
    + left. destruct (Discover.load_source env s w).1 as [[rs|]|]; [|done..].
      apply store_records_defined. by left.
    + left. unfold yields in Hy. rewrite Hy. apply store_records_defined.
      right. by exists r.
    + right. by exists s', rs, r.
Qed.

End LookupFacts.

(** C3.  [_build_metadata_lookup] returns for every sequence of sources,
    and in its result every file key that some source defines maps to
    exactly the record of the last-processed source defining it (the
    last such record of that source): the whole record, nothing merged
    from earlier ones.  Nothing else is in the lookup: each of its
    records was yielded by a source under that file key; and every
    non-empty file key of a record that a source yields is in it. *)
Theorem lookup_holds_the_last_source_record env sources w :
  ∃ lookup w',
    Discover._build_metadata_lookup env sources w = (Ok lookup, w')
    ∧ (∀ before source after records rbefore record rafter k,
         sources = before ++ source :: after →
         (Discover.load_source env source w).1 = Ok (Some records) →
         records = rbefore ++ record :: rafter →
         rec_get record "file_key" = Some k → k ≠ "" →
         (∀ r, r ∈ rafter → rec_get r "file_key" ≠ Some k) →
         (∀ s rs r, s ∈ after →
            (Discover.load_source env s w).1 = Ok (Some rs) → r ∈ rs →
            rec_get r "file_key" ≠ Some k) →
         lookup !! k = Some record)
    ∧ (∀ k record,
         lookup !! k = Some record →
         ∃ source records,
           source ∈ sources
           ∧ (Discover.load_source env source w).1 = Ok (Some records)
           ∧ record ∈ records ∧ rec_get record "file_key" = Some k)
    ∧ (∀ k source records record,
         source ∈ sources →
         (Discover.load_source env source w).1 = Ok (Some records) →
         record ∈ records → rec_get record "file_key" = Some k → k ≠ "" →
         is_Some (lookup !! k)).
Proof.
  destruct (build_from_run env sources ∅ w) as (w' & Hrun & _ & _).
  eexists _, w'. split; [exact Hrun|]. fold (stored env w sources ∅).
  split; [|split].
  3:{ intros k source records record Hs Hy Hr Hk Hne. apply stored_defined.
      right. by exists source, records, record. }
  - intros before source after records rbefore record rafter k
      -> Hyield -> Hk Hne Hafter Hlater.
    unfold stored. rewrite fold_left_app. simpl. rewrite Hyield.
    fold (stored env w before ∅).
    fold (stored env w after
            (Discover.store_records (rbefore ++ record :: rafter) (stored env w before ∅))).
    rewrite stored_other by done. by apply store_records_last.
  - intros k record [H|H]%stored_origin; [|done].
    by rewrite lookup_empty in H.
Qed.

(** ** discover.py: the candidates *)

Lemma insert_sorted_elem q x l : q ∈ PathLib.insert_sorted x l ↔ q = x ∨ q ∈ l.
Proof.
  induction l as [|y l IH]; simpl.
  - rewrite list_elem_of_singleton, elem_of_nil. tauto.
  - destruct (PathLib.leb x y).
    + by rewrite elem_of_cons.
    + rewrite !elem_of_cons, IH. tauto.
Qed.

Lemma sorted_elem q l : q ∈ PathLib.sorted l ↔ q ∈ l.
Proof.
  unfold PathLib.sorted. induction l as [|x l IH]; simpl; [done|].
  by rewrite insert_sorted_elem, IH, elem_of_cons.
Qed.

Section DiscoverFacts.
Variable env : Env.
Variable metadata_lookup : gmap string MetaRecord.

(** The invariant of the discovery loops: the paths of the candidates are
    pairwise distinct, and [seen_paths] holds exactly those paths. *)
Lemma visit_pdf_inv st pdf_path :
  discovery_inv st →
  discovery_inv (Discover.visit_pdf metadata_lookup st pdf_path)
  ∧ (∃ new, (Discover.visit_pdf metadata_lookup st pdf_path).1 = st.1 ++ new)
  ∧ (∀ q, q ∈ pc_path <$> (Discover.visit_pdf metadata_lookup st pdf_path).1
          ↔ q ∈ pc_path <$> st.1 ∨ q = pdf_path).
Proof.
  intros [Hnd Hseen]. unfold Discover.visit_pdf. cbv zeta.
  destruct (decide (pdf_path ∈ st.2)) as [Hin|Hnew].
  - split; [done|]. split; [exists []; by rewrite app_nil_r|].
    intros q. split; [by left|]. intros [?| ->]; [done|]. by apply Hseen.
  - unfold discovery_inv. cbn [fst snd]. split; [split|split; [by eexists|]].
    + rewrite fmap_app. apply NoDup_app. split; [done|]. split; [|apply NoDup_singleton].
      intros q Hq [->|[]%elem_of_nil]%elem_of_cons. by apply Hnew, Hseen.
    + intros q. rewrite fmap_app, elem_of_app, elem_of_union, elem_of_singleton.
      rewrite list_fmap_singleton, list_elem_of_singleton, Hseen. simpl. tauto.
    + intros q. rewrite fmap_app, elem_of_app.
      by rewrite list_fmap_singleton, list_elem_of_singleton.
Qed.

Lemma visit_all_inv st pdfs :
  discovery_inv st →
  discovery_inv (fold_left (Discover.visit_pdf metadata_lookup) pdfs st)
  ∧ (∃ new, (fold_left (Discover.visit_pdf metadata_lookup) pdfs st).1 = st.1 ++ new)
  ∧ (∀ q, q ∈ pc_path <$> (fold_left (Discover.visit_pdf metadata_lookup) pdfs st).1
          ↔ q ∈ pc_path <$> st.1 ∨ q ∈ pdfs).
Proof.
  revert st. induction pdfs as [|p pdfs IH]; intros st Hinv; simpl.
  - split; [done|]. split; [exists []; by rewrite app_nil_r|].
    intros q. rewrite elem_of_nil. tauto.
  - destruct (visit_pdf_inv st p Hinv) as (Hinv1 & (new1 & Hnew1) & Hin1).
    destruct (IH _ Hinv1) as (Hinv2 & (new2 & Hnew2) & Hin2).
    split; [done|]. split.
    + exists (new1 ++ new2). by rewrite Hnew2, Hnew1, app_assoc.
    + intros q. rewrite Hin2, Hin1, elem_of_cons. tauto.
Qed.

Lemma discover_in_run folders st w :
  ∃ st' w',
    Discover.discover_in env folders metadata_lookup st w = (Ok st', w')
    ∧ w_nodes w' = w_nodes w
    ∧ (∀ P, (∀ lvl msg, P (EvLog lvl msg) = false) → quiet P w w')
    ∧ (discovery_inv st →
       discovery_inv st'
       ∧ (∃ new, st'.1 = st.1 ++ new)
       ∧ (∀ q, q ∈ pc_path <$> st'.1
               ↔ q ∈ pc_path <$> st.1 ∨ enumerated env (w_nodes w) folders q)).
Proof.
  revert st w. induction folders as [|folder rest IH]; intros st w; simpl.
  - exists st, w. split; [done|]. split; [done|]. split; [by intros; reflexivity|].
    intros Hinv. split; [done|]. split; [exists []; by rewrite app_nil_r|].
    intros q. split; [by left|]. intros [?|(f & []%elem_of_nil & _)]. done.
  - rewrite (bind_ok _ _ _ _ _ (exists_run _ _ _)).
    set (fp := PathLib.expanduser _ _).
    destruct (FS.node_exists (w_nodes w) (FS.resolve env fp)) eqn:Hex; simpl.
    + destruct (IH (fold_left (Discover.visit_pdf metadata_lookup)
                      (PathLib.sorted (FS.rglob_pdf env (w_nodes w) fp)) st) w)
        as (st' & w' & Hrun & Hn & Hq & Hinv').
      exists st', w'. split; [exact Hrun|]. split; [done|]. split; [done|].
      intros Hinv.
      destruct (visit_all_inv st (PathLib.sorted (FS.rglob_pdf env (w_nodes w) fp)) Hinv)
        as (Hinv1 & (new1 & Hnew1) & Hin1).
      destruct (Hinv' Hinv1) as (Hinv2 & (new2 & Hnew2) & Hin2).
      split; [done|]. split; [exists (new1 ++ new2); by rewrite Hnew2, Hnew1, app_assoc|].
      intros q. rewrite Hin2, Hin1, sorted_elem. unfold enumerated. split.
      * intros [[?|Hq']|(f & Hf & Hrest)]; [by left| |].
        -- right. exists folder. split; [by apply elem_of_cons; left|]. by split.
        -- right. exists f. split; [by apply elem_of_cons; right|done].
      * intros [?|(f & [->|Hf]%elem_of_cons & Hfex & Hfq)]; [by left; left|..].
        -- left; right. done.
        -- right. by exists f.
    + rewrite (bind_ok _ _ _ _ _ (log_msg_run _ _ _)).
      set (w1 := add_event _ w).
      destruct (IH st w1) as (st' & w' & Hrun & Hn & Hq & Hinv').
      exists st', w'. split; [exact Hrun|]. split; [done|]. split.
      * intros P HP. etrans; [|by apply Hq].
        eexists [_]. split; [done|]. constructor; [apply HP|done].
      * intros Hinv. destruct (Hinv' Hinv) as (Hinv2 & Hnew2 & Hin2).
        split; [done|]. split; [done|].
        intros q. rewrite Hin2. unfold enumerated.
        change (w_nodes w1) with (w_nodes w). split.
        -- intros [?|(f & Hf & Hrest)]; [by left|].
           right. exists f. split; [by apply elem_of_cons; right|done].
        -- intros [?|(f & [->|Hf]%elem_of_cons & Hfex & Hfq)]; [by left|..].
           ++ fold fp in Hfex. congruence.
           ++ right. by exists f.
Qed.

End DiscoverFacts.

Lemma discover_papers_run env folders metadata_sources w :
  ∃ papers w',
    Discover.discover_papers env folders metadata_sources w = (Ok papers, w')
    ∧ w_nodes w' = w_nodes w
    ∧ (∀ P, (∀ lvl msg, P (EvLog lvl msg) = false) → quiet P w w')
    ∧ NoDup (pc_path <$> papers)
    ∧ (∀ q, q ∈ pc_path <$> papers ↔ enumerated env (w_nodes w) folders q).
Proof.
  unfold Discover.discover_papers, Discover._build_metadata_lookup.
  destruct (build_from_run env (default [] metadata_sources) ∅ w)
    as (w1 & Hbuild & Hn1 & Hq1).
  rewrite (bind_ok _ _ _ _ _ Hbuild).
  match type of Hbuild with _ = (Ok ?l, _) => set (lookup := l) in * end.
  destruct (discover_in_run env lookup folders ([], ∅) w1)
    as (st' & w' & Hrun & Hn & Hq & Hinv).
  rewrite (bind_ok _ _ _ _ _ Hrun).
  exists st'.1, w'. split; [done|]. split; [congruence|].
  split; [intros P HP; etrans; eauto|].
  destruct Hinv as (Hinv & _ & Hin).
  { split; [apply NoDup_nil_2|]. intros p. simpl. by rewrite elem_of_empty, elem_of_nil. }
  split; [apply Hinv|].
  intros q. rewrite Hin, Hn1. simpl. rewrite elem_of_nil. tauto.
Qed.

(** C1, as amended.  [discover_papers] returns for every list of folders
    and metadata sources, and its result has no two candidates with the
    same path, where a path is the folder as configured (after "~" is
    expanded) joined with the path below it, not a resolved path.  A path
    is in the result exactly when an existing folder enumerates it: a
    path already emitted is skipped, and files of the same name in
    different folders are all kept. *)
Theorem discovered_paths_are_pairwise_distinct env folders metadata_sources w :
  ∃ papers w',
    Discover.discover_papers env folders metadata_sources w = (Ok papers, w')
    ∧ NoDup (pc_path <$> papers)
    ∧ (∀ q, q ∈ pc_path <$> papers ↔ enumerated env (w_nodes w) folders q).
Proof.
  destruct (discover_papers_run env folders metadata_sources w)
    as (papers & w' & Hrun & _ & _ & Hnd & Hin).
  by exists papers, w'.
Qed.

(** C1, as stated, fails: a folder configured under two spellings, "a"
    and "/home/u/a" for a process running in /home/u, yields the one file
    a/x.pdf twice, as two candidates with the same resolved path. *)
Lemma one_file_discovered_under_two_spellings :
  ∃ papers w',
    Discover.discover_papers Example.env ["a"; "/home/u/a"] None Example.world
    = (Ok papers, w')
    ∧ ¬ NoDup ((λ c, FS.resolve Example.env (pc_path c)) <$> papers).
Proof.
  eexists _, _. split; [vm_compute; reflexivity|].
  intros [Hnot _]%NoDup_cons. apply Hnot. vm_compute. apply list_elem_of_singleton.
  reflexivity.
Qed.

(** Two files of the same name in different folders are both kept. *)
Example same_name_in_two_folders :
  pc_path <$>
    match (Discover.discover_papers Example.env ["a"; "b"] None Example.world).1 with
    | Ok papers => papers
    | Raise _ => []
    end
  = [["a"; "x.pdf"]; ["b"; "Paper.pdf"]; ["b"; "x.pdf"]].
Proof. vm_compute. reflexivity. Qed.

(** ** main.py: the archive *)

Section ArchiveFacts.
Variable env : Env.

Lemma numbered_snoc target k :
  Main.numbered target k = PathLib.parent target ++ [Main.numbered_name target k].
Proof.
  pose proof (numbered_name_ordinary target k) as Hord.
  unfold Main.numbered. apply joinpath_ordinary; intros E; apply Hord; rewrite E; set_solver.
Qed.

Lemma resolve_numbered target k :
  FS.resolve env (Main.numbered target k)
  = FS.resolve env (PathLib.parent target) ++ [Main.numbered_name target k].
Proof.
  pose proof (numbered_name_ordinary target k) as Hord.
  rewrite numbered_snoc. unfold FS.resolve.
  apply resolve_snoc; intros E; apply Hord; rewrite E; set_solver.
Qed.

Lemma numbered_exists nodes target k :
  FS.node_exists nodes (FS.resolve env (Main.numbered target k)) = true
  ↔ FS.resolve env (Main.numbered target k) ∈ dom nodes.
Proof.
  rewrite node_exists_lookup by (rewrite resolve_numbered; by destruct (FS.resolve _ _)).
  by rewrite bool_decide_eq_true, elem_of_dom.
Qed.

Lemma unique_from_some fuel nodes target c p :
  Main.unique_from env fuel nodes target c = Some p →
  ∃ k, c ≤ k ∧ p = Main.numbered target k
    ∧ FS.node_exists nodes (FS.resolve env p) = false
    ∧ (∀ j, c ≤ j < k →
         FS.node_exists nodes (FS.resolve env (Main.numbered target j)) = true).
Proof.
  revert c. induction fuel as [|fuel IH]; intros c; simpl; [done|].
  destruct (FS.node_exists nodes (FS.resolve env (Main.numbered target c))) eqn:Hex; simpl.
  - intros (k & Hk & -> & Hfree & Hbelow)%IH. exists k.
    split; [lia|]. split; [done|]. split; [done|].
    intros j Hj. destruct (decide (j = c)) as [->|]; [done|]. apply Hbelow. lia.
  - intros [= <-]. exists c. split; [lia|]. split; [done|]. split; [done|]. lia.
Qed.

Lemma unique_from_none fuel nodes target c :
  Main.unique_from env fuel nodes target c = None →
  ∀ j, c ≤ j < c + fuel →
    FS.node_exists nodes (FS.resolve env (Main.numbered target j)) = true.
Proof.
  revert c. induction fuel as [|fuel IH]; intros c; simpl; [lia|].
  destruct (FS.node_exists nodes (FS.resolve env (Main.numbered target c))) eqn:Hex;
    simpl; [|done].
  intros H j Hj. destruct (decide (j = c)) as [->|]; [done|].
  apply (IH _ H). lia.
Qed.

(** The loop cannot try more names than the file system has nodes. *)
Lemma unique_from_total nodes target :
  Main.unique_from env (S (size nodes)) nodes target 1 ≠ None.
Proof.
  intros Hnone. pose proof (unique_from_none _ _ _ _ Hnone) as Hall.
  set (names := (λ j, FS.resolve env (Main.numbered target j)) <$> seq 1 (S (size nodes))).
  assert (NoDup names) as Hnd.
  { apply NoDup_fmap_2_strong; [|apply NoDup_seq].
    intros i j _ _ E. rewrite !resolve_numbered in E.
    apply app_inj_tail in E as [_ E]. by apply numbered_name_inj in E. }
  assert (list_to_set names ⊆ dom nodes) as Hsub.
  { intros r [j [-> Hj]]%elem_of_list_to_set%list_elem_of_fmap.
    apply numbered_exists, Hall. apply elem_of_seq in Hj. lia. }
  apply subseteq_size in Hsub.
  rewrite size_list_to_set, size_dom in Hsub by done.
  unfold names in Hsub. rewrite length_fmap, length_seq in Hsub. lia.
Qed.

Lemma unique_target_run target w :
  ∃ p, Main._unique_target env target w = (Ok p, w)
    ∧ Main.unique_target_in env (w_nodes w) target = Some p.
Proof.
  unfold Main._unique_target, get_nodes. unfold mbind, M_bind.
  destruct (Main.unique_target_in env (w_nodes w) target) as [p|] eqn:Hp; [by exists p|].
  unfold Main.unique_target_in in Hp.
  destruct (negb _); [done|]. by apply unique_from_total in Hp.
Qed.

Lemma archive_name_inj target i j :
  archive_name target i = archive_name target j → i = j.
Proof.
  destruct i as [|i], j as [|j]; simpl; [done| | |].
  - intros E. symmetry in E. by apply numbered_name_fresh in E.
  - intros E. by apply numbered_name_fresh in E.
  - apply numbered_name_inj.
Qed.

Lemma pdf_name_ordinary nm :
  Str.endswith nm ".pdf" = true → nm ∉ [""; "."; ".."; "/"].
Proof.
  intros Hpdf Hin. set_unfold in Hin.
  destruct Hin as [->|[->|[->|[->|[]]]]]; vm_compute in Hpdf; discriminate.
Qed.

Lemma move_onto_free src dst w n :
  w_nodes w !! FS.resolve env src = Some n →
  w_nodes w !! FS.resolve env dst = None →
  FS.resolve env dst ≠ [] →
  FS.is_dir (w_nodes w) (removelast (FS.resolve env dst)) = true →
  FS.move env src dst w
  = (Ok tt, set_nodes (λ m, <[FS.resolve env dst := n]> (delete (FS.resolve env src) m))
              (add_event (EvMove src dst) w)).
Proof.
  intros Hsrc Hdst Hne Hparent.
  unfold FS.move, get_nodes, emit, mbind, M_bind.
  assert (FS.is_dir (w_nodes w) (FS.resolve env dst) = false) as ->.
  { unfold FS.is_dir. destruct (FS.resolve env dst); [done|]. by rewrite Hdst. }
  unfold FS.rename. cbv zeta. simpl. rewrite Hsrc, Hparent.
  by rewrite bool_decide_eq_false_2.
Qed.

Lemma archived_as_resolve archive_dir nm j :
  Str.endswith nm ".pdf" = true →
  FS.resolve env (archived_as archive_dir nm j)
  = FS.resolve env archive_dir ++ [archive_name (PathLib.joinpath archive_dir nm) j].
Proof.
  intros Hord%pdf_name_ordinary.
  assert (PathLib.joinpath archive_dir nm = archive_dir ++ [nm]) as Htarget
    by (apply joinpath_ordinary; intros E; apply Hord; rewrite E; set_solver).
  assert (nm ≠ "/") as Hslash by (intros E; apply Hord; rewrite E; set_solver).
  destruct j as [|j]; simpl.
  - rewrite Htarget, name_snoc by done. unfold FS.resolve.
    apply resolve_snoc; [done|]. intros E; apply Hord; rewrite E; set_solver.
  - rewrite resolve_numbered. by rewrite Htarget at 1; rewrite parent_snoc.
Qed.

(** One more file of the same name moved into the archive. *)
Lemma archive_paper_next archive_dir nm i paper w :
  Str.endswith nm ".pdf" = true →
  PathLib.name (pc_path paper) = nm →
  archive_holds (FS.resolve env archive_dir) (PathLib.joinpath archive_dir nm) i (w_nodes w) →
  (∃ c, w_nodes w !! FS.resolve env (pc_path paper) = Some (File c)) →
  (∀ x, FS.resolve env (pc_path paper) ≠ FS.resolve env archive_dir ++ [x]) →
  ∃ c, w_nodes w !! FS.resolve env (pc_path paper) = Some (File c)
    ∧ Main.archive_paper env archive_dir paper w
      = (Ok (archived_as archive_dir nm i),
         set_nodes (λ m, <[FS.resolve env (archived_as archive_dir nm i) := File c]>
                           (delete (FS.resolve env (pc_path paper)) m))
           (add_event (EvMove (pc_path paper) (archived_as archive_dir nm i)) w)).
Proof.
  intros Hpdf Hname [Hdir Hkids] [c Hsrc] Hout.
  set (ra := FS.resolve env archive_dir) in *.
  set (target := PathLib.joinpath archive_dir nm) in *.
  exists c. split; [done|].
  assert (∀ j, FS.node_exists (w_nodes w) (FS.resolve env (archived_as archive_dir nm j)) = true
               ↔ j < i) as Hex.
  { intros j. rewrite archived_as_resolve by done. fold ra target.
    rewrite node_exists_lookup by (by destruct ra).
    rewrite bool_decide_eq_true, Hkids. split.
    - by intros (j' & Hj' & ->%archive_name_inj).
    - intros Hj. by exists j. }
  assert (Main.unique_target_in env (w_nodes w) target = Some (archived_as archive_dir nm i))
    as Htarget.
  { unfold Main.unique_target_in.
    pose proof (Hex 0) as H0. simpl in H0. fold target in H0.
    destruct (FS.node_exists (w_nodes w) (FS.resolve env target)) eqn:E0; cbn [negb].
    - destruct (Main.unique_from env (S (size (w_nodes w))) (w_nodes w) target 1)
        as [p|] eqn:Hp;
        [|by apply unique_from_total in Hp].
      apply unique_from_some in Hp as (k & Hk & -> & Hfree & Hbelow). f_equal.
      destruct k as [|k]; [lia|].
      assert (¬ S k < i) as Hge.
      { intros Hlt. apply (Hex (S k)) in Hlt. simpl in Hlt. fold target in Hlt. congruence. }
      destruct (decide (i < S k)) as [Hlt|Hnlt].
      + destruct i as [|i']; [apply proj1 in H0; specialize (H0 eq_refl); lia|].
        specialize (Hbelow (S i') ltac:(lia)).
        apply (Hex (S i')) in Hbelow. lia.
      + by replace i with (S k) by lia.
    - destruct i as [|i']; [done|]. apply proj2 in H0. specialize (H0 ltac:(lia)). done. }
  unfold Main.archive_paper. rewrite Hname. fold target.
  destruct (unique_target_run target w) as (p & Hrun & Hp).
  rewrite Htarget in Hp. injection Hp as <-.
  rewrite (bind_ok _ _ _ _ _ Hrun).
  assert (w_nodes w !! FS.resolve env (archived_as archive_dir nm i) = None) as Hfree.
  { apply eq_None_not_Some. rewrite archived_as_resolve by done. fold ra target.
    rewrite Hkids. intros (j & Hj & ->%archive_name_inj). lia. }
  erewrite (bind_ok _ _ _ tt); [done|].
  apply move_onto_free; [done|done|..].
  - rewrite archived_as_resolve by done. by destruct (FS.resolve env archive_dir).
  - rewrite archived_as_resolve by done. by rewrite removelast_last.
Qed.

Lemma archive_all_from archive_dir nm papers i w :
  Str.endswith nm ".pdf" = true →
  (∀ paper, paper ∈ papers → PathLib.name (pc_path paper) = nm) →
  archive_holds (FS.resolve env archive_dir) (PathLib.joinpath archive_dir nm) i (w_nodes w) →
  movable env (FS.resolve env archive_dir) papers (w_nodes w) →
  ∃ w', map_m (Main.archive_paper env archive_dir) papers w
        = (Ok (archived_as archive_dir nm <$> seq i (length papers)), w').
Proof.
  intros Hpdf. revert i w.
  induction papers as [|paper rest IH]; intros i w Hnames Hholds [Hfiles Hnd]; simpl.
  - by eexists.
  - set (ra := FS.resolve env archive_dir) in *.
    set (target := PathLib.joinpath archive_dir nm) in *.
    destruct (Hfiles paper ltac:(by apply elem_of_cons; left)) as [Hfile Hout].
    destruct (archive_paper_next archive_dir nm i paper w Hpdf
                (Hnames _ ltac:(by apply elem_of_cons; left)) Hholds Hfile Hout)
      as (c & Hc & Hrun).
    rewrite (bind_ok _ _ _ _ _ Hrun).
    match type of Hrun with _ = (_, ?v) => set (w1 := v) in * end.
    assert (w_nodes w1 = <[ra ++ [archive_name target i] := File c]>
                           (delete (FS.resolve env (pc_path paper)) (w_nodes w))) as Hw1.
    { unfold w1. simpl. by rewrite archived_as_resolve. }
    apply NoDup_cons in Hnd as [Hfresh Hnd].
    destruct (IH (S i) w1) as (w' & Hrest).
    + intros paper' Hin. apply Hnames. by apply elem_of_cons; right.
    + destruct Hholds as [Hdir Hkids]. split.
      * unfold FS.is_dir in *. destruct ra as [|y ra'] eqn:Era; [done|].
        rewrite Hw1. rewrite lookup_insert_ne, lookup_delete_ne; [done| |].
        -- intros E. rewrite <-E, Hc in Hdir. done.
        -- intros E. apply (f_equal length) in E. rewrite length_app in E. simpl in E. lia.
      * intros x. rewrite Hw1. destruct (decide (x = archive_name target i)) as [->|Hx].
        -- rewrite lookup_insert_eq. split; [|by eauto]. intros _. exists i. split; [lia|done].
        -- rewrite lookup_insert_ne by (by intros [_ ?]%app_inj_tail).
           rewrite lookup_delete_ne by (by intros E; apply (Hout x)).
           rewrite Hkids. split.
           ++ intros (j & Hj & ->). exists j. split; [lia|done].
           ++ intros (j & Hj & ->). exists j. split; [|done].
              destruct (decide (j = i)) as [->|]; [done|lia].
    + split; [|done]. intros paper' Hin.
      destruct (Hfiles paper' ltac:(by apply elem_of_cons; right)) as [[c' Hc'] Hout'].
      split; [|done]. exists c'. rewrite Hw1.
      rewrite lookup_insert_ne by (by intros E; apply (Hout' (archive_name target i))).
      rewrite lookup_delete_ne; [done|].
      intros E. apply Hfresh. rewrite E. apply list_elem_of_fmap. by exists paper'.
    + rewrite (bind_ok _ _ _ _ _ Hrest). by eexists.
Qed.

End ArchiveFacts.

(** C4.  For every state of the file system and every target,
    [_unique_target] returns, and what it returns does not exist: the
    target itself when that is free, otherwise the name with "-k" put
    between the stem and the extension for the first k = 1, 2, ... whose
    name is free.  Hence moving N PDF files of one name, one after the
    other, into an empty archive directory gives them the name itself
    and then the names numbered 1 to N-1, in this order, all distinct. *)
Theorem unique_target_picks_the_first_free_name env :
  (∀ target w,
     ∃ p, Main._unique_target env target w = (Ok p, w)
       ∧ FS.node_exists (w_nodes w) (FS.resolve env p) = false
       ∧ (FS.node_exists (w_nodes w) (FS.resolve env target) = false → p = target)
       ∧ (FS.node_exists (w_nodes w) (FS.resolve env target) = true →
          ∃ k, 1 ≤ k
            ∧ p = PathLib.joinpath (PathLib.parent target)
                    (PathLib.stem target +:+ "-" +:+ pretty k +:+ PathLib.suffix target)
            ∧ ∀ j, 1 ≤ j < k →
                FS.node_exists (w_nodes w) (FS.resolve env (Main.numbered target j)) = true))
  ∧ (∀ target, PathLib.stem target +:+ PathLib.suffix target = PathLib.name target)
  ∧ (∀ archive_dir nm papers w,
       Str.endswith nm ".pdf" = true →
       (∀ paper, paper ∈ papers →
          PathLib.name (pc_path paper) = nm
          ∧ ∃ c, w_nodes w !! FS.resolve env (pc_path paper) = Some (File c)) →
       NoDup ((λ paper, FS.resolve env (pc_path paper)) <$> papers) →
       FS.is_dir (w_nodes w) (FS.resolve env archive_dir) = true →
       (∀ x, w_nodes w !! (FS.resolve env archive_dir ++ [x]) = None) →
       ∃ w', map_m (Main.archive_paper env archive_dir) papers w
             = (Ok (archived_as archive_dir nm <$> seq 0 (length papers)), w')
         ∧ NoDup (FS.resolve env <$> (archived_as archive_dir nm <$> seq 0 (length papers)))).
Proof.
  split; [|split; [apply stem_suffix|]].
  - intros target w. destruct (unique_target_run env target w) as (p & Hrun & Hp).
    exists p. split; [done|]. unfold Main.unique_target_in in Hp.
    destruct (FS.node_exists (w_nodes w) (FS.resolve env target)) eqn:Hex; cbn [negb] in Hp.
    + apply unique_from_some in Hp as (k & Hk & -> & Hfree & Hbelow).
      split; [done|]. split; [done|]. intros _. by exists k.
    + injection Hp as <-. split; [done|]. split; [done|]. done.
  - intros archive_dir nm papers w Hpdf Hpapers Hnd Hdir Hempty.
    destruct (archive_all_from env archive_dir nm papers 0 w) as (w' & Hrun); [done|..].
    + intros paper Hin. by apply Hpapers.
    + split; [done|]. intros x. rewrite Hempty. split; [by intros [? ?]|].
      intros (j & Hj & _). lia.
    + split; [|done]. intros paper Hin. destruct (Hpapers paper Hin) as [_ [c Hc]].
      split; [by exists c|]. intros x E. rewrite E, Hempty in Hc. done.
    + exists w'. split; [done|]. rewrite <-list_fmap_compose.
      apply NoDup_fmap_2_strong; [|apply NoDup_seq].
      intros i j _ _ E. simpl in E. rewrite !archived_as_resolve in E by done.
      apply app_inj_tail in E as [_ E]. by apply archive_name_inj in E.
Qed.

Lemma unique_target_picks_the_first_free_name_witness :
  ∃ w',
    map_m (Main.archive_paper Example.env ["archive"])
      [{| pc_path := ["a"; "x.pdf"]; pc_title := "x"; pc_metadata := ∅ |};
       {| pc_path := ["/"; "home"; "u"; "b"; "x.pdf"]; pc_title := "x"; pc_metadata := ∅ |}]
      (set_nodes (insert ["home"; "u"; "archive"] Dir) Example.world)
    = (Ok [["archive"; "x.pdf"]; ["archive"; "x-1.pdf"]], w').
Proof.
  destruct (proj2 (proj2 (unique_target_picks_the_first_free_name Example.env))
              ["archive"] "x.pdf"
              [{| pc_path := ["a"; "x.pdf"]; pc_title := "x"; pc_metadata := ∅ |};
               {| pc_path := ["/"; "home"; "u"; "b"; "x.pdf"]; pc_title := "x";
                  pc_metadata := ∅ |}]
              (set_nodes (insert ["home"; "u"; "archive"] Dir) Example.world))
    as (w' & Hrun & _).
  - reflexivity.
  - intros paper [->|[->|[]%elem_of_nil]%elem_of_cons]%elem_of_cons;
      (split; [reflexivity|]); exists []; reflexivity.
  - vm_compute. apply NoDup_cons. split; [|apply NoDup_singleton].
    by intros [=]%list_elem_of_singleton.
  - reflexivity.
  - intros x. simpl. rewrite lookup_insert_ne by (by intros [=]).
    apply not_elem_of_list_to_map_1. simpl.
    rewrite !not_elem_of_cons. repeat split; try (by intros [=]). apply not_elem_of_nil.
  - exists w'. exact Hrun.
Defined.

(** ** Runs that move nothing *)

#[global] Instance unmoved_preorder : PreOrder unmoved.
Proof.
  split.
  - intros w. split; reflexivity.
  - intros w1 w2 w3 [Hq1 Hd1] [Hq2 Hd2]. split; etrans; eauto.
Qed.

Lemma unmoved_same w w' :
  w_trace w' = w_trace w → w_nodes w' = w_nodes w → unmoved w w'.
Proof. intros Ht Hn. split; [by apply quiet_same_trace|by rewrite Hn]. Qed.

Lemma unmoved_grow w w' :
  w_trace w' = w_trace w → dom (w_nodes w) ⊆ dom (w_nodes w') → unmoved w w'.
Proof. intros Ht Hn. split; [by apply quiet_same_trace|done]. Qed.

Lemma unmoved_emit ev : is_move ev = false → respects unmoved (emit ev).
Proof.
  intros Hev w r w' [= _ <-]. split; [|done].
  exists [ev]. split; [done|]. by constructor.
Qed.

Section Unmoved.
Variable env : Env.

Lemma mkdirs_dom ps nodes nodes' :
  FS.mkdirs ps nodes = Ok nodes' → dom nodes ⊆ dom nodes'.
Proof.
  intros H q [n Hq]%elem_of_dom. apply elem_of_dom.
  destruct (mkdirs_lookup _ _ _ q H) as [->|(E&_&_)]; [by eauto|congruence].
Qed.

Lemma unmoved_mkdir_p p : respects unmoved (FS.mkdir_p env p).
Proof.
  intros w r w' [(nodes' & Hmk & _ & ->)|(e & _ & ->)]%mkdir_p_inv; [|reflexivity].
  apply unmoved_grow; [done|]. simpl. by eapply mkdirs_dom.
Qed.

Lemma unmoved_exists p : respects unmoved (FS.exists_ env p).
Proof. intros w r w' [= _ <-]. reflexivity. Qed.

Lemma unmoved_open_append p : respects unmoved (FS.open_append env p).
Proof.
  intros w r w' H. apply unmoved_grow; [by eapply open_append_silent|].
  unfold FS.open_append in H. cbv zeta in H.
  destruct (FS.resolve env p) as [|x rp]; [by simplify_eq|].
  destruct (w_nodes w !! (x :: rp : Path)) as [[|c]|]; [by simplify_eq..|].
  destruct (FS.is_dir _ _); simplify_eq; [|done]. simpl. set_solver.
Qed.

Lemma unmoved_write_rows p rows : respects unmoved (FS.write_rows env p rows).
Proof.
  intros w r w' H. apply unmoved_grow; [by eapply write_rows_silent|].
  unfold FS.write_rows in H. cbv zeta in H.
  destruct (w_nodes w !! FS.resolve env p) as [[|c]|]; simplify_eq; [done| |done].
  simpl. set_solver.
Qed.

Lemma unmoved_write_text p lines : respects unmoved (FS.write_text env p lines).
Proof.
  intros w r w' H. apply unmoved_grow; [by eapply write_text_silent|].
  unfold FS.write_text in H. cbv zeta in H.
  destruct (FS.resolve env p) as [|x rp]; [by simplify_eq|].
  destruct (w_nodes w !! (x :: rp : Path)) as [[|c]|]; [by simplify_eq|..];
    (destruct (FS.is_dir _ _); simplify_eq; [|done]); simpl; set_solver.
Qed.

Lemma unmoved_read_text p : respects unmoved (FS.read_text env p).
Proof.
  intros w r w' H. apply unmoved_same; [by eapply read_text_silent|].
  unfold FS.read_text in H. cbv zeta in H.
  destruct (FS.resolve env p) as [|x rp]; [by simplify_eq|].
  destruct (w_nodes w !! (x :: rp : Path)) as [[|c]|]; by simplify_eq.
Qed.

Lemma unmoved_utcnow fmt : respects unmoved (Log.utcnow fmt).
Proof. intros w r w' [= _ <-]. by apply unmoved_same. Qed.

Lemma unmoved_append_log_entry log_path entry :
  respects unmoved (Log.append_log_entry env log_path entry).
Proof.
  unfold Log.append_log_entry.
  apply (respects_bind unmoved); [apply unmoved_mkdir_p|intros _].
  apply (respects_bind unmoved); [apply unmoved_exists|intros file_exists].
  apply (respects_bind unmoved); [apply unmoved_open_append|intros _].
  apply (respects_bind unmoved); [ |intros _; apply unmoved_write_rows].
  destruct (negb file_exists); [apply unmoved_write_rows|apply (respects_ret unmoved)].
Qed.

Lemma unmoved_write_digest digest_dir entries :
  respects unmoved (Log.write_digest env digest_dir entries).
Proof.
  unfold Log.write_digest.
  apply (respects_bind unmoved); [apply unmoved_mkdir_p|intros _].
  apply (respects_bind unmoved); [apply unmoved_utcnow|intros timestamp].
  apply (respects_bind unmoved); [apply unmoved_write_text|intros _].
  apply (respects_ret unmoved).
Qed.

End Unmoved.

Section UnmovedRun.
Variable env : Env.

Lemma unmoved_log_msg lvl msg : respects unmoved (log_msg lvl msg).
Proof. by apply unmoved_emit. Qed.

Lemma unmoved_extract_text path max_pages max_chars :
  respects unmoved (Summarize.extract_text env path max_pages max_chars).
Proof.
  unfold Summarize.extract_text.
  destruct (_ <=? _)%Z; [apply (respects_raise unmoved)|].
  destruct (e_pdf_pages env _) as [pages|].
  - destruct (_ <? _)%Z; apply (respects_ret unmoved).
  - apply (respects_bind unmoved); [apply unmoved_log_msg|intros _].
    apply (respects_ret unmoved).
Qed.

Lemma unmoved_summarize_text text model :
  respects unmoved (Summarize.summarize_text env text model).
Proof.
  unfold Summarize.summarize_text.
  destruct (negb (Str.truthy _)); [apply (respects_ret unmoved)|].
  destruct (negb (e_ollama_installed env)); [apply (respects_raise unmoved)|].
  destruct (e_ollama_chat env _ _) as [content|]; [apply (respects_ret unmoved)|].
  apply (respects_bind unmoved); [apply unmoved_log_msg|intros _].
  apply (respects_ret unmoved).
Qed.

Lemma unmoved_summary_wrapper model max_pages max_chars paper :
  respects unmoved (Main.summary_wrapper env model max_pages max_chars paper).
Proof.
  assert (respects unmoved (Main._summarize env model max_pages max_chars (pc_path paper)))
    as Hsum.
  { unfold Main._summarize.
    apply (respects_bind unmoved); [by apply unmoved_emit|intros _].
    apply (respects_bind unmoved); [apply unmoved_extract_text|intros text].
    apply unmoved_summarize_text. }
  intros w r w'. unfold Main.summary_wrapper.
  destruct (w_cache w !! pc_path paper) as [summary|].
  - intros [= _ <-]. reflexivity.
  - destruct (Main._summarize _ _ _ _ _ w) as [[summary|e] w1] eqn:Hrun.
    + intros [= _ <-]. etrans; [by eapply Hsum|]. by apply unmoved_same.
    + intros [= _ <-]. by eapply Hsum.
Qed.

Lemma unmoved_prompt_loop path lines w r w' :
  UI.prompt_loop path lines w = (r, w') → unmoved w w'.
Proof.
  intros H. split; [by eapply prompt_loop_quiet|].
  by rewrite (prompt_loop_same_nodes _ _ _ _ _ H).
Qed.

Lemma unmoved_triage_papers papers summary_fn dry_run auto_decision :
  (∀ paper, respects unmoved (summary_fn paper)) →
  respects unmoved (UI.triage_papers papers summary_fn dry_run auto_decision).
Proof.
  intros Hsf. apply (triage_from_respects unmoved); [done|]. apply unmoved_prompt_loop.
Qed.

Lemma unmoved_discover_papers folders metadata_sources :
  respects unmoved (Discover.discover_papers env folders metadata_sources).
Proof.
  intros w r w' Hrun.
  destruct (discover_papers_run env folders metadata_sources w)
    as (papers & w1 & Hrun1 & Hn & Hq & _).
  rewrite Hrun1 in Hrun. injection Hrun as _ <-.
  split; [by apply Hq|by rewrite Hn].
Qed.

Lemma unmoved_attach_all attachments acc :
  respects unmoved (Emailer.attach_all env attachments acc).
Proof.
  revert acc. induction attachments as [|[filename path] rest IH]; intros acc; simpl.
  - apply (respects_ret unmoved).
  - apply (respects_bind unmoved); [apply unmoved_exists|intros found].
    destruct (negb found); [apply IH|].
    apply (respects_bind unmoved); [apply unmoved_read_text|intros data]. apply IH.
Qed.

Lemma unmoved_send_message message host port username password use_tls :
  respects unmoved (Emailer.send_message env message host port username password use_tls).
Proof.
  unfold Emailer.send_message.
  apply (respects_bind unmoved); [by apply unmoved_emit|intros _].
  destruct (e_smtp env _); [apply (respects_raise unmoved)|apply (respects_ret unmoved)].
Qed.

Lemma unmoved_maybe_send_email email_cfg log_entries digest_path :
  respects unmoved (Main.maybe_send_email env email_cfg log_entries digest_path).
Proof.
  unfold Main.maybe_send_email.
  destruct (negb (em_enabled email_cfg)); [apply (respects_ret unmoved)|].
  destruct (bool_decide (log_entries = [])); [apply unmoved_log_msg|].
  destruct (_ || _); [apply unmoved_log_msg|].
  apply (respects_bind unmoved).
  { unfold Main.collect_attachments. destruct digest_path as [dp|].
    - apply (respects_bind unmoved); [apply unmoved_exists|intros found].
      apply (respects_ret unmoved).
    - apply (respects_ret unmoved). }
  intros attachments. apply (respects_bind unmoved).
  { unfold Emailer.build_message.
    apply (respects_bind unmoved); [apply unmoved_attach_all|intros atts].
    apply (respects_ret unmoved). }
  intros message.
  assert (∀ password, respects unmoved
    (try_except
       (Emailer.send_message env message (em_smtp_host email_cfg)
          (em_smtp_port email_cfg) (em_username email_cfg) password
          (em_use_tls email_cfg);;
        log_msg INFO ("Email digest sent to " +:+ Str.join ", " (em_recipients email_cfg)))
       (λ _, log_msg ERROR "Failed to send email digest"))) as Hsend.
  { intros password. apply (respects_try unmoved); [|intros; apply unmoved_log_msg].
    apply (respects_bind unmoved); [apply unmoved_send_message|intros _].
    apply unmoved_log_msg. }
  destruct (em_password_env email_cfg) as [password_env|]; [|apply Hsend].
  destruct (Str.truthy password_env); [|apply Hsend].
  destruct (e_environ env !! password_env) as [password|]; [|apply unmoved_log_msg].
  destruct (Str.truthy password); [apply Hsend|apply unmoved_log_msg].
Qed.

(** In a dry run the loop over the actions only appends to the log. *)
Lemma unmoved_archive_and_log archive_dir log_path action :
  respects unmoved (Main.archive_and_log env archive_dir log_path true action).
Proof.
  destruct action as [[paper summary] decision]. unfold Main.archive_and_log.
  rewrite andb_false_r.
  apply (respects_bind unmoved); [apply (respects_ret unmoved)|intros _].
  apply (respects_bind unmoved); [apply unmoved_utcnow|intros timestamp].
  apply (respects_bind unmoved); [apply unmoved_append_log_entry|intros _].
  apply (respects_ret unmoved).
Qed.

Lemma unmoved_process_actions archive_dir log_path actions log_entries :
  respects unmoved (Main.process_actions env archive_dir log_path true actions log_entries).
Proof.
  revert log_entries. induction actions as [|action rest IH]; intros log_entries; simpl.
  - apply (respects_ret unmoved).
  - apply (respects_bind unmoved); [apply unmoved_archive_and_log|intros entry]. apply IH.
Qed.

Lemma unmoved_triage_once config args :
  arg_dry_run args = true → respects unmoved (Main.triage_once env config args).
Proof.
  intros Hdry. unfold Main.triage_once. rewrite Hdry. cbn [negb].
  apply (respects_bind unmoved); [apply unmoved_discover_papers|intros papers].
  destruct (bool_decide (papers = [])).
  { apply (respects_bind unmoved); [apply unmoved_log_msg|intros _].
    apply (respects_ret unmoved). }
  apply (respects_bind unmoved); [apply (respects_ret unmoved)|intros _].
  apply (respects_bind unmoved).
  { intros w r w' [= _ <-]. by apply unmoved_same. }
  intros _.
  apply (respects_bind unmoved);
    [apply unmoved_triage_papers; intros; apply unmoved_summary_wrapper|intros actions].
  apply (respects_bind unmoved); [apply unmoved_process_actions|intros log_entries].
  apply (respects_bind unmoved).
  { destruct (_ && _); [|apply (respects_ret unmoved)].
    apply (respects_bind unmoved); [apply unmoved_write_digest|intros dp].
    apply (respects_ret unmoved). }
  intros digest_path.
  apply (respects_bind unmoved); [apply unmoved_maybe_send_email|intros _].
  apply (respects_ret unmoved).
Qed.

End UnmovedRun.

(** ** main.py: the loop over the actions *)

Lemma logged_app before a b : logged (logged before a) b = logged before (a ++ b).
Proof.
  destruct a as [|x a]; [done|]. destruct b as [|y b]; [by rewrite app_nil_r|].
  simpl. by rewrite fmap_app, <-!app_assoc.
Qed.

Section ActionFacts.
Variable env : Env.

Lemma unique_target_in_free nodes target p :
  Main.unique_target_in env nodes target = Some p →
  FS.node_exists nodes (FS.resolve env p) = false.
Proof.
  unfold Main.unique_target_in.
  destruct (FS.node_exists nodes (FS.resolve env target)) eqn:Hex; cbn [negb].
  - by intros (k & _ & -> & Hfree & _)%unique_from_some.
  - by intros [= <-].
Qed.

(** A successful move of a paper adds one move to the trace and changes
    the file system at its source and at its target only. *)
Lemma archive_paper_inv archive_dir paper w target w' :
  Main.archive_paper env archive_dir paper w = (Ok target, w') →
  w_trace w' = w_trace w ++ [EvMove (pc_path paper) target]
  ∧ ∀ q, q ≠ FS.resolve env (pc_path paper) → q ≠ FS.resolve env target →
         w_nodes w' !! q = w_nodes w !! q.
Proof.
  unfold Main.archive_paper.
  destruct (unique_target_run env (PathLib.joinpath archive_dir (PathLib.name (pc_path paper))) w)
    as (p & Hrun & Hp%unique_target_in_free).
  rewrite (bind_ok _ _ _ _ _ Hrun).
  intros ([] & w1 & Hmove & [= <- <-])%bind_ok_inv.
  unfold FS.move, get_nodes, emit in Hmove. unfold mbind, M_bind in Hmove.
  assert (FS.is_dir (w_nodes w) (FS.resolve env p) = false) as Hdir.
  { unfold FS.is_dir, FS.node_exists in *. destruct (FS.resolve env p); [done|].
    by destruct (w_nodes w !! _). }
  rewrite Hdir in Hmove. unfold FS.rename in Hmove. cbv zeta in Hmove. simpl in Hmove.
  destruct (w_nodes w !! FS.resolve env (pc_path paper)) as [n|]; [|done].
  destruct (_ && _); [|done]. injection Hmove as <-. simpl. split; [done|].
  intros q Hs Hd. by rewrite lookup_insert_ne, lookup_delete_ne.
Qed.

Lemma archive_and_log_inv archive_dir log_path dry_run action w entry w' :
  Main.archive_and_log env archive_dir log_path dry_run action w = (Ok entry, w') →
  describes dry_run action entry
  ∧ ∃ evs, w_trace w' = w_trace w ++ evs
      ∧ (moves_avoid env (FS.resolve env log_path) evs →
         w_nodes w' !! FS.resolve env log_path
         = logged (w_nodes w !! FS.resolve env log_path) [entry]).
Proof.
  destruct action as [[paper summary] decision]. unfold Main.archive_and_log.
  intros ([] & w1 & Hmove & H)%bind_ok_inv.
  apply bind_ok_inv in H as (timestamp & w2 & [= <- <-] & H).
  apply bind_ok_inv in H as ([] & w3 & Happend & [= <- <-]).
  split; [done|].
  apply append_log_entry_inv in Happend as (Ht & Hfile & _). simpl in Ht, Hfile.
  assert (∀ v, w_nodes w1 !! FS.resolve env log_path = v →
     w_nodes w3 !! FS.resolve env log_path = logged v [{|
       le_timestamp := e_isoformat env (w_ticks w1); le_title := pc_title paper;
       le_path := PathLib.to_str (pc_path paper); le_summary := summary;
       le_decision := decision; le_dry_run := Main.str_of_bool dry_run |}]) as Hlog.
  { intros v <-. destruct Hfile as [(c & -> & ->)|(-> & ->)]; done. }
  destruct (bool_decide (decision = "r") && negb dry_run).
  - apply bind_ok_inv in Hmove as (target & w0 & Harch & [= <-]).
    apply archive_paper_inv in Harch as [Htrace Hnodes].
    exists [EvMove (pc_path paper) target]. split; [congruence|].
    intros Havoid. destruct (Havoid (pc_path paper) target) as [Hs Hd];
      [by apply list_elem_of_singleton|].
    apply Hlog. by apply Hnodes.
  - injection Hmove as <-. exists []. split; [by rewrite app_nil_r|].
    intros _. by apply Hlog.
Qed.

Lemma process_actions_inv archive_dir log_path dry_run actions log_entries w entries w' :
  Main.process_actions env archive_dir log_path dry_run actions log_entries w
  = (Ok entries, w') →
  ∃ new evs,
    entries = log_entries ++ new
    ∧ Forall2 (describes dry_run) actions new
    ∧ w_trace w' = w_trace w ++ evs
    ∧ (moves_avoid env (FS.resolve env log_path) evs →
       w_nodes w' !! FS.resolve env log_path
       = logged (w_nodes w !! FS.resolve env log_path) new).
Proof.
  revert log_entries w. induction actions as [|action rest IH]; intros acc w; simpl.
  - intros [= <- <-]. exists [], []. rewrite !app_nil_r.
    split; [done|]. split; [constructor|]. split; done.
  - intros (entry & w1 & Hstep & H)%bind_ok_inv.
    apply IH in H as (new & evs2 & -> & Hall & Ht2 & Hlog2).
    apply archive_and_log_inv in Hstep as (Hdesc & evs1 & Ht1 & Hlog1).
    exists (entry :: new), (evs1 ++ evs2).
    split; [by rewrite <-app_assoc|]. split; [by constructor|].
    split; [by rewrite Ht2, Ht1, app_assoc|].
    intros Havoid.
    rewrite Hlog2, Hlog1.
    + apply (logged_app _ [entry] new).
    + intros src dst Hin. apply Havoid. apply elem_of_app. by left.
    + intros src dst Hin. apply Havoid. apply elem_of_app. by right.
Qed.

End ActionFacts.

(** ** main.py: one run *)

Section RunFacts.
Variable env : Env.

(** A run that returns went through the discovery, the decisions and
    the loop over the actions, in this order. *)
Lemma triage_once_ok_inv config args w entries w' :
  Main.triage_once env config args w = (Ok entries, w') →
  ∃ papers w1,
    Discover.discover_papers env (cfg_input_folders config) (cfg_metadata_sources config) w
    = (Ok papers, w1)
    ∧ ((papers = [] ∧ entries = [])
       ∨ ∃ w2 actions w3 w4,
           UI.triage_papers papers
             (Main.summary_wrapper env (cfg_model config)
                (int_or (arg_max_pages args) (cfg_max_pages config))
                (int_or (arg_max_chars args) (cfg_max_chars config)))
             (arg_dry_run args)
             (Main._resolve_decision_mode (cfg_auto_decision config) args) w2
           = (Ok actions, w3)
           ∧ Main.process_actions env
               (Main.config_path env (arg_archive args) (cfg_archive_dir config))
               (Main.config_path env (arg_log_path args) (cfg_log_path config))
               (arg_dry_run args) actions [] w3
             = (Ok entries, w4)).
Proof.
  unfold Main.triage_once.
  intros (papers & w1 & Hdisc & H)%bind_ok_inv. exists papers, w1. split; [done|].
  case_bool_decide as Hpapers.
  - left. apply bind_ok_inv in H as ([] & ? & _ & [= <- _]). done.
  - right. apply bind_ok_inv in H as ([] & wa & _ & H).
    apply bind_ok_inv in H as ([] & w2 & _ & H).
    apply bind_ok_inv in H as (actions & w3 & Hact & H).
    apply bind_ok_inv in H as (log_entries & w4 & Hproc & H).
    apply bind_ok_inv in H as (digest_path & w5 & _ & H).
    apply bind_ok_inv in H as ([] & w6 & _ & [= <- _]).
    by exists w2, actions, w3, w4.
Qed.

(** With a configured mode the automatic decision rejects, the run ends
    before the loop over the actions: it raises, or it found no paper. *)
Lemma triage_once_rejected config args mode e w r w' :
  UI.mode_given (Main._resolve_decision_mode (cfg_auto_decision config) args) = Some mode →
  UI._auto_decide mode = Raise e →
  Main.triage_once env config args w = (r, w') →
  unmoved w w'
  ∧ ((∃ e', r = Raise e')
     ∨ (r = Ok []
        ∧ ∃ w1, Discover.discover_papers env (cfg_input_folders config)
                  (cfg_metadata_sources config) w = (Ok [], w1))).
Proof.
  intros Hmode Hrej. unfold Main.triage_once.
  intros [(papers & w1 & Hdisc & H)|(e' & Hdisc & ->)]%bind_inv.
  2:{ split; [by eapply unmoved_discover_papers|eauto]. }
  pose proof (unmoved_discover_papers env _ _ _ _ _ Hdisc) as Hu1.
  case_bool_decide as Hpapers.
  { apply bind_inv in H as [([] & w2 & [= <-] & [= <- <-])|(e' & ? & _)]; [|done].
    subst papers. split; [|right; eauto]. etrans; [exact Hu1|]. by eapply unmoved_log_msg. }
  apply bind_inv in H as [([] & w2 & Hmk & H)|(e' & Hmk & ->)].
  2:{ split; [|eauto]. etrans; [exact Hu1|]. destruct (negb (arg_dry_run args)).
      - by eapply unmoved_mkdir_p.
      - discriminate Hmk. }
  assert (unmoved w1 w2) as Hu2.
  { destruct (negb (arg_dry_run args)); [by eapply unmoved_mkdir_p|].
    injection Hmk as <-. reflexivity. }
  apply bind_inv in H as [([] & w3 & [= <-] & H)|(e' & ? & _)]; [|done].
  apply bind_inv in H as [(actions & w4 & Hact & _)|(e' & Hact & ->)].
  - eapply triage_from_rejected in Hact as [? [=]]; done.
  - split; [|eauto]. etrans; [exact Hu1|]. etrans; [exact Hu2|].
    etrans; [by apply (unmoved_same w2 (set_cache ∅ w2))|].
    eapply unmoved_triage_papers; [|exact Hact].
    intros paper. apply unmoved_summary_wrapper.
Qed.

Lemma describes_paths dry_run actions entries :
  Forall2 (describes dry_run) actions entries →
  le_path <$> entries = (λ a : Action, PathLib.to_str (pc_path a.1.1)) <$> actions
  ∧ le_title <$> entries = (λ a : Action, pc_title a.1.1) <$> actions
  ∧ le_decision <$> entries = (λ a : Action, a.2) <$> actions
  ∧ Forall (λ entry, le_dry_run entry = Main.str_of_bool dry_run) entries.
Proof.
  induction 1 as [|action entry actions entries (Ht & Hp & Hs & Hd & Hdry) _ IH].
  - repeat split; constructor.
  - destruct IH as (IH1 & IH2 & IH3 & IH4). rewrite !fmap_cons.
    rewrite IH1, IH2, IH3, Ht, Hp, Hd. repeat split. by constructor.
Qed.

End RunFacts.

(** C6, as amended.  The automatic decision goes by the first character
    of the configured string: every spelling of k, r, s, keep, remove and
    skip, in any case, is accepted and gives its letter; a string is
    accepted exactly when it is not empty and its first character,
    lower-cased, is k, r or s; and when the configured mode is a
    non-empty string that is rejected (with a [ValueError] that names
    it), the run raises, or returns at once because the discovery found
    no paper, and nothing was moved. *)
Theorem automatic_decision_goes_by_the_first_letter env :
  (∀ mode,
     Str.lower mode ∈ ["k"; "r"; "s"; "keep"; "remove"; "skip"] →
     UI._auto_decide mode = Ok (Str.take 1 (Str.lower mode)))
  ∧ (∀ mode d,
       UI._auto_decide mode = Ok d
       ↔ ∃ c rest, mode = String c rest
           ∧ d = String (Str.lower_char c) EmptyString ∧ d ∈ ["k"; "r"; "s"])
  ∧ (∀ mode e,
       mode ≠ EmptyString → UI._auto_decide mode = Raise e →
       e = ValueError ("Unsupported auto decision '" +:+ mode +:+ "'"))
  ∧ (∀ config args mode e w r w',
       Main._resolve_decision_mode (cfg_auto_decision config) args = Some mode →
       mode ≠ EmptyString →
       UI._auto_decide mode = Raise e →
       Main.triage_once env config args w = (r, w') →
       unmoved w w'
       ∧ ((∃ e', r = Raise e')
          ∨ (r = Ok []
             ∧ ∃ w1, Discover.discover_papers env (cfg_input_folders config)
                       (cfg_metadata_sources config) w = (Ok [], w1)))).
Proof.
  split; [|split; [|split]].
  - intros [|c rest] Hin;
      [apply (bool_decide_eq_true_2 _) in Hin; vm_compute in Hin; discriminate|].
    simpl in *. rewrite bool_decide_eq_true_2; [done|].
    set_unfold in Hin. unfold UI.allowed. set_unfold.
    destruct Hin as [E|[E|[E|[E|[E|[E|[]]]]]]]; injection E as -> _; tauto.
  - intros mode d. split.
    + destruct mode as [|c rest]; simpl; [done|].
      case_bool_decide as Hin; [|done]. intros [= <-]. by exists c, rest.
    + intros (c & rest & -> & -> & Hin). simpl. by rewrite bool_decide_eq_true_2.
  - intros [|c rest] e Hne; [done|]. simpl.
    case_bool_decide; [done|]. by intros [= <-].
  - intros config args mode e w r w' Hmode Hne Hrej.
    apply (triage_once_rejected env config args mode e); [|done].
    rewrite Hmode. simpl. unfold Str.truthy. by rewrite bool_decide_eq_false_2.
Qed.

Lemma automatic_decision_goes_by_the_first_letter_witness :
  unmoved Example.world
    (Main.triage_once Example.env (Example.config (Some (Some "delete")))
       (Example.args false) Example.world).2
  ∧ ((∃ e', (Main.triage_once Example.env (Example.config (Some (Some "delete")))
                (Example.args false) Example.world).1 = Raise e')
     ∨ ((Main.triage_once Example.env (Example.config (Some (Some "delete")))
           (Example.args false) Example.world).1 = Ok []
        ∧ ∃ w1, Discover.discover_papers Example.env ["a"; "b"] None Example.world
                = (Ok [], w1))).
Proof.
  apply (proj2 (proj2 (proj2 (automatic_decision_goes_by_the_first_letter Example.env)))
           (Example.config (Some (Some "delete"))) (Example.args false) "delete"
           (ValueError "Unsupported auto decision 'delete'") Example.world).
  - reflexivity.
  - discriminate.
  - reflexivity.
  - apply surjective_pairing.
Defined.

(** C6, as stated, fails: "kangaroo" is none of the six spellings, yet
    it is accepted, as keep. *)
Lemma a_word_that_starts_like_a_decision_is_accepted :
  ¬ ((∃ d, UI._auto_decide "kangaroo" = Ok d)
     ↔ Str.lower "kangaroo" ∈ ["k"; "r"; "s"; "keep"; "remove"; "skip"]).
Proof.
  intros [Hacc _]. specialize (Hacc (ex_intro _ "k" eq_refl)).
  vm_compute in Hacc. set_unfold in Hacc.
  destruct Hacc as [E|[E|[E|[E|[E|[E|[]]]]]]]; discriminate E.
Qed.

(** A rejected mode stops a run that found papers with a [ValueError],
    and nothing was moved. *)
Example rejected_mode_is_fatal :
  (Main.triage_once Example.env (Example.config (Some (Some "delete")))
     (Example.args false) Example.world).1
  = Raise (ValueError "Unsupported auto decision 'delete'").
Proof. vm_compute. reflexivity. Qed.

(** An empty configured mode is no error: the run asks the operator. *)
Example empty_mode_is_interactive :
  le_decision <$>
    match (Main.triage_once Example.env (Example.config (Some (Some "")))
             (Example.args false)
             (set_stdin ["s"; "k"; "s"] Example.world)).1 with
    | Ok entries => entries
    | Raise _ => []
    end
  = ["s"; "k"; "s"].
Proof. vm_compute. reflexivity. Qed.

(** ** main.py: the notification *)

Section EmailFacts.
Variable env : Env.

Lemma attach_all_world attachments acc w r w' :
  Emailer.attach_all env attachments acc w = (r, w') → w' = w.
Proof.
  revert acc w. induction attachments as [|[filename path] rest IH]; intros acc w; simpl.
  - by intros [= _ <-].
  - rewrite (bind_ok _ _ _ _ _ (exists_run _ _ _)).
    destruct (negb _); [apply IH|].
    intros [(data & w1 & Hread & H)|(e & Hread & _)]%bind_inv.
    + apply IH in H as ->. unfold FS.read_text in Hread. cbv zeta in Hread.
      destruct (FS.resolve env path) as [|x rp]; [by simplify_eq|].
      destruct (w_nodes w !! (x :: rp : Path)) as [[|c]|]; by simplify_eq.
    + unfold FS.read_text in Hread. cbv zeta in Hread.
      destruct (FS.resolve env path) as [|x rp]; [by simplify_eq|].
      destruct (w_nodes w !! (x :: rp : Path)) as [[|c]|]; by simplify_eq.
Qed.

(** The guarded call of the transport: one network call, and a log
    message that tells whether it failed; it never raises. *)
Lemma guarded_send_run message host port username password use_tls recipients w :
  let req := {| req_message := message; req_host := host; req_port := port;
                req_username := username; req_password := password;
                req_use_tls := use_tls |} in
  try_except
    (Emailer.send_message env message host port username password use_tls;;
     log_msg INFO ("Email digest sent to " +:+ Str.join ", " recipients))
    (λ _, log_msg ERROR "Failed to send email digest") w
  = (Ok tt,
     add_event
       (match e_smtp env req with
        | Some _ => EvLog ERROR "Failed to send email digest"
        | None => EvLog INFO ("Email digest sent to " +:+ Str.join ", " recipients)
        end)
       (add_event (EvSmtp req) w)).
Proof.
  intros req. unfold try_except, Emailer.send_message, mbind, M_bind, emit. fold req.
  by destruct (e_smtp env req).
Qed.

Ltac sent H :=
  rewrite guarded_send_run in H; injection H as <- <-; split; [done|];
  match goal with
  | |- context [e_smtp env ?req] =>
      destruct (e_smtp env req) eqn:?; eexists req, _, _;
      (split; [reflexivity|]); intros ?; [done|congruence]
  end.

(** What [maybe_send_email] does once the configuration allows an email
    and there are entries to report: it raises only if the attachment
    cannot be read, and then nothing was sent; otherwise it returns,
    having logged an error instead of sending when the password is
    missing, and having called the transport once when it is not. *)
Lemma maybe_send_email_inv email_cfg log_entries digest_path w r w' :
  can_send email_cfg → log_entries ≠ [] →
  Main.maybe_send_email env email_cfg log_entries digest_path w = (r, w') →
  (∃ e, r = Raise e ∧ w' = w)
  ∨ (r = Ok tt ∧
     if password_missing env email_cfg
     then ∃ msg, w' = add_event (EvLog ERROR msg) w
     else ∃ req lvl msg,
            w' = add_event (EvLog lvl msg) (add_event (EvSmtp req) w)
            ∧ (e_smtp env req ≠ None →
               lvl = ERROR ∧ msg = "Failed to send email digest")).
Proof.
  intros (Hen & Hsender & Hrcpt) Hentries. unfold Main.maybe_send_email.
  rewrite Hen, Hsender. cbn [negb orb].
  rewrite !bool_decide_eq_false_2 by done.
  intros [(attachments & w1 & Hcollect & H)|(e & Hcollect & _)]%bind_inv.
  2:{ unfold Main.collect_attachments in Hcollect. destruct digest_path; [|done].
      by rewrite (bind_ok _ _ _ _ _ (exists_run _ _ _)) in Hcollect. }
  assert (w1 = w) as ->.
  { unfold Main.collect_attachments in Hcollect. destruct digest_path.
    - rewrite (bind_ok _ _ _ _ _ (exists_run _ _ _)) in Hcollect. by injection Hcollect.
    - by injection Hcollect. }
  apply bind_inv in H as [(message & w1 & Hbuild & H)|(e & Hbuild & ->)].
  2:{ left. exists e. split; [done|]. unfold Emailer.build_message in Hbuild.
      apply bind_inv in Hbuild as [(? & ? & _ & [=])|(? & Hatt & _)].
      by apply attach_all_world in Hatt. }
  assert (w1 = w) as ->.
  { unfold Emailer.build_message in Hbuild.
    apply bind_ok_inv in Hbuild as (atts & w2 & Hatt & [= _ <-]).
    by apply attach_all_world in Hatt. }
  right. unfold password_missing.
  destruct (em_password_env email_cfg) as [name|].
  - destruct (Str.truthy name); cbn [andb].
    + destruct (e_environ env !! name) as [password|]; simpl.
      * destruct (Str.truthy password); cbn [negb].
        -- sent H.
        -- injection H as <- <-. split; [done|]. by eexists.
      * injection H as <- <-. split; [done|]. by eexists.
    + sent H.
  - sent H.
Qed.

End EmailFacts.

Lemma quiet_one_log P lvl msg w :
  P (EvLog lvl msg) = false → quiet P w (add_event (EvLog lvl msg) w).
Proof. intros HP. exists [EvLog lvl msg]. split; [done|]. by constructor. Qed.

(** C9.  [maybe_send_email] does nothing when email is disabled and only
    logs a note when the run produced no entry; with an empty sender or
    no recipient it logs an error and returns, and with a password
    variable that is named but unset it makes no network call and logs an
    error where it would have sent.  Whenever the transport is called the
    function returns normally, and a transport failure is logged as an
    error. *)
Theorem email_is_sent_only_when_it_can_be env email_cfg log_entries digest_path w :
  (em_enabled email_cfg = false →
   Main.maybe_send_email env email_cfg log_entries digest_path w = (Ok tt, w))
  ∧ (em_enabled email_cfg = true → log_entries = [] →
     Main.maybe_send_email env email_cfg log_entries digest_path w
     = (Ok tt, add_event
                 (EvLog INFO "Email enabled but no triage actions were taken; skipping send.")
                 w))
  ∧ (em_enabled email_cfg = true → log_entries ≠ [] →
     Str.truthy (default EmptyString (em_sender email_cfg)) = false
     ∨ em_recipients email_cfg = [] →
     Main.maybe_send_email env email_cfg log_entries digest_path w
     = (Ok tt, add_event
                 (EvLog ERROR "Email sending requires 'sender' and 'recipients' in config.")
                 w))
  ∧ (∀ name r w',
       em_enabled email_cfg = true → log_entries ≠ [] →
       em_password_env email_cfg = Some name → name ≠ EmptyString →
       e_environ env !! name = None →
       Main.maybe_send_email env email_cfg log_entries digest_path w = (r, w') →
       quiet is_smtp w w'
       ∧ (r = Ok tt → ∃ msg, w' = add_event (EvLog ERROR msg) w))
  ∧ (∀ r w' evs req,
       Main.maybe_send_email env email_cfg log_entries digest_path w = (r, w') →
       w_trace w' = w_trace w ++ evs → EvSmtp req ∈ evs →
       r = Ok tt
       ∧ (e_smtp env req ≠ None → EvLog ERROR "Failed to send email digest" ∈ evs)).
Proof.
  assert (em_enabled email_cfg = true → log_entries ≠ [] →
     Str.truthy (default EmptyString (em_sender email_cfg)) = false
     ∨ em_recipients email_cfg = [] →
     Main.maybe_send_email env email_cfg log_entries digest_path w
     = (Ok tt, add_event
                 (EvLog ERROR "Email sending requires 'sender' and 'recipients' in config.")
                 w)) as Hbad.
  { intros Hen Hentries Hbad. unfold Main.maybe_send_email. rewrite Hen. cbn [negb].
    rewrite bool_decide_eq_false_2 by done.
    destruct Hbad as [-> | ->]; [done|]. by rewrite orb_true_r. }
  assert (∀ a evs, w_trace (add_event a w) = w_trace w ++ evs → evs = [a]) as Hone.
  { intros a evs E. simpl in E. by apply app_inv_head in E. }
  split; [|split; [|split; [done|split]]].
  - intros Hen. unfold Main.maybe_send_email. by rewrite Hen.
  - intros Hen ->. unfold Main.maybe_send_email. by rewrite Hen.
  - intros name r w' Hen Hentries Hname Hne Hunset Hrun.
    destruct (Str.truthy (default EmptyString (em_sender email_cfg))) eqn:Hsender.
    2:{ rewrite Hbad in Hrun by auto. injection Hrun as <- <-.
        split; [by apply quiet_one_log|]. by eexists. }
    destruct (decide (em_recipients email_cfg = [])) as [Hrcpt|Hrcpt].
    { rewrite Hbad in Hrun by auto. injection Hrun as <- <-.
      split; [by apply quiet_one_log|]. by eexists. }
    apply maybe_send_email_inv in Hrun as [(e & -> & ->)|[-> Hrun]];
      [| |by split|done].
    + split; [reflexivity|done].
    + assert (password_missing env email_cfg = true) as Hmissing.
      { unfold password_missing. rewrite Hname, Hunset. simpl.
        unfold Str.truthy. by rewrite bool_decide_eq_false_2. }
      rewrite Hmissing in Hrun. destruct Hrun as [msg ->].
      split; [by apply quiet_one_log|]. by eexists.
  - intros r w' evs req Hrun Ht Hin.
    destruct (em_enabled email_cfg) eqn:Hen.
    2:{ unfold Main.maybe_send_email in Hrun. rewrite Hen in Hrun.
        injection Hrun as <- <-. rewrite <-(app_nil_r (w_trace w)) in Ht at 1.
        apply app_inv_head in Ht as <-. by apply elem_of_nil in Hin. }
    destruct (decide (log_entries = [])) as [->|Hentries].
    { unfold Main.maybe_send_email in Hrun. rewrite Hen in Hrun.
      injection Hrun as <- <-. apply Hone in Ht as ->.
      by apply list_elem_of_singleton in Hin. }
    destruct (Str.truthy (default EmptyString (em_sender email_cfg))) eqn:Hsender.
    2:{ rewrite Hbad in Hrun by auto. injection Hrun as <- <-. apply Hone in Ht as ->.
        by apply list_elem_of_singleton in Hin. }
    destruct (decide (em_recipients email_cfg = [])) as [Hrcpt|Hrcpt].
    { rewrite Hbad in Hrun by auto. injection Hrun as <- <-. apply Hone in Ht as ->.
      by apply list_elem_of_singleton in Hin. }
    apply maybe_send_email_inv in Hrun as [(e & -> & ->)|[-> Hrun]];
      [| |by split|done].
    { rewrite <-(app_nil_r (w_trace w)) in Ht at 1.
      apply app_inv_head in Ht as <-. by apply elem_of_nil in Hin. }
    split; [done|].
    destruct (password_missing env email_cfg).
    + destruct Hrun as [msg ->]. apply Hone in Ht as ->.
      by apply list_elem_of_singleton in Hin.
    + destruct Hrun as (req0 & lvl & msg & -> & Hfail). simpl in Ht.
      rewrite <-app_assoc in Ht. apply app_inv_head in Ht as <-.
      apply elem_of_cons in Hin as [[= ->]|Hin%list_elem_of_singleton]; [|done].
      intros [-> ->]%Hfail. apply elem_of_cons. right. by apply list_elem_of_singleton.
Qed.

Lemma email_is_sent_only_when_it_can_be_witness :
  Main.maybe_send_email Example.env
    {| em_enabled := true; em_sender := Some "paper-triage@example.com";
       em_recipients := []; em_subject := "Weekly paper triage digest";
       em_password_env := None; em_smtp_host := "localhost"; em_smtp_port := 587;
       em_username := None; em_use_tls := true |}
    [Example.entry 0] None Example.world
  = (Ok tt,
     add_event (EvLog ERROR "Email sending requires 'sender' and 'recipients' in config.")
       Example.world).
Proof.
  apply (proj1 (proj2 (proj2 (email_is_sent_only_when_it_can_be Example.env _ _ _ _)))).
  - reflexivity.
  - discriminate.
  - right. reflexivity.
Defined.

(** ** The scenarios of the specification *)

(** The record of the last source wins, whole. *)
Lemma lookup_holds_the_last_source_record_witness :
  ∃ lookup w',
    Discover._build_metadata_lookup Example.env_with_metadata
      [Example.bookmarks; Example.zotero] Example.world_with_metadata = (Ok lookup, w')
    ∧ lookup !! "paper.pdf" = Some Example.zotero_record.
Proof.
  destruct (lookup_holds_the_last_source_record Example.env_with_metadata
              [Example.bookmarks; Example.zotero] Example.world_with_metadata)
    as (lookup & w' & Hrun & Hlast & _ & _).
  exists lookup, w'. split; [exact Hrun|].
  apply (Hlast [Example.bookmarks] Example.zotero [] [Example.zotero_record] []
           Example.zotero_record [] "paper.pdf").
  - reflexivity.
  - vm_compute. reflexivity.
  - reflexivity.
  - reflexivity.
  - discriminate.
  - intros r Hr. by apply elem_of_nil in Hr.
  - intros s rs r Hs. by apply elem_of_nil in Hs.
Defined.

(** Scenario A: automatic decision "remove" over the folders [a] and
    [b]: every paper is moved into the archive, the second x.pdf under a
    numbered name, and the log has one row per paper with decision "r". *)
Example scenario_remove_everything :
  let run := Main.triage_once Example.env (Example.config (Some (Some "remove")))
               (Example.args false) Example.world in
  (le_decision <$> match run.1 with Ok entries => entries | Raise _ => [] end)
  = ["r"; "r"; "r"]
  ∧ filter (λ ev, is_move ev = true) (w_trace run.2)
    = [EvMove ["a"; "x.pdf"] ["archive"; "x.pdf"];
       EvMove ["b"; "Paper.pdf"] ["archive"; "Paper.pdf"];
       EvMove ["b"; "x.pdf"] ["archive"; "x-1.pdf"]]
  ∧ w_nodes run.2 !! ["home"; "u"; "triage_log.csv"]
    = Some (File [Log.LOG_FIELDS;
                  ["T0"; "x"; "a/x.pdf"; "A summary."; "r"; "False"];
                  ["T1"; "Paper"; "b/Paper.pdf"; "A summary."; "r"; "False"];
                  ["T2"; "x"; "b/x.pdf"; "A summary."; "r"; "False"]]).
Proof. vm_compute. repeat split. Qed.

(** Scenario B: the export names paper.pdf, the folder holds Paper.pdf:
    the candidate gets the title of the export. *)
Example scenario_case_insensitive_key :
  (λ c, (pc_path c, pc_title c)) <$>
    match (Discover.discover_papers Example.env_with_metadata ["b"]
             (Some [Example.bookmarks; Example.zotero]) Example.world_with_metadata).1 with
    | Ok papers => papers
    | Raise _ => []
    end
  = [(["b"; "Paper.pdf"], "X"); (["b"; "x.pdf"], "x")].
Proof. vm_compute. reflexivity. Qed.

(** Scenario C: no automatic decision, the operator answers "s": the
    decision recorded is "s" and nothing is moved. *)
Example scenario_interactive_skip :
  let config := {| cfg_input_folders := ["a"]; cfg_metadata_sources := None;
                   cfg_archive_dir := "archive"; cfg_log_path := "triage_log.csv";
                   cfg_digest_dir := "digests"; cfg_max_pages := 3;
                   cfg_max_chars := 4000; cfg_model := "llama3.2:latest";
                   cfg_auto_decision := {| ad_enabled := false; ad_default := None |};
                   cfg_digest_enabled := false; cfg_email := Example.email_off |} in
  let run := Main.triage_once Example.env config (Example.args false)
               (set_stdin ["s"] Example.world) in
  (le_decision <$> match run.1 with Ok entries => entries | Raise _ => [] end) = ["s"]
  ∧ filter (λ ev, is_move ev = true) (w_trace run.2) = []
  ∧ w_nodes run.2 !! ["home"; "u"; "a"; "x.pdf"] = Some (File []).
Proof. vm_compute. repeat split. Qed.

(** A dry run with decision "remove": the entries say "r" and "True",
    the papers stay where they are. *)
Example scenario_dry_run :
  let run := Main.triage_once Example.env (Example.config (Some (Some "remove")))
               (Example.args true) Example.world in
  ((λ e, (le_decision e, le_dry_run e)) <$>
     match run.1 with Ok entries => entries | Raise _ => [] end)
  = [("r", "True"); ("r", "True"); ("r", "True")]
  ∧ filter (λ ev, is_move ev = true) (w_trace run.2) = []
  ∧ w_nodes run.2 !! ["home"; "u"; "archive"] = None.
Proof. vm_compute. repeat split. Qed.

(** * More of the code

    Facts about the functions the claims above leave out, and the lemmas
    the claims about whole runs rest on. *)

(** ** discover.py: what the discovery does and in which order *)

#[global] Instance logs_only_preorder : PreOrder logs_only.
Proof.
  split.
  - intros w. repeat split. exists []. by rewrite app_nil_r.
  - intros a b c (Hn1 & Hs1 & Ht1 & Hc1 & e1 & He1 & Hf1)
      (Hn2 & Hs2 & Ht2 & Hc2 & e2 & He2 & Hf2).
    repeat split; try congruence.
    exists (e1 ++ e2). split; [by rewrite He2, He1, app_assoc|by apply Forall_app].
Qed.

Lemma logs_only_log lvl msg : respects logs_only (log_msg lvl msg).
Proof.
  intros w r w' [= _ <-]. repeat split. exists [EvLog lvl msg].
  split; [done|]. by constructor.
Qed.

Section ReadOnly.
Variable env : Env.

Lemma logs_only_exists p : respects logs_only (FS.exists_ env p).
Proof. intros w r w' [= _ <-]. reflexivity. Qed.

Lemma logs_only_load_source source : respects logs_only (Discover.load_source env source).
Proof.
  unfold Discover.load_source. cbv zeta.
  apply (respects_bind logs_only); [apply logs_only_exists|]. intros found.
  destruct (negb found).
  { apply (respects_bind logs_only); [apply logs_only_log|].
    intros _. apply (respects_ret logs_only). }
  apply (respects_try logs_only).
  - repeat case_decide.
    + unfold Discover._parse_bookmarks_json. destruct (e_json _ _).
      * apply (respects_bind logs_only); [|intros ?]; apply (respects_ret logs_only).
      * apply (respects_bind logs_only); [apply (respects_raise logs_only)|].
        intros ?; apply (respects_ret logs_only).
    + unfold Discover._parse_reference_export. destruct (e_csv _ _).
      * apply (respects_bind logs_only); [|intros ?]; apply (respects_ret logs_only).
      * apply (respects_bind logs_only); [apply (respects_raise logs_only)|].
        intros ?; apply (respects_ret logs_only).
    + apply (respects_bind logs_only); [apply logs_only_log|].
      intros _. apply (respects_ret logs_only).
  - intros e. apply (respects_bind logs_only); [apply logs_only_log|].
    intros _. apply (respects_ret logs_only).
Qed.

Lemma logs_only_build_from sources lookup :
  respects logs_only (Discover.build_from env sources lookup).
Proof.
  revert lookup. induction sources as [|s rest IH]; intros lookup; simpl.
  - apply (respects_ret logs_only).
  - apply (respects_bind logs_only); [apply logs_only_load_source|].
    intros [records|]; apply IH.
Qed.

Lemma logs_only_discover_in folders lookup st :
  respects logs_only (Discover.discover_in env folders lookup st).
Proof.
  revert st. induction folders as [|f rest IH]; intros st; simpl.
  - apply (respects_ret logs_only).
  - apply (respects_bind logs_only); [apply logs_only_exists|]. intros found.
    destruct (negb found).
    + apply (respects_bind logs_only); [apply logs_only_log|]. intros _. apply IH.
    + apply (respects_bind logs_only); [by intros w r w' [= _ <-]|].
      intros nodes. apply IH.
Qed.

Lemma logs_only_discover_papers folders metadata_sources :
  respects logs_only (Discover.discover_papers env folders metadata_sources).
Proof.
  unfold Discover.discover_papers, Discover._build_metadata_lookup.
  apply (respects_bind logs_only); [apply logs_only_build_from|]. intros lookup.
  apply (respects_bind logs_only); [apply logs_only_discover_in|]. intros st.
  apply (respects_ret logs_only).
Qed.

End ReadOnly.

Lemma union_absorb_elem (p : Path) (X Y : gset Path) :
  p ∈ Y → {[p]} ∪ X ∪ Y = X ∪ Y.
Proof.
  intros Hp. apply set_eq. intros x. rewrite !elem_of_union, elem_of_singleton.
  intuition (subst; auto).
Qed.

Lemma union_shift (p : Path) (X Y : gset Path) : {[p]} ∪ X ∪ Y = X ∪ ({[p]} ∪ Y).
Proof.
  apply set_eq. intros x. rewrite !elem_of_union, elem_of_singleton. tauto.
Qed.

Lemma keep_first_app seen l1 l2 :
  keep_first seen (l1 ++ l2)
  = keep_first seen l1 ++ keep_first (list_to_set l1 ∪ seen) l2.
Proof.
  revert seen. induction l1 as [|p r IH]; intros seen; simpl.
  - by rewrite (left_id_L ∅ (∪)).
  - destruct (decide (p ∈ seen)) as [Hin|Hout].
    + rewrite IH. by rewrite union_absorb_elem.
    + simpl. rewrite IH. by rewrite union_shift.
Qed.

Lemma leb_total p q : PathLib.leb p q = false → PathLib.leb q p = true.
Proof.
  revert q. induction p as [|a p IH]; intros [|b q]; simpl; try done.
  destruct (decide (a = b)) as [->|Hne].
  - rewrite decide_True by done. apply IH.
  - rewrite decide_False by done. intros H.
    destruct (String.leb_total a b) as [H'|H']; congruence.
Qed.

Lemma insert_sorted_Sorted x l :
  Sorted (λ p q, PathLib.leb p q = true) l →
  Sorted (λ p q, PathLib.leb p q = true) (PathLib.insert_sorted x l).
Proof.
  induction 1 as [|y l Hs IH Hhd]; simpl.
  - by repeat constructor.
  - destruct (PathLib.leb x y) eqn:Hxy.
    + constructor; [by constructor|by constructor].
    + constructor; [done|].
      destruct l as [|z l]; simpl in *.
      * constructor. by apply leb_total.
      * destruct (PathLib.leb x z); constructor; [by apply leb_total|].
        by inversion Hhd.
Qed.

Lemma sorted_Sorted l : Sorted (λ p q, PathLib.leb p q = true) (PathLib.sorted l).
Proof.
  induction l as [|x l IH]; simpl; [constructor|]. by apply insert_sorted_Sorted.
Qed.

Lemma insert_sorted_Permutation x l : PathLib.insert_sorted x l ≡ₚ x :: l.
Proof.
  induction l as [|y l IH]; simpl; [done|].
  destruct (PathLib.leb x y); [done|]. rewrite IH. apply Permutation_swap.
Qed.

Lemma sorted_Permutation l : PathLib.sorted l ≡ₚ l.
Proof.
  induction l as [|x l IH]; simpl; [done|].
  by rewrite insert_sorted_Permutation, IH.
Qed.

Section OrderFacts.
Variable env : Env.
Variable metadata_lookup : gmap string MetaRecord.

Lemma visit_all_paths pdfs st :
  pc_path <$> (fold_left (Discover.visit_pdf metadata_lookup) pdfs st).1
  = (pc_path <$> st.1) ++ keep_first st.2 pdfs
  ∧ (fold_left (Discover.visit_pdf metadata_lookup) pdfs st).2
    = list_to_set pdfs ∪ st.2.
Proof.
  revert st. induction pdfs as [|p r IH]; intros st; simpl.
  - by rewrite app_nil_r, (left_id_L ∅ (∪)).
  - destruct (IH (Discover.visit_pdf metadata_lookup st p)) as [-> ->].
    unfold Discover.visit_pdf. cbv zeta.
    destruct (decide (p ∈ st.2)) as [Hin|Hout]; simpl.
    + split; [done|]. by rewrite union_absorb_elem.
    + rewrite fmap_app, <-app_assoc. simpl. split; [done|]. by rewrite union_shift.
Qed.

Lemma discover_in_paths folders st w :
  ∃ st' w',
    Discover.discover_in env folders metadata_lookup st w = (Ok st', w')
    ∧ pc_path <$> st'.1
      = (pc_path <$> st.1)
        ++ keep_first st.2 (concat (listing env (w_nodes w) <$> folders))
    ∧ st'.2 = list_to_set (concat (listing env (w_nodes w) <$> folders)) ∪ st.2.
Proof.
  revert st w. induction folders as [|f rest IH]; intros st w.
  - exists st, w. simpl. by rewrite app_nil_r, (left_id_L ∅ (∪)).
  - cbn [Discover.discover_in fmap list_fmap concat].
    rewrite (bind_ok _ _ _ _ _ (exists_run _ _ _)).
    unfold listing at 1 3. cbv zeta.
    destruct (FS.node_exists _ _); cbn [negb].
    + rewrite (bind_ok get_nodes _ w (w_nodes w) w eq_refl).
      match goal with
      | |- context [Discover.discover_in env rest metadata_lookup ?st1] =>
          destruct (IH st1 w) as (st' & w' & Hrun & Hp & Hs);
          destruct (visit_all_paths
                      (PathLib.sorted (FS.rglob_pdf env (w_nodes w)
                         (PathLib.expanduser (e_home env) (PathLib.of_str f)))) st)
            as [Hp1 Hs1]
      end.
      exists st', w'. split; [exact Hrun|].
      rewrite Hp, Hs, Hp1, Hs1, keep_first_app, <-app_assoc.
      split; [done|]. rewrite list_to_set_app_L.
      apply set_eq. intros x. rewrite !elem_of_union. tauto.
    + rewrite (bind_ok _ _ _ _ _ (log_msg_run _ _ _)).
      destruct (IH st (add_event (EvLog WARNING ("Input folder does not exist: " +:+ f)) w))
        as (st' & w' & Hrun & Hp & Hs).
      exists st', w'. split; [exact Hrun|]. simpl in Hp, Hs. by rewrite Hp, Hs.
Qed.

End OrderFacts.

(** X2.  [discover_papers] returns the candidates in the order the folders
    are configured, each folder's PDFs in ascending order of their paths,
    a path that was met before left out: the first occurrence wins. *)
Theorem candidates_follow_folder_then_path_order env folders metadata_sources w :
  (∃ papers w',
     Discover.discover_papers env folders metadata_sources w = (Ok papers, w')
     ∧ pc_path <$> papers
       = keep_first ∅ (concat (listing env (w_nodes w) <$> folders)))
  ∧ (∀ l, Sorted (λ p q, PathLib.leb p q = true) (PathLib.sorted l)
          ∧ PathLib.sorted l ≡ₚ l).
Proof.
  split.
  - unfold Discover.discover_papers.
    destruct (build_from_run env (default [] metadata_sources) ∅ w)
      as (w1 & Hb & Hn1 & _).
    unfold Discover._build_metadata_lookup. rewrite (bind_ok _ _ _ _ _ Hb).
    match goal with
    | |- context [Discover.discover_in env folders ?lk ?st] =>
        destruct (discover_in_paths env lk folders st w1) as (st' & w' & Hrun & Hp & _)
    end.
    rewrite (bind_ok _ _ _ _ _ Hrun). exists st'.1, w'. split; [done|].
    by rewrite Hp, Hn1.
  - intros l. split; [apply sorted_Sorted|apply sorted_Permutation].
Qed.

Lemma stem_nonempty p : PathLib.name p ≠ EmptyString → PathLib.stem p ≠ EmptyString.
Proof.
  unfold PathLib.stem. cbv zeta. intros Hn.
  destruct (Str.rfind_dot _) as [i|]; [|done].
  destruct ((0 <? i) && _) eqn:Hi; [|done].
  apply andb_true_iff in Hi as [Hi _]. apply Nat.ltb_lt in Hi.
  destruct i as [|i]; [lia|]. destruct (PathLib.name p); [done|]. simpl. done.
Qed.

Lemma opt_or_nonempty a b : b ≠ EmptyString → opt_or a b ≠ EmptyString.
Proof.
  intros Hb. destruct a as [s|]; simpl; [|done].
  unfold Str.truthy. case_bool_decide; simpl; done.
Qed.

Lemma rglob_pdf_name env nodes folder q :
  q ∈ FS.rglob_pdf env nodes folder → Str.endswith (PathLib.name q) ".pdf" = true.
Proof.
  unfold FS.rglob_pdf. rewrite list_elem_of_omap. intros (e & _ & He).
  destruct (FS.strip_prefix _ e) as [[|x rel]|]; try done.
  destruct (Str.endswith _ _) eqn:Hpdf; [|done]. injection He as <-.
  unfold PathLib.name in *. by rewrite last_app_cons.
Qed.

Section JoinFacts.
Variable env : Env.
Variable metadata_lookup : gmap string MetaRecord.

Lemma visit_all_filled pdfs st :
  Forall (λ q, Str.endswith (PathLib.name q) ".pdf" = true) pdfs →
  Forall (filled_from metadata_lookup) st.1 →
  Forall (filled_from metadata_lookup)
    (fold_left (Discover.visit_pdf metadata_lookup) pdfs st).1.
Proof.
  intros Hpdfs. revert st. induction Hpdfs as [|p r Hp _ IH]; intros st Hst; [done|].
  simpl. apply IH. unfold Discover.visit_pdf. cbv zeta.
  destruct (decide (p ∈ st.2)); [done|]. simpl. apply Forall_app. split; [done|].
  constructor; [|done]. repeat split; simpl; [done|].
  apply opt_or_nonempty, stem_nonempty. intros Hn.
  apply pdf_name_ordinary in Hp. rewrite Hn in Hp. apply Hp. by left.
Qed.

Lemma discover_in_filled folders st w :
  Forall (filled_from metadata_lookup) st.1 →
  ∃ st' w',
    Discover.discover_in env folders metadata_lookup st w = (Ok st', w')
    ∧ Forall (filled_from metadata_lookup) st'.1
    ∧ w_trace w'
      = w_trace w
        ++ ((λ folder, EvLog WARNING ("Input folder does not exist: " +:+ folder))
              <$> missing_folders env (w_nodes w) folders).
Proof.
  revert st w. induction folders as [|f rest IH]; intros st w Hst.
  - exists st, w. simpl. by rewrite app_nil_r.
  - cbn [Discover.discover_in]. rewrite (bind_ok _ _ _ _ _ (exists_run _ _ _)).
    unfold missing_folders. rewrite filter_cons.
    destruct (FS.node_exists _ _) eqn:Hex; cbn [negb].
    + rewrite (bind_ok get_nodes _ w (w_nodes w) w eq_refl).
      rewrite decide_False by done. apply IH. apply visit_all_filled; [|done].
      apply Forall_forall. intros q Hq. apply (proj1 (sorted_elem _ _)) in Hq. exact (rglob_pdf_name _ _ _ _ Hq).
    + rewrite (bind_ok _ _ _ _ _ (log_msg_run _ _ _)). rewrite decide_True by done.
      destruct (IH st (add_event (EvLog WARNING ("Input folder does not exist: " +:+ f)) w) Hst)
        as (st' & w' & Hrun & Hf & Ht).
      exists st', w'. split; [exact Hrun|]. split; [done|].
      rewrite Ht. simpl. by rewrite <-app_assoc.
Qed.

End JoinFacts.



(** X3.  Every candidate carries the record the lookup holds under its
    lower-cased file name, or an empty one; its title is the title of
    that record when it has one, else the stem of the file name; its file
    name ends in ".pdf" and its title is never empty. *)
Theorem candidates_carry_the_lookup_record env folders metadata_sources w :
  ∃ lookup w1 papers w',
    Discover._build_metadata_lookup env (default [] metadata_sources) w = (Ok lookup, w1)
    ∧ Discover.discover_papers env folders metadata_sources w = (Ok papers, w')
    ∧ Forall (filled_from lookup) papers.
Proof.
  unfold Discover.discover_papers, Discover._build_metadata_lookup.
  destruct (build_from_run env (default [] metadata_sources) ∅ w) as (w1 & Hb & _).
  match type of Hb with _ = (Ok ?lk, _) => set (lookup := lk) in * end.
  destruct (discover_in_filled env lookup folders ([], ∅) w1 ltac:(constructor))
    as (st' & w2 & Hin & Hf & _).
  exists lookup, w1, st'.1, w2. split; [done|].
  rewrite (bind_ok _ _ _ _ _ Hb), (bind_ok _ _ _ _ _ Hin). done.
Qed.

(** ** ui.py: the prompt *)

Lemma allowed_iff s : s ∈ UI.allowed ↔ s = "k" ∨ s = "r" ∨ s = "s".
Proof. unfold UI.allowed. rewrite !elem_of_cons, elem_of_nil. tauto. Qed.

Lemma prompt_loop_decides path pre line rest w :
  Forall (λ l, choice_of l ∉ UI.allowed) pre → choice_of line ∈ UI.allowed →
  UI.prompt_loop path (pre ++ line :: rest) w
  = (Ok (choice_of line), prompted path pre rest w).
Proof.
  intros Hpre Hline. revert w. induction Hpre as [|l pre Hl _ IH]; intros w; simpl.
  - fold (choice_of line). destruct (decide (choice_of line = "o")) as [Ho|_].
    { rewrite Ho in Hline. apply allowed_iff in Hline as [?|[?|?]]; discriminate. }
    rewrite bool_decide_eq_true_2 by done. unfold prompted, set_stdin. simpl.
    by rewrite app_nil_r.
  - fold (choice_of l). unfold prompted in *. rewrite filter_cons.
    destruct (decide (choice_of l = "o")) as [Ho|Hno].
    + rewrite IH. simpl. by rewrite <-app_assoc.
    + rewrite bool_decide_eq_false_2 by done. apply IH.
Qed.

Lemma prompt_loop_eof path lines w :
  Forall (λ l, choice_of l ∉ UI.allowed) lines →
  UI.prompt_loop path lines w = (Raise EOFError, prompted path lines [] w).
Proof.
  intros Hl. revert w. induction Hl as [|l lines Hl _ IH]; intros w; simpl.
  - unfold prompted, set_stdin. simpl. by rewrite app_nil_r.
  - fold (choice_of l). unfold prompted in *. rewrite filter_cons.
    destruct (decide (choice_of l = "o")) as [Ho|Hno].
    + rewrite IH. simpl. by rewrite <-app_assoc.
    + rewrite bool_decide_eq_false_2 by done. apply IH.
Qed.

(** X4.  The prompt reads the input line by line up to the first line that
    names a decision and returns that decision, lower-cased and
    stripped; an empty line stands for "k".  Every "o" on the way opens
    the file once and is not a decision, any other line is passed over;
    when the input ends before a decision the prompt raises EOFError. *)
Theorem prompt_returns_the_first_decision_typed paper summary dry_run w :
  (∀ pre line rest,
     w_stdin w = pre ++ line :: rest →
     Forall (λ l, choice_of l ∉ UI.allowed) pre → choice_of line ∈ UI.allowed →
     UI._prompt_for_decision paper summary dry_run w
     = (Ok (choice_of line), prompted (pc_path paper) pre rest w))
  ∧ (Forall (λ l, choice_of l ∉ UI.allowed) (w_stdin w) →
     UI._prompt_for_decision paper summary dry_run w
     = (Raise EOFError, prompted (pc_path paper) (w_stdin w) [] w))
  ∧ choice_of EmptyString = "k"
  ∧ choice_of "o" ∉ UI.allowed.
Proof.
  split; [|split; [|split]].
  - intros pre line rest Hin Hpre Hline. unfold UI._prompt_for_decision.
    rewrite Hin. by apply prompt_loop_decides.
  - intros Hall. unfold UI._prompt_for_decision. by apply prompt_loop_eof.
  - reflexivity.
  - rewrite allowed_iff. intros [?|[?|?]]; discriminate.
Qed.

Lemma prompt_returns_the_first_decision_typed_witness :
  UI._prompt_for_decision
    {| pc_path := ["a"; "x.pdf"]; pc_title := "x"; pc_metadata := ∅ |}
    "A summary." false (set_stdin ["o"; "what?"; " R "; "s"] Example.world)
  = (Ok "r",
     {| w_nodes := Example.nodes; w_stdin := ["s"]; w_ticks := 0; w_cache := ∅;
        w_trace := [EvOpenFile ["a"; "x.pdf"]] |}).
Proof.
  apply (proj1 (prompt_returns_the_first_decision_typed
                  {| pc_path := ["a"; "x.pdf"]; pc_title := "x"; pc_metadata := ∅ |}
                  "A summary." false (set_stdin ["o"; "what?"; " R "; "s"] Example.world))
           ["o"; "what?"] " R " ["s"]).
  - reflexivity.
  - repeat constructor; rewrite allowed_iff; intros [?|[?|?]]; discriminate.
  - apply allowed_iff. right. left. reflexivity.
Defined.

(** ** extract.py, summarize.py and the cache of summaries *)

Lemma str_take_length n s : String.length (Str.take n s) ≤ n.
Proof.
  revert s. induction n as [|n IH]; intros [|c r]; simpl; try lia.
  specialize (IH r). lia.
Qed.

Lemma str_take_prefix n s : ∃ rest, s = Str.take n s +:+ rest.
Proof. exists (Str.drop n s). by rewrite str_take_drop. Qed.

Lemma read_chunks_prefix pages total max_chars :
  ∃ k, Summarize.read_chunks pages total max_chars = take k pages.
Proof.
  revert total. induction pages as [|chunk rest IH]; intros total; simpl.
  - by exists 0.
  - destruct (_ <=? _)%Z.
    + exists 1. simpl. by rewrite take_0.
    + destruct (IH (total + Summarize.len chunk)%Z) as [k ->]. by exists (S k).
Qed.

Lemma rstrip_idem s : Str.rstrip (Str.rstrip s) = Str.rstrip s.
Proof.
  induction s as [|c r IH]; [done|]. simpl.
  destruct (Str.rstrip r) as [|c' r'] eqn:Hr.
  - destruct (Str.is_space c) eqn:Hc; [done|]. simpl. by rewrite Hc.
  - change (Str.rstrip (String c (String c' r')))
      with (match Str.rstrip (String c' r') with
            | EmptyString => if Str.is_space c then EmptyString else String c EmptyString
            | String a b => String c (String a b)
            end).
    by rewrite IH.
Qed.

Lemma lstrip_head s :
  Str.lstrip s = EmptyString
  ∨ ∃ c r, Str.lstrip s = String c r ∧ Str.is_space c = false.
Proof.
  induction s as [|c r IH]; [by left|]. simpl.
  destruct (Str.is_space c) eqn:Hc; [done|]. right. by exists c, r.
Qed.

Lemma rstrip_head c r :
  Str.is_space c = false → ∃ r', Str.rstrip (String c r) = String c r'.
Proof.
  intros Hc. simpl. destruct (Str.rstrip r); [|by eexists]. rewrite Hc. by eexists.
Qed.

Lemma strip_stripped s : stripped (Str.strip s).
Proof.
  unfold stripped, Str.strip. split; [|apply rstrip_idem].
  destruct (lstrip_head s) as [->|(c & r & -> & Hc)]; [done|].
  destruct (rstrip_head c r Hc) as [r' ->]. simpl. by rewrite Hc.
Qed.

Section SummaryFacts.
Variable env : Env.

Lemma logs_only_extract_text path max_pages max_chars :
  respects logs_only (Summarize.extract_text env path max_pages max_chars).
Proof.
  unfold Summarize.extract_text. destruct (_ <=? _)%Z.
  { apply (respects_raise logs_only). }
  destruct (e_pdf_pages _ _).
  - cbv zeta. destruct (_ <? _)%Z; apply (respects_ret logs_only).
  - apply (respects_bind logs_only); [apply logs_only_log|].
    intros _. apply (respects_ret logs_only).
Qed.

Lemma logs_only_summarize_text text model :
  respects logs_only (Summarize.summarize_text env text model).
Proof.
  unfold Summarize.summarize_text. destruct (negb _).
  { apply (respects_ret logs_only). }
  destruct (negb _).
  { apply (respects_raise logs_only). }
  destruct (e_ollama_chat _ _ _).
  - apply (respects_ret logs_only).
  - apply (respects_bind logs_only); [apply logs_only_log|].
    intros _. apply (respects_ret logs_only).
Qed.

(** What one call of [_summarize] leaves behind: the call itself, then
    log messages. *)
Lemma summarize_run model max_pages max_chars path w r w' :
  Main._summarize env model max_pages max_chars path w = (r, w') →
  logs_only (add_event (EvSummarize path) w) w'.
Proof.
  unfold Main._summarize. intros H.
  apply bind_inv in H as [(u & w1 & He & H)|(e & He & _)]; [|discriminate].
  injection He as _ <-.
  revert H. apply (respects_bind logs_only);
    [apply logs_only_extract_text|intros text; apply logs_only_summarize_text].
Qed.

Lemma summary_wrapper_hit model max_pages max_chars paper w summary :
  w_cache w !! pc_path paper = Some summary →
  Main.summary_wrapper env model max_pages max_chars paper w = (Ok summary, w).
Proof. intros H. unfold Main.summary_wrapper. by rewrite H. Qed.

Lemma summary_wrapper_miss model max_pages max_chars paper w r w' :
  w_cache w !! pc_path paper = None →
  Main.summary_wrapper env model max_pages max_chars paper w = (r, w') →
  w_nodes w' = w_nodes w ∧ w_stdin w' = w_stdin w ∧ w_ticks w' = w_ticks w
  ∧ (∃ logs, w_trace w' = w_trace w ++ EvSummarize (pc_path paper) :: logs
             ∧ Forall (λ ev, is_log ev = true) logs)
  ∧ w_cache w'
    = match r with
      | Ok summary => <[pc_path paper := summary]> (w_cache w)
      | Raise _ => w_cache w
      end.
Proof.
  intros Hmiss. unfold Main.summary_wrapper. rewrite Hmiss.
  destruct (Main._summarize env model max_pages max_chars (pc_path paper) w)
    as [[summary|e] w1] eqn:Hs;
    apply summarize_run in Hs as (Hn & Hi & Ht & Hc & logs & Hl & Hf);
    intros [= <- <-]; simpl in *; rewrite <-?app_assoc in Hl;
    (repeat split; [done..| |by rewrite ?Hc]); by exists logs.
Qed.

Lemma prompt_loop_run path lines w r w' :
  UI.prompt_loop path lines w = (r, w') →
  w_cache w' = w_cache w
  ∧ ∃ evs, w_trace w' = w_trace w ++ evs ∧ summarized evs = [].
Proof.
  revert w. induction lines as [|line rest IH]; intros w; simpl.
  - intros [= _ <-]. split; [done|]. exists []. by rewrite app_nil_r.
  - destruct (decide _).
    + intros (Hc & evs & Ht & Hs)%IH. split; [done|].
      exists (EvOpenFile path :: evs). simpl in Ht. by rewrite <-app_assoc in Ht.
    + destruct (bool_decide _); [|apply IH].
      intros [= _ <-]. split; [done|]. exists []. by rewrite app_nil_r.
Qed.

Lemma summarized_logs logs : Forall (λ ev, is_log ev = true) logs → summarized logs = [].
Proof.
  induction 1 as [|ev logs Hev _ IH]; [done|]. by destruct ev.
Qed.

Lemma triage_from_memo model max_pages max_chars papers dry auto acc w actions w' :
  UI.triage_from papers (Main.summary_wrapper env model max_pages max_chars)
    dry auto acc w = (Ok actions, w') →
  ∃ evs new,
    actions = acc ++ new
    ∧ w_trace w' = w_trace w ++ evs
    ∧ NoDup (summarized evs)
    ∧ (∀ p, p ∈ summarized evs ↔ p ∈ pc_path <$> papers ∧ w_cache w !! p = None)
    ∧ (∀ p s, w_cache w !! p = Some s → w_cache w' !! p = Some s)
    ∧ Forall (λ a : Action, w_cache w' !! pc_path a.1.1 = Some a.1.2) new.
Proof.
  revert acc w. induction papers as [|paper rest IH]; intros acc w; simpl.
  - intros [= <- <-]. exists [], []. rewrite !app_nil_r.
    split; [done|]. split; [done|]. split; [apply NoDup_nil_2|].
    split; [|done]. intros p. simpl. rewrite elem_of_nil. tauto.
  - intros H. apply bind_ok_inv in H as (summary & w1 & Hsum & H).
    apply bind_ok_inv in H as (decision & w2 & Hdec & H).
    apply IH in H as (evs2 & new & -> & Ht2 & Hnd2 & Hin2 & Hgrow2 & Hnew).
    assert (w_cache w2 = w_cache w1
            ∧ ∃ evsd, w_trace w2 = w_trace w1 ++ evsd ∧ summarized evsd = [])
      as (Hc21 & evsd & Htd & Hsd).
    { destruct (UI.mode_given auto).
      - injection Hdec as _ <-. split; [done|]. exists []. by rewrite app_nil_r.
      - by apply prompt_loop_run in Hdec. }
    destruct (w_cache w !! pc_path paper) as [cached|] eqn:Hcache.
    + rewrite (summary_wrapper_hit _ _ _ _ _ _ Hcache) in Hsum.
      injection Hsum as <- <-.
      exists (evsd ++ evs2), ((paper, cached, decision) :: new).
      split; [by rewrite <-app_assoc|].
      split; [by rewrite Ht2, Htd, app_assoc|].
      unfold summarized in *. rewrite omap_app, Hsd. simpl.
      split; [done|]. split.
      { intros p. rewrite Hin2, Hc21, elem_of_cons. split; [tauto|].
        intros [[->|?] Hp]; [congruence|done]. }
      split; [intros p s Hp; apply Hgrow2; by rewrite Hc21|].
      constructor; [|done]. simpl. apply Hgrow2. by rewrite Hc21.
    + apply (summary_wrapper_miss _ _ _ _ _ _ _ Hcache) in Hsum
        as (_ & _ & _ & (logs & Htl & Hlogs) & Hc1).
      exists (EvSummarize (pc_path paper) :: logs ++ evsd ++ evs2),
        ((paper, summary, decision) :: new).
      split; [by rewrite <-app_assoc|].
      split; [by rewrite Ht2, Htd, Htl, <-!app_assoc|].
      assert (summarized (EvSummarize (pc_path paper) :: logs ++ evsd ++ evs2)
              = pc_path paper :: summarized evs2) as ->.
      { unfold summarized in *. simpl. rewrite !omap_app, Hsd.
        fold (summarized logs). by rewrite (summarized_logs _ Hlogs). }
      assert (∀ p, w_cache w2 !! p = None ↔ p ≠ pc_path paper ∧ w_cache w !! p = None)
        as Hnone.
      { intros p. rewrite Hc21, Hc1. destruct (decide (p = pc_path paper)) as [->|Hne].
        - rewrite lookup_insert_eq. split; [done|]. by intros [[] _].
        - rewrite lookup_insert_ne by done. tauto. }
      split.
      { constructor; [|done]. rewrite Hin2, Hnone. by intros (_ & [] & _). }
      split.
      { intros p. rewrite !elem_of_cons, Hin2, Hnone. split.
        - intros [->|(? & ? & ?)]; tauto.
        - intros [[->|?] ?]; [by left|].
          destruct (decide (p = pc_path paper)); [by left|by right]. }
      split.
      { intros p s Hp. apply Hgrow2. rewrite Hc21, Hc1.
        rewrite lookup_insert_ne; [done|]. intros <-. congruence. }
      constructor; [|done]. simpl. apply Hgrow2. rewrite Hc21, Hc1.
      apply lookup_insert_eq.
Qed.

End SummaryFacts.

(** X5.  The summaries of a run are memoised by path: while the papers are
    triaged, a path is sent to the summariser at most once, and exactly
    the paths without a cached summary are sent; every action carries the
    summary the cache holds for its path, so two candidates with the same
    path get the same summary. *)
Theorem each_path_is_summarised_once env model max_pages max_chars
    papers dry_run auto_decision w actions w' :
  UI.triage_papers papers (Main.summary_wrapper env model max_pages max_chars)
    dry_run auto_decision w = (Ok actions, w') →
  ∃ evs,
    w_trace w' = w_trace w ++ evs
    ∧ NoDup (summarized evs)
    ∧ (∀ p, p ∈ summarized evs ↔ p ∈ pc_path <$> papers ∧ w_cache w !! p = None)
    ∧ Forall (λ a : Action, w_cache w' !! pc_path a.1.1 = Some a.1.2) actions.
Proof.
  intros H. apply triage_from_memo in H as (evs & new & -> & Ht & Hnd & Hin & _ & Hnew).
  by exists evs.
Qed.

Lemma each_path_is_summarised_once_witness :
  let twice := [{| pc_path := ["a"; "x.pdf"]; pc_title := "x"; pc_metadata := ∅ |};
                {| pc_path := ["a"; "x.pdf"]; pc_title := "again"; pc_metadata := ∅ |}] in
  ∃ evs,
    w_trace (UI.triage_papers twice
               (Main.summary_wrapper Example.env "llama3.2:latest" 3 4000)
               false (Some "keep") Example.world).2
    = w_trace Example.world ++ evs
    ∧ NoDup (summarized evs).
Proof.
  intros twice.
  destruct (each_path_is_summarised_once Example.env "llama3.2:latest" 3 4000
              twice false (Some "keep") Example.world
              ((λ paper, (paper, "A summary.", "k")) <$> twice)
              (UI.triage_papers twice
                 (Main.summary_wrapper Example.env "llama3.2:latest" 3 4000)
                 false (Some "keep") Example.world).2)
    as (evs & Ht & Hnd & _).
  - vm_compute. reflexivity.
  - by exists evs.
Defined.

Lemma read_pages_run pdf_path index pages total max_chars w :
  ∃ chunks w' k,
    Extract.read_pages pdf_path index pages total max_chars w = (Ok chunks, w')
    ∧ logs_only w w'
    ∧ chunks = omap id (take k pages).
Proof.
  revert index total w. induction pages as [|[chunk|] rest IH]; intros index total w; simpl.
  - exists [], w, 0. split; [done|]. split; [reflexivity|done].
  - destruct (_ <=? _)%Z.
    + exists [chunk], w, 1. split; [done|]. split; [reflexivity|].
      by destruct rest.
    + destruct (IH (S index) (total + Summarize.len chunk)%Z w)
        as (chunks & w' & k & Hrun & Hlogs & ->).
      exists (chunk :: omap id (take k rest)), w', (S k).
      by rewrite (bind_ok _ _ _ _ _ Hrun).
  - rewrite (bind_ok _ _ _ _ _ (log_msg_run _ _ _)).
    destruct (IH (S index) total
                (add_event (EvLog WARNING ("Failed to extract page " +:+ pretty index
                   +:+ " from " +:+ PathLib.to_str pdf_path)) w))
      as (chunks & w' & k & Hrun & Hlogs & ->).
    exists (omap id (take k rest)), w', (S k). split; [done|]. split; [|done].
    etransitivity; [|exact Hlogs]. by eapply logs_only_log.
Qed.

Lemma read_pages_all_extract pdf_path index pages total max_chars w :
  Extract.read_pages pdf_path index (Some <$> pages) total max_chars w
  = (Ok (Summarize.read_chunks pages total max_chars), w).
Proof.
  revert index total. induction pages as [|chunk rest IH]; intros index total; simpl; [done|].
  destruct (_ <=? _)%Z; [done|]. by rewrite (bind_ok _ _ _ _ _ (IH _ _)).
Qed.

(** [Summarize.extract_text] is [Extract.extract_text] on a reader all of
    whose pages extract. *)
Lemma extract_text_all_extract env pdf_path max_pages max_chars w :
  Summarize.extract_text env pdf_path max_pages max_chars w
  = Extract.extract_text
      ((λ pages : list string, Some <$> pages) <$> e_pdf_pages env (FS.resolve env pdf_path))
      pdf_path max_pages max_chars w.
Proof.
  unfold Summarize.extract_text, Extract.extract_text.
  destruct (_ <=? _)%Z; [done|]. destruct (e_pdf_pages _ _) as [pages|]; simpl; [|done].
  by rewrite <-fmap_take, (bind_ok _ _ _ _ _ (read_pages_all_extract _ _ _ _ _ _)).
Qed.

(** X6.  [extract_text] refuses a page limit that is not positive; with
    a positive one it never raises and emits nothing but log messages.
    An unreadable PDF gives the empty text.  Otherwise the text is a
    prefix of the texts, joined by newlines, of the pages that extract
    among the first [k] pages, for a [k] within the page limit; and it is
    at most [max_chars] characters long when [max_chars] is not
    negative.  The extraction of a run is the case of a reader all of
    whose pages extract. *)
Theorem extract_text_reads_a_bounded_prefix reader pdf_path max_pages max_chars w :
  (∀ env,
     Summarize.extract_text env pdf_path max_pages max_chars w
     = Extract.extract_text
         ((λ pages : list string, Some <$> pages)
            <$> e_pdf_pages env (FS.resolve env pdf_path))
         pdf_path max_pages max_chars w)
  ∧ ((max_pages ≤ 0)%Z →
   Extract.extract_text reader pdf_path max_pages max_chars w
   = (Raise (ValueError "max_pages must be positive"), w))
  ∧ ((0 < max_pages)%Z →
     ∃ text w',
       Extract.extract_text reader pdf_path max_pages max_chars w = (Ok text, w')
       ∧ logs_only w w'
       ∧ ((0 ≤ max_chars)%Z → (Summarize.len text ≤ max_chars)%Z)
       ∧ match reader with
         | None => text = EmptyString
         | Some pages =>
             ∃ k rest, k ≤ Z.to_nat max_pages
               ∧ Str.join Summarize.nl (omap id (take k pages)) = text +:+ rest
         end).
Proof.
  split; [intros env; apply extract_text_all_extract|].
  unfold Extract.extract_text. split.
  - intros H. apply Z.leb_le in H. by rewrite H.
  - intros H. apply Z.leb_gt in H. rewrite H. destruct reader as [pages|].
    + destruct (read_pages_run pdf_path 0 (take (Z.to_nat max_pages) pages) 0 max_chars w)
        as (chunks & w' & k & Hrun & Hlogs & Hchunks).
      rewrite (bind_ok _ _ _ _ _ Hrun). cbv zeta.
      rewrite take_take in Hchunks.
      destruct (_ <? _)%Z eqn:Hlong.
      * eexists _, w'. split; [reflexivity|]. split; [done|]. split.
        { intros Hmc. unfold Summarize.slice_to, Summarize.len.
          apply Z.leb_le in Hmc. rewrite Hmc.
          pose proof (str_take_length (Z.to_nat max_chars) (Str.join Summarize.nl chunks)).
          apply Z.leb_le in Hmc. lia. }
        exists (k `min` Z.to_nat max_pages). rewrite <-Hchunks.
        unfold Summarize.slice_to. destruct (0 <=? max_chars)%Z.
        -- destruct (str_take_prefix (Z.to_nat max_chars) (Str.join Summarize.nl chunks))
             as [rest Hrest].
           exists rest. split; [lia|done].
        -- destruct (str_take_prefix
                       (Z.to_nat (Summarize.len (Str.join Summarize.nl chunks) + max_chars))
                       (Str.join Summarize.nl chunks)) as [rest Hrest].
           exists rest. split; [lia|done].
      * eexists _, w'. split; [reflexivity|]. split; [done|]. split.
        { intros _. apply Z.ltb_ge in Hlong. done. }
        exists (k `min` Z.to_nat max_pages), EmptyString. rewrite <-Hchunks.
        split; [lia|]. by rewrite str_app_nil_r.
    + rewrite (bind_ok _ _ _ _ _ (log_msg_run _ _ _)).
      eexists _, _. split; [reflexivity|]. split; [by eapply logs_only_log|].
      split; [|done]. intros ?. unfold Summarize.len. simpl. lia.
Qed.

Lemma extract_text_reads_a_bounded_prefix_witness :
  ∃ text w',
    Extract.extract_text (Some [Some "abc"; None; Some "defgh"; Some "i"])
      ["a"; "x.pdf"] 3 5 Example.world = (Ok text, w')
    ∧ (Summarize.len text ≤ 5)%Z.
Proof.
  destruct (proj2 (proj2 (extract_text_reads_a_bounded_prefix
                     (Some [Some "abc"; None; Some "defgh"; Some "i"])
                     ["a"; "x.pdf"] 3 5 Example.world)) ltac:(lia))
    as (text & w' & Hrun & _ & Hlen & _).
  exists text, w'. split; [exact Hrun|apply Hlen; lia].
Defined.

(** X7.  [summarize_text] answers a blank text itself, without asking for
    the model and whether or not the ollama package is there.  For any
    other text it raises RuntimeError when the package is missing, and
    otherwise always returns: a fixed sentence when the call fails, else
    the reply without surrounding blanks. *)
Theorem summarize_text_outcomes env text model w :
  (Str.strip text = EmptyString →
   Summarize.summarize_text env text model w
   = (Ok "No extractable text found in the PDF.", w))
  ∧ (Str.strip text ≠ EmptyString → e_ollama_installed env = false →
     ∃ msg, Summarize.summarize_text env text model w = (Raise (RuntimeError msg), w))
  ∧ (Str.strip text ≠ EmptyString → e_ollama_installed env = true →
     ∃ summary w',
       Summarize.summarize_text env text model w = (Ok summary, w')
       ∧ logs_only w w'
       ∧ stripped summary
       ∧ (e_ollama_chat env model
            (Summarize.SUMMARY_PROMPT +:+ Summarize.nl +:+ Summarize.nl +:+ text) = None →
          summary = "Ollama call failed. Check local model/runtime.")).
Proof.
  unfold Summarize.summarize_text, Str.truthy. split; [|split].
  - intros ->. by rewrite bool_decide_eq_true_2.
  - intros Hne ->. rewrite bool_decide_eq_false_2 by done. simpl. by eexists.
  - intros Hne ->. rewrite bool_decide_eq_false_2 by done. simpl.
    destruct (e_ollama_chat _ _ _) as [content|].
    + eexists _, w. split; [reflexivity|]. split; [reflexivity|].
      split; [apply strip_stripped|done].
    + rewrite (bind_ok _ _ _ _ _ (log_msg_run _ _ _)).
      eexists _, _. split; [reflexivity|]. split; [by eapply logs_only_log|].
      split; [|done]. by split.
Qed.

Lemma summarize_text_outcomes_witness :
  Summarize.summarize_text Example.env "   " "llama3.2:latest" Example.world
  = (Ok "No extractable text found in the PDF.", Example.world)
  ∧ ∃ summary w',
      Summarize.summarize_text Example.env "Some text" "llama3.2:latest" Example.world
      = (Ok summary, w') ∧ stripped summary.
Proof.
  destruct (summarize_text_outcomes Example.env "   " "llama3.2:latest" Example.world)
    as (Hblank & _).
  destruct (summarize_text_outcomes Example.env "Some text" "llama3.2:latest" Example.world)
    as (_ & _ & Hrun).
  split; [apply Hblank; reflexivity|].
  destruct Hrun as (summary & w' & Hrun & _ & Hs & _); [discriminate|reflexivity|].
  by exists summary, w'.
Defined.

Section SummaryFailures.
Variable env : Env.

Lemma extract_text_returns path max_pages max_chars w :
  (0 < max_pages)%Z →
  ∃ text w', Summarize.extract_text env path max_pages max_chars w = (Ok text, w').
Proof.
  intros H. apply Z.leb_gt in H. unfold Summarize.extract_text. rewrite H.
  destruct (e_pdf_pages _ _); cbv zeta.
  - destruct (_ <? _)%Z; by eexists _, _.
  - rewrite (bind_ok _ _ _ _ _ (log_msg_run _ _ _)). by eexists _, _.
Qed.

Lemma summarize_text_returns text model w :
  e_ollama_installed env = true →
  ∃ summary w', Summarize.summarize_text env text model w = (Ok summary, w').
Proof.
  intros Hinst. unfold Summarize.summarize_text. rewrite Hinst.
  destruct (negb (Str.truthy _)); [by eexists _, _|]. simpl.
  destruct (e_ollama_chat _ _ _); [by eexists _, _|].
  rewrite (bind_ok _ _ _ _ _ (log_msg_run _ _ _)). by eexists _, _.
Qed.

(** The summary of a path that is not cached, case by case. *)
Lemma summary_wrapper_outcomes model max_pages max_chars paper w :
  w_cache w !! pc_path paper = None →
  let w1 := add_event (EvSummarize (pc_path paper)) w in
  ((max_pages ≤ 0)%Z →
   Main.summary_wrapper env model max_pages max_chars paper w
   = (Raise (ValueError "max_pages must be positive"), w1))
  ∧ ((0 < max_pages)%Z → e_pdf_pages env (FS.resolve env (pc_path paper)) = None →
     Main.summary_wrapper env model max_pages max_chars paper w
     = (Ok "No extractable text found in the PDF.",
        set_cache (<[pc_path paper := "No extractable text found in the PDF."]> (w_cache w))
          (add_event (EvLog ERROR ("Unable to read PDF " +:+ PathLib.to_str (pc_path paper)))
             w1)))
  ∧ ((0 < max_pages)%Z → e_ollama_installed env = true →
     ∃ summary w',
       Main.summary_wrapper env model max_pages max_chars paper w = (Ok summary, w'))
  ∧ (∀ e w',
       Main.summary_wrapper env model max_pages max_chars paper w = (Raise e, w') →
       ((max_pages ≤ 0)%Z ∧ e = ValueError "max_pages must be positive")
       ∨ (e_ollama_installed env = false ∧ ∃ msg, e = RuntimeError msg)).
Proof.
  intros Hmiss w1. unfold Main.summary_wrapper. rewrite Hmiss.
  unfold Main._summarize. rewrite (bind_ok _ _ _ _ _ (eq_refl : emit _ w = (Ok tt, w1))).
  split; [|split; [|split]].
  - intros H. apply Z.leb_le in H. unfold Summarize.extract_text. rewrite H. done.
  - intros H Hpdf. apply Z.leb_gt in H. unfold Summarize.extract_text.
    rewrite H, Hpdf. unfold mbind, M_bind, log_msg, emit, mret, M_ret. done.
  - intros H Hinst.
    destruct (extract_text_returns (pc_path paper) max_pages max_chars w1 H)
      as (text & w2 & Hex).
    rewrite (bind_ok _ _ _ _ _ Hex).
    destruct (summarize_text_returns text model w2 Hinst) as (summary & w3 & ->).
    by eexists _, _.
  - intros e w' Hrun.
    destruct ((Summarize.extract_text env (pc_path paper) max_pages max_chars ≫= _) w1)
      as [[s|e1] w2] eqn:Hr; [discriminate|]. injection Hrun as -> ->.
    apply bind_inv in Hr as [(text & w3 & Hex & Hsum)|(e' & Hex & [= ->])].
    + right. unfold Summarize.summarize_text in Hsum.
      destruct (negb (Str.truthy _)); [discriminate|].
      destruct (e_ollama_installed env); simpl in Hsum.
      * destruct (e_ollama_chat _ _ _); [discriminate|].
        rewrite (bind_ok _ _ _ _ _ (log_msg_run _ _ _)) in Hsum. discriminate.
      * injection Hsum as <- _. split; [done|by eexists].
    + unfold Summarize.extract_text in Hex.
      destruct (max_pages <=? 0)%Z eqn:Hmp.
      { injection Hex as <- _. left. by apply Z.leb_le in Hmp. }
      destruct (e_pdf_pages _ _); cbv zeta in Hex.
      * destruct (_ <? _)%Z; discriminate.
      * rewrite (bind_ok _ _ _ _ _ (log_msg_run _ _ _)) in Hex. discriminate.
Qed.

End SummaryFailures.

(** X8.  The summary of a path that is not cached fails in two cases only:
    a page limit that is not positive (ValueError) and a missing ollama
    package (RuntimeError); a failure is not cached.  An unreadable PDF
    is no failure: its summary is a fixed sentence, reached without the
    model.  With a page limit that is not positive the triage stops at
    the first paper, before any decision. *)
Theorem summary_fails_for_a_bad_limit_or_missing_ollama env model max_pages max_chars
    paper w :
  w_cache w !! pc_path paper = None →
  let w1 := add_event (EvSummarize (pc_path paper)) w in
  ((max_pages ≤ 0)%Z →
   Main.summary_wrapper env model max_pages max_chars paper w
   = (Raise (ValueError "max_pages must be positive"), w1)
   ∧ ∀ rest dry_run auto_decision,
       UI.triage_papers (paper :: rest)
         (Main.summary_wrapper env model max_pages max_chars) dry_run auto_decision w
       = (Raise (ValueError "max_pages must be positive"), w1))
  ∧ ((0 < max_pages)%Z → e_pdf_pages env (FS.resolve env (pc_path paper)) = None →
     Main.summary_wrapper env model max_pages max_chars paper w
     = (Ok "No extractable text found in the PDF.",
        set_cache (<[pc_path paper := "No extractable text found in the PDF."]> (w_cache w))
          (add_event (EvLog ERROR ("Unable to read PDF " +:+ PathLib.to_str (pc_path paper)))
             w1)))
  ∧ ((0 < max_pages)%Z → e_ollama_installed env = true →
     ∃ summary w',
       Main.summary_wrapper env model max_pages max_chars paper w = (Ok summary, w'))
  ∧ (∀ e w',
       Main.summary_wrapper env model max_pages max_chars paper w = (Raise e, w') →
       w_cache w' = w_cache w
       ∧ (((max_pages ≤ 0)%Z ∧ e = ValueError "max_pages must be positive")
          ∨ (e_ollama_installed env = false ∧ ∃ msg, e = RuntimeError msg))).
Proof.
  intros Hmiss w1.
  destruct (summary_wrapper_outcomes env model max_pages max_chars paper w Hmiss)
    as (Hbad & Hunread & Hok & Hraise).
  split; [|split; [|split]]; [|done|done|].
  - intros H. split; [by apply Hbad|]. intros rest dry_run auto_decision.
    unfold UI.triage_papers. simpl. unfold mbind, M_bind. by rewrite (Hbad H).
  - intros e w' Hrun. split; [|by eapply Hraise].
    by apply (summary_wrapper_miss _ _ _ _ _ _ _ _ Hmiss) in Hrun as (_ & _ & _ & _ & ->).
Qed.

Lemma summary_fails_for_a_bad_limit_or_missing_ollama_witness :
  UI.triage_papers
    [{| pc_path := ["a"; "x.pdf"]; pc_title := "x"; pc_metadata := ∅ |}]
    (Main.summary_wrapper Example.env "llama3.2:latest" (-1) 4000)
    false (Some "remove") Example.world
  = (Raise (ValueError "max_pages must be positive"),
     add_event (EvSummarize ["a"; "x.pdf"]) Example.world).
Proof.
  apply (proj1 (summary_fails_for_a_bad_limit_or_missing_ollama Example.env
                  "llama3.2:latest" (-1) 4000
                  {| pc_path := ["a"; "x.pdf"]; pc_title := "x"; pc_metadata := ∅ |}
                  Example.world eq_refl) ltac:(lia)).
Defined.

(** ** main.py: the moves of the loop *)

Section MoveFacts.
Variable env : Env.

Lemma archive_paper_target archive_dir paper w target w' :
  Main.archive_paper env archive_dir paper w = (Ok target, w') →
  archive_target archive_dir (pc_path paper) target
  ∧ FS.node_exists (w_nodes w) (FS.resolve env target) = false.
Proof.
  unfold Main.archive_paper.
  destruct (unique_target_run env
              (PathLib.joinpath archive_dir (PathLib.name (pc_path paper))) w)
    as (p & Hrun & Hp).
  rewrite (bind_ok _ _ _ _ _ Hrun).
  intros ([] & w1 & _ & [= <- <-])%bind_ok_inv.
  split; [|by eapply unique_target_in_free].
  unfold Main.unique_target_in in Hp. unfold archive_target. cbv zeta.
  destruct (negb _).
  - left. by injection Hp.
  - right. apply unique_from_some in Hp as (k & Hk & -> & _). by exists k.
Qed.

Lemma archive_and_log_moves archive_dir log_path dry_run action w entry w' :
  Main.archive_and_log env archive_dir log_path dry_run action w = (Ok entry, w') →
  if bool_decide (action.2 = "r") && negb dry_run
  then ∃ target, w_trace w' = w_trace w ++ [EvMove (pc_path action.1.1) target]
                 ∧ archive_target archive_dir (pc_path action.1.1) target
  else w_trace w' = w_trace w.
Proof.
  destruct action as [[paper summary] decision]. unfold Main.archive_and_log. simpl.
  intros ([] & w1 & Hmove & H)%bind_ok_inv.
  apply bind_ok_inv in H as (timestamp & w2 & [= <- <-] & H).
  apply bind_ok_inv in H as ([] & w3 & Happend & [= <- <-]).
  apply append_log_entry_inv in Happend as (Ht & _). simpl in Ht.
  destruct (bool_decide (decision = "r") && negb dry_run).
  - apply bind_ok_inv in Hmove as (target & w0 & Harch & [= <-]).
    exists target. split.
    + apply archive_paper_inv in Harch as [Htrace _]. congruence.
    + by apply archive_paper_target in Harch as [? _].
  - injection Hmove as <-. done.
Qed.

Lemma process_actions_moves archive_dir log_path dry_run actions log_entries w entries w' :
  Main.process_actions env archive_dir log_path dry_run actions log_entries w
  = (Ok entries, w') →
  ∃ moved,
    w_trace w' = w_trace w ++ ((λ m : Path * Path, EvMove m.1 m.2) <$> moved)
    ∧ moved.*1 = (if dry_run then [] else pc_path <$> removed actions)
    ∧ Forall (λ m : Path * Path, archive_target archive_dir m.1 m.2) moved.
Proof.
  revert log_entries w. induction actions as [|action rest IH]; intros acc w; simpl.
  - intros [= _ <-]. exists []. rewrite app_nil_r. by destruct dry_run.
  - intros (entry & w1 & Hstep & H)%bind_ok_inv.
    apply IH in H as (moved & Ht & Hsrc & Htgt).
    apply archive_and_log_moves in Hstep. unfold removed in *. rewrite filter_cons.
    destruct (decide (action.2 = "r")) as [Hr|Hr].
    + rewrite (bool_decide_eq_true_2 _ Hr) in Hstep. destruct dry_run; simpl in *.
      * exists moved. by rewrite Ht, Hstep.
      * destruct Hstep as (target & Ht1 & Htarget).
        exists ((pc_path action.1.1, target) :: moved).
        split; [by rewrite Ht, Ht1, <-app_assoc|].
        split; [by rewrite !fmap_cons, Hsrc|].
        by constructor.
    + rewrite (bool_decide_eq_false_2 _ Hr) in Hstep. simpl in Hstep.
      exists moved. by rewrite Ht, Hstep.
Qed.

End MoveFacts.

(** X9.  The loop over the actions moves exactly the papers whose
    decision is "r", in the order of the actions, and none in a dry run;
    it emits nothing else.  Every move goes to the archive directory,
    under the paper's file name or that name with a number;
    keep and skip decisions leave the file where it is. *)
Theorem only_removed_papers_are_moved env archive_dir log_path dry_run actions w entries w' :
  Main.process_actions env archive_dir log_path dry_run actions [] w = (Ok entries, w') →
  ∃ moved,
    w_trace w' = w_trace w ++ ((λ m : Path * Path, EvMove m.1 m.2) <$> moved)
    ∧ moved.*1 = (if dry_run then [] else pc_path <$> removed actions)
    ∧ Forall (λ m : Path * Path, archive_target archive_dir m.1 m.2) moved.
Proof. apply process_actions_moves. Qed.

Lemma only_removed_papers_are_moved_witness :
  let x := {| pc_path := ["a"; "x.pdf"]; pc_title := "x"; pc_metadata := ∅ |} in
  let y := {| pc_path := ["b"; "x.pdf"]; pc_title := "x"; pc_metadata := ∅ |} in
  let run := Main.process_actions Example.env ["archive"] ["triage_log.csv"] false
               [(x, "A summary.", "k"); (y, "A summary.", "r")] []
               (set_nodes (insert ["home"; "u"; "archive"] Dir) Example.world) in
  ∃ moved,
    w_trace run.2 = (λ m : Path * Path, EvMove m.1 m.2) <$> moved
    ∧ moved.*1 = [["b"; "x.pdf"]].
Proof.
  intros x y run.
  destruct (only_removed_papers_are_moved Example.env ["archive"] ["triage_log.csv"] false
              [(x, "A summary.", "k"); (y, "A summary.", "r")]
              (set_nodes (insert ["home"; "u"; "archive"] Dir) Example.world)
              (match run.1 with Ok entries => entries | Raise _ => [] end) run.2)
    as (moved & Ht & Hsrc & _).
  - vm_compute. reflexivity.
  - exists moved. split; [exact Ht|exact Hsrc].
Defined.

(** ** main.py: when the loop returns *)

Lemma chain_snoc pre r x : FS.chain pre (r ++ [x]) = FS.chain pre r ++ [pre ++ r ++ [x]].
Proof.
  revert pre. induction r as [|y r IH]; intros pre; simpl; [done|].
  by rewrite IH, <-!app_assoc.
Qed.

Section LoopFacts.
Variable env : Env.

Lemma append_log_entry_dirs log_path entry w w' q :
  Log.append_log_entry env log_path entry w = (Ok tt, w') →
  w_nodes w !! q = Some Dir → w_nodes w' !! q = Some Dir.
Proof.
  intros H Hq. unfold Log.append_log_entry in H.
  apply bind_ok_inv in H as ([] & w1 & Hmk & H).
  apply mkdir_p_inv in Hmk as [(nodes1 & Hmk & _ & ->)|(e & ? & _)]; [|done].
  assert (nodes1 !! q = Some Dir) as Hq1.
  { destruct (mkdirs_lookup _ _ _ q Hmk) as [E|(E & _)]; congruence. }
  rewrite (bind_ok _ _ _ _ _ (exists_run _ _ _)) in H.
  apply bind_ok_inv in H as ([] & w2 & Hopen & H).
  apply open_append_inv in Hopen as [Hr Hopen]; [|done]. simpl in Hopen.
  assert (w_nodes w2 !! q = Some Dir) as Hq2.
  { destruct Hopen as [(c & Hc & ->)|(Hnone & ->)]; [done|]. simpl.
    rewrite lookup_insert_ne; [done|]. intros <-. congruence. }
  assert (∀ v rows v', FS.write_rows env log_path rows v = (Ok tt, v') →
            w_nodes v !! q = Some Dir → w_nodes v' !! q = Some Dir) as Hwrite.
  { intros v rows v' Hw Hv. apply write_rows_inv in Hw as (c & Hc & ->); [|done].
    simpl. rewrite lookup_insert_ne; [done|]. intros <-. congruence. }
  apply bind_ok_inv in H as ([] & w3 & Hhdr & H).
  eapply Hwrite; [exact H|]. destruct (negb _).
  - by eapply Hwrite.
  - by injection Hhdr as <-.
Qed.

Lemma pdf_name_last p :
  Str.endswith (PathLib.name p) ".pdf" = true →
  ∃ p', p = p' ++ [PathLib.name p] ∧ PathLib.name p ∉ [""; "."; ".."; "/"].
Proof.
  intros Hpdf. pose proof (pdf_name_ordinary _ Hpdf) as Hord. split_and?.
  unfold PathLib.name in *. destruct (last p) as [n|] eqn:Hlast.
  - apply last_Some in Hlast as [p' ->]. exists p'. destruct (decide (n = "/")); [|done].
    exfalso. apply Hord. by left.
  - exfalso. apply Hord. by left.
Qed.

(** An archive target resolves to an entry of the archive directory. *)
Lemma archive_target_resolve archive_dir src dst :
  Str.endswith (PathLib.name src) ".pdf" = true →
  archive_target archive_dir src dst →
  ∃ x, FS.resolve env dst = FS.resolve env archive_dir ++ [x].
Proof.
  intros Hpdf Htarget. pose proof (pdf_name_ordinary _ Hpdf) as Hord.
  assert (PathLib.name src ≠ "" ∧ PathLib.name src ≠ "." ∧ PathLib.name src ≠ ".."
          ∧ PathLib.name src ≠ "/") as (H1 & H2 & H3 & H4).
  { repeat split; intros E; apply Hord; rewrite E; rewrite !elem_of_cons; tauto. }
  assert (PathLib.joinpath archive_dir (PathLib.name src) = archive_dir ++ [PathLib.name src])
    as Hjoin by (by apply joinpath_ordinary).
  unfold archive_target in Htarget. cbv zeta in Htarget. rewrite Hjoin in Htarget.
  destruct Htarget as [->|(k & _ & ->)].
  - exists (PathLib.name src). unfold FS.resolve. by apply resolve_snoc.
  - exists (Main.numbered_name (archive_dir ++ [PathLib.name src]) k).
    by rewrite resolve_numbered, parent_snoc.
Qed.

(** One turn of the loop returns and leaves the loop ready for the
    actions that remain. *)
Lemma archive_and_log_total archive_dir log_path dry_run action rest w :
  loop_ready env archive_dir log_path dry_run (action :: rest) w →
  ∃ entry w',
    Main.archive_and_log env archive_dir log_path dry_run action w = (Ok entry, w')
    ∧ loop_ready env archive_dir log_path dry_run rest w'.
Proof.
  destruct action as [[paper summary] decision]. intros [Hlog Hmove].
  unfold Main.archive_and_log.
  destruct (bool_decide (decision = "r") && negb dry_run) eqn:Hbranch.
  - apply andb_true_iff in Hbranch as [Hr%bool_decide_eq_true Hdry%negb_true_iff].
    subst decision. destruct (Hmove Hdry) as (Hdir & Hapart & Hpapers & Hnd).
    unfold removed in Hpapers, Hnd. rewrite filter_cons, decide_True in Hpapers, Hnd by done.
    rewrite !fmap_cons in Hnd. simpl in Hnd. apply NoDup_cons in Hnd as [Hfresh Hnd].
    destruct (Hpapers paper) as (Hpdf & (c & Hsrc) & Hsl); [rewrite fmap_cons; by left|].
    destruct (unique_target_run env
                (PathLib.joinpath archive_dir (PathLib.name (pc_path paper))) w)
      as (p & Hrun & Hp).
    assert (archive_target archive_dir (pc_path paper) p) as Htarget.
    { unfold Main.unique_target_in in Hp. unfold archive_target. cbv zeta.
      destruct (negb _); [left; by injection Hp|].
      right. apply unique_from_some in Hp as (k & Hk & -> & _). by exists k. }
    destruct (archive_target_resolve _ _ _ Hpdf Htarget) as [x Hrd].
    apply unique_target_in_free in Hp.
    rewrite node_exists_lookup in Hp by (rewrite Hrd; by destruct (FS.resolve env archive_dir)).
    apply bool_decide_eq_false in Hp. apply eq_None_not_Some in Hp.
    pose proof (move_onto_free env (pc_path paper) p w (File c) Hsrc Hp) as Hmv.
    rewrite Hrd in Hmv at 1 2. rewrite removelast_last in Hmv.
    specialize (Hmv ltac:(by destruct (FS.resolve env archive_dir)) Hdir).
    set (w0 := set_nodes _ _) in Hmv.
    set (w1 := set_ticks (S (w_ticks w0)) w0).
    set (entry := {| le_timestamp := e_isoformat env (w_ticks w0);
                     le_title := pc_title paper;
                     le_path := PathLib.to_str (pc_path paper);
                     le_summary := summary; le_decision := "r";
                     le_dry_run := Main.str_of_bool dry_run |}).
    assert (∀ q, q ≠ FS.resolve env p → q ≠ FS.resolve env (pc_path paper) →
              w_nodes w1 !! q = w_nodes w !! q) as Hother.
    { intros q Hq1 Hq2. simpl. by rewrite lookup_insert_ne, lookup_delete_ne. }
    assert (∀ d, d ∈ FS.chain [] (FS.resolve env log_path) → d ≠ FS.resolve env p) as Hnp.
    { intros d Hd. rewrite Hrd. by apply Hapart. }
    destruct Hlog as (Hanc & (y & Hl) & Hnotdir).
    assert (log_ready env log_path w1) as Hlog1.
    { split; [|split; [by exists y|]].
      - intros d c' Hd. assert (d ≠ FS.resolve env p) as Hdp.
        { apply Hnp. rewrite Hl, chain_snoc. apply elem_of_app. by left. }
        simpl. rewrite lookup_insert_ne by done.
        destruct (decide (d = FS.resolve env (pc_path paper))) as [->|Hds].
        + by rewrite lookup_delete_eq.
        + rewrite lookup_delete_ne by done. by apply Hanc.
      - assert (FS.resolve env log_path ≠ FS.resolve env p) as Hlp.
        { apply Hnp. rewrite Hl at 2. rewrite chain_snoc. apply elem_of_app. right.
          apply list_elem_of_singleton. by rewrite Hl. }
        rewrite Hother; [done|done|]. by intros E; apply Hsl. }
    destruct (append_log_entry_total env log_path entry w1 Hlog1) as (w2 & Happ).
    exists entry, w2. split.
    { assert (Main.archive_paper env archive_dir paper w = (Ok p, w0)) as Harch.
      { unfold Main.archive_paper. rewrite (bind_ok _ _ _ _ _ Hrun).
        by rewrite (bind_ok _ _ _ _ _ Hmv). }
      rewrite (bind_ok _ _ w tt w0) by (by rewrite (bind_ok _ _ _ _ _ Harch)).
      rewrite (bind_ok _ _ w0 (e_isoformat env (w_ticks w0)) w1) by done.
      fold entry. by rewrite (bind_ok _ _ _ _ _ Happ). }
    split; [by eapply log_ready_after|]. intros _.
    split; [|split; [done|split; [|done]]].
    + unfold FS.is_dir in *. destruct (FS.resolve env archive_dir) as [|a ra] eqn:Era; [done|].
      destruct (w_nodes w !! (a :: ra : Path)) as [[|?]|] eqn:Ha; try done.
      erewrite (append_log_entry_dirs _ _ _ _ _ Happ); [done|].
      rewrite Hother; [done| |]; [rewrite Hrd; intros E|intros E; congruence].
      apply (f_equal length) in E. rewrite length_app in E. simpl in E. lia.
    + intros paper' Hin. destruct (Hpapers paper') as (Hpdf' & (c' & Hsrc') & Hsl');
        [rewrite fmap_cons; by right|].
      split; [done|]. split; [|done]. exists c'.
      apply append_log_entry_inv in Happ as (_ & _ & Hkeep).
      apply Hkeep; [done|]. rewrite Hother; [done| |].
      * intros E. rewrite E in Hsrc'. congruence.
      * intros E. apply Hfresh. rewrite <-E.
        apply list_elem_of_fmap. by exists paper'.
  - destruct (append_log_entry_total env log_path
                {| le_timestamp := e_isoformat env (w_ticks w);
                   le_title := pc_title paper;
                   le_path := PathLib.to_str (pc_path paper);
                   le_summary := summary; le_decision := decision;
                   le_dry_run := Main.str_of_bool dry_run |}
                (set_ticks (S (w_ticks w)) w) Hlog) as (w2 & Happ).
    eexists _, w2. split.
    { rewrite (bind_ok _ _ w tt w) by done.
      rewrite (bind_ok _ _ w (e_isoformat env (w_ticks w)) (set_ticks (S (w_ticks w)) w))
        by done.
      by rewrite (bind_ok _ _ _ _ _ Happ). }
    split; [exact (log_ready_after env _ _ (set_ticks (S (w_ticks w)) w) _ Hlog Happ)|].
    intros Hdry.
    destruct (Hmove Hdry) as (Hdir & Hapart & Hpapers & Hnd).
    unfold removed in Hpapers, Hnd. rewrite filter_cons in Hpapers, Hnd.
    destruct (decide _) as [Hr|] in Hpapers, Hnd.
    { simpl in Hr. subst decision. by rewrite Hdry, bool_decide_eq_true_2 in Hbranch. }
    fold (removed rest) in Hpapers, Hnd.
    split; [|split; [done|split; [|done]]].
    + unfold FS.is_dir in *. destruct (FS.resolve env archive_dir) as [|a ra] eqn:Era; [done|].
      destruct (w_nodes w !! (a :: ra : Path)) as [[|?]|] eqn:Ha; try done.
      by erewrite (append_log_entry_dirs _ _ _ _ _ Happ).
    + intros paper' Hin. destruct (Hpapers paper' Hin) as (Hpdf' & (c' & Hsrc') & Hsl').
      split; [done|]. split; [|done]. exists c'.
      apply append_log_entry_inv in Happ as (_ & _ & Hkeep). by apply Hkeep.
Qed.

End LoopFacts.

#[global] Instance same_nodes_preorder : PreOrder same_nodes.
Proof.
  split; [by intros w|]. intros a b c H1 H2. unfold same_nodes in *. congruence.
Qed.

Lemma same_nodes_emit ev : respects same_nodes (emit ev).
Proof. by intros w r w' [= _ <-]. Qed.

Lemma log_ready_nodes env log_path w v :
  w_nodes v = w_nodes w → log_ready env log_path w → log_ready env log_path v.
Proof. unfold log_ready. by intros ->. Qed.

Section RunSteps.
Variable env : Env.

Lemma process_actions_total archive_dir log_path dry_run actions log_entries w :
  loop_ready env archive_dir log_path dry_run actions w →
  ∃ entries w',
    Main.process_actions env archive_dir log_path dry_run actions log_entries w
    = (Ok entries, w').
Proof.
  revert log_entries w. induction actions as [|action rest IH]; intros acc w Hready; simpl.
  - by eexists _, _.
  - destruct (archive_and_log_total env _ _ _ _ _ _ Hready) as (entry & w1 & Hstep & Hready1).
    rewrite (bind_ok _ _ _ _ _ Hstep). by apply IH.
Qed.

(** The moves of a loop that is ready do not touch the log file. *)
Lemma loop_moves_avoid archive_dir log_path dry_run actions w moved :
  loop_ready env archive_dir log_path dry_run actions w →
  moved.*1 = (if dry_run then [] else pc_path <$> removed actions) →
  Forall (λ m : Path * Path, archive_target archive_dir m.1 m.2) moved →
  moves_avoid env (FS.resolve env log_path) ((λ m : Path * Path, EvMove m.1 m.2) <$> moved).
Proof.
  intros [(_ & (y & Hl) & _) Hmove] Hsrc Htgt src dst Hin.
  apply list_elem_of_fmap in Hin as ([src' dst'] & [= <- <-] & Hin).
  destruct dry_run.
  { apply fmap_nil_inv in Hsrc. subst moved. by apply elem_of_nil in Hin. }
  destruct (Hmove eq_refl) as (_ & Hapart & Hpapers & _).
  assert (src ∈ pc_path <$> removed actions) as Hs.
  { rewrite <-Hsrc. apply list_elem_of_fmap. by exists (src, dst). }
  apply list_elem_of_fmap in Hs as (paper & -> & Hpaper).
  destruct (Hpapers paper Hpaper) as (Hpdf & _ & Hne). split; [done|].
  rewrite Forall_forall in Htgt. specialize (Htgt _ Hin). simpl in Htgt.
  destruct (archive_target_resolve env _ _ _ Hpdf Htgt) as [x ->].
  intros E. eapply Hapart; [|by symmetry].
  apply (chain_last []). rewrite Hl. by destruct (FS.resolve env (PathLib.parent log_path)).
Qed.

(** A loop that is ready returns: one entry per action, in order, their
    rows appended to the log file. *)
Lemma process_actions_ready archive_dir log_path dry_run actions w :
  loop_ready env archive_dir log_path dry_run actions w →
  ∃ entries w',
    Main.process_actions env archive_dir log_path dry_run actions [] w = (Ok entries, w')
    ∧ Forall2 (describes dry_run) actions entries
    ∧ w_nodes w' !! FS.resolve env log_path
      = logged (w_nodes w !! FS.resolve env log_path) entries.
Proof.
  intros Hready.
  destruct (process_actions_total _ _ _ _ [] _ Hready) as (entries & w' & Hrun).
  exists entries, w'. split; [done|].
  destruct (process_actions_moves env _ _ _ _ _ _ _ _ Hrun) as (moved & Ht & Hsrc & Htgt).
  apply process_actions_inv in Hrun as (new & evs & -> & Hdesc & Ht' & Hlog).
  split; [done|]. apply Hlog. rewrite Ht in Ht'. apply app_inv_head in Ht' as <-.
  by eapply loop_moves_avoid.
Qed.

Lemma summary_wrapper_nodes model max_pages max_chars paper :
  respects same_nodes (Main.summary_wrapper env model max_pages max_chars paper).
Proof.
  intros w r w' Hrun. destruct (w_cache w !! pc_path paper) as [s|] eqn:Hc.
  - rewrite (summary_wrapper_hit _ _ _ _ _ _ _ Hc) in Hrun. by injection Hrun as _ <-.
  - by apply (summary_wrapper_miss _ _ _ _ _ _ _ _ Hc) in Hrun as (Hn & _).
Qed.

Lemma triage_papers_nodes model max_pages max_chars papers dry_run auto_decision :
  respects same_nodes
    (UI.triage_papers papers (Main.summary_wrapper env model max_pages max_chars)
       dry_run auto_decision).
Proof.
  apply (triage_from_respects same_nodes).
  - intros paper. apply summary_wrapper_nodes.
  - apply prompt_loop_same_nodes.
Qed.

Lemma maybe_send_email_nodes email_cfg log_entries digest_path :
  respects same_nodes (Main.maybe_send_email env email_cfg log_entries digest_path).
Proof.
  unfold Main.maybe_send_email.
  destruct (negb (em_enabled email_cfg)); [apply (respects_ret same_nodes)|].
  destruct (bool_decide (log_entries = [])); [apply same_nodes_emit|].
  destruct (_ || _); [apply same_nodes_emit|].
  apply (respects_bind same_nodes).
  { unfold Main.collect_attachments. destruct digest_path as [dp|].
    - apply (respects_bind same_nodes); [by intros w r w' [= _ <-]|intros found].
      apply (respects_ret same_nodes).
    - apply (respects_ret same_nodes). }
  intros attachments. apply (respects_bind same_nodes).
  { unfold Emailer.build_message.
    apply (respects_bind same_nodes);
      [intros w r w' ->%attach_all_world; reflexivity|intros atts].
    apply (respects_ret same_nodes). }
  intros message.
  assert (∀ password, respects same_nodes
    (try_except
       (Emailer.send_message env message (em_smtp_host email_cfg)
          (em_smtp_port email_cfg) (em_username email_cfg) password
          (em_use_tls email_cfg);;
        log_msg INFO ("Email digest sent to " +:+ Str.join ", " (em_recipients email_cfg)))
       (λ _, log_msg ERROR "Failed to send email digest"))) as Hsend.
  { intros password w r w' Hrun. rewrite guarded_send_run in Hrun. by injection Hrun as _ <-. }
  destruct (em_password_env email_cfg) as [password_env|]; [|apply Hsend].
  destruct (Str.truthy password_env); [|apply Hsend].
  destruct (e_environ env !! password_env) as [password|]; [|apply same_nodes_emit].
  destruct (Str.truthy password); [apply Hsend|apply same_nodes_emit].
Qed.

(** Without a digest to attach the notification always returns. *)
Lemma maybe_send_email_returns email_cfg log_entries w :
  ∃ w', Main.maybe_send_email env email_cfg log_entries None w = (Ok tt, w').
Proof.
  unfold Main.maybe_send_email.
  destruct (negb (em_enabled email_cfg)); [by eexists|].
  destruct (bool_decide (log_entries = [])); [by eexists|].
  destruct (_ || _); [by eexists|].
  unfold Main.collect_attachments, Emailer.build_message.
  rewrite (bind_ok _ _ w [] w) by done.
  rewrite (bind_ok _ _ w _ w) by done.
  destruct (em_password_env email_cfg) as [password_env|];
    [|rewrite guarded_send_run; by eexists].
  destruct (Str.truthy password_env); [|rewrite guarded_send_run; by eexists].
  destruct (e_environ env !! password_env) as [password|]; [|by eexists].
  destruct (Str.truthy password); [rewrite guarded_send_run|]; by eexists.
Qed.

(** [write_digest] leaves untouched every regular file that is not an
    entry of the digest directory. *)
Lemma write_digest_keeps digest_dir entries w dp w' (q : Path) c :
  Log.write_digest env digest_dir entries w = (Ok dp, w') →
  (∀ x, q ≠ FS.resolve env digest_dir ++ [x]) →
  w_nodes w !! q = Some (File c) → w_nodes w' !! q = Some (File c).
Proof.
  unfold Log.write_digest. intros H Hout Hq.
  apply bind_ok_inv in H as ([] & w1 & Hmk & H).
  apply mkdir_p_inv in Hmk as [(nodes1 & Hmk & _ & ->)|(e & ? & _)]; [|done].
  assert (nodes1 !! q = Some (File c)) as Hq1.
  { destruct (mkdirs_lookup _ _ _ q Hmk) as [E|(E & _)]; congruence. }
  apply bind_ok_inv in H as (timestamp & w2 & [= <- <-] & H).
  apply bind_ok_inv in H as ([] & w3 & Hwrite & [= <- <-]).
  unfold FS.write_text in Hwrite. cbv zeta in Hwrite.
  assert (FS.resolve env (PathLib.joinpath digest_dir
            ("digest-" +:+ e_compact env (w_ticks w) +:+ ".md"))
          = FS.resolve env digest_dir ++ ["digest-" +:+ e_compact env (w_ticks w) +:+ ".md"])
    as Hr.
  { rewrite joinpath_ordinary by done. unfold FS.resolve. by apply resolve_snoc. }
  simpl in Hwrite. rewrite Hr in Hwrite.
  destruct (FS.resolve env digest_dir ++ _) as [|a r] eqn:Er;
    [by destruct (FS.resolve env digest_dir)|].
  destruct (nodes1 !! (a :: r : Path)) as [[|?]|]; [done| |];
    (destruct (FS.is_dir _ _); [|done]); injection Hwrite as <-; simpl;
    (rewrite lookup_insert_ne; [done|]); rewrite <-Er; intros E; by eapply Hout.
Qed.

(** A run that returns, step by step. *)
Lemma triage_once_ok_steps config args w entries w' :
  Main.triage_once env config args w = (Ok entries, w') →
  ∃ papers w1,
    Discover.discover_papers env (cfg_input_folders config) (cfg_metadata_sources config) w
    = (Ok papers, w1)
    ∧ ((papers = [] ∧ entries = [] ∧ w_nodes w' = w_nodes w1)
       ∨ (papers ≠ [] ∧ ∃ w2 actions w3 w4 w5,
            (arg_dry_run args = true ∧ w2 = w1
             ∨ arg_dry_run args = false
               ∧ FS.mkdir_p env (Main.config_path env (arg_archive args)
                                   (cfg_archive_dir config)) w1 = (Ok tt, w2))
            ∧ UI.triage_papers papers
                (Main.summary_wrapper env (cfg_model config)
                   (int_or (arg_max_pages args) (cfg_max_pages config))
                   (int_or (arg_max_chars args) (cfg_max_chars config)))
                (arg_dry_run args)
                (Main._resolve_decision_mode (cfg_auto_decision config) args)
                (set_cache ∅ w2)
              = (Ok actions, w3)
            ∧ Main.process_actions env
                (Main.config_path env (arg_archive args) (cfg_archive_dir config))
                (Main.config_path env (arg_log_path args) (cfg_log_path config))
                (arg_dry_run args) actions [] w3
              = (Ok entries, w4)
            ∧ (entries ≠ [] ∧ cfg_digest_enabled config = true
               ∧ (∃ dp, Log.write_digest env
                          (Main.config_path env (arg_digest_dir args) (cfg_digest_dir config))
                          entries w4 = (Ok dp, w5))
               ∨ (entries = [] ∨ cfg_digest_enabled config = false) ∧ w5 = w4)
            ∧ w_nodes w' = w_nodes w5)).
Proof.
  unfold Main.triage_once.
  intros (papers & w1 & Hdisc & H)%bind_ok_inv. exists papers, w1. split; [done|].
  case_bool_decide as Hpapers.
  - left. apply bind_ok_inv in H as ([] & ? & [= <-] & [= <- <-]). done.
  - right. split; [done|]. apply bind_ok_inv in H as ([] & w2 & Hmk & H).
    apply bind_ok_inv in H as ([] & w2' & [= <-] & H).
    apply bind_ok_inv in H as (actions & w3 & Hact & H).
    apply bind_ok_inv in H as (log_entries & w4 & Hproc & H).
    apply bind_ok_inv in H as (digest_path & w5 & Hdig & H).
    apply bind_ok_inv in H as ([] & w6 & Hmail & [= <- <-]).
    exists w2, actions, w3, w4, w5. split.
    { destruct (arg_dry_run args); [left|right]; simpl in Hmk; [|done].
      by injection Hmk as <-. }
    split; [done|]. split; [done|]. split.
    { destruct (negb (bool_decide (log_entries = []))) eqn:He; simpl in Hdig.
      - destruct (cfg_digest_enabled config); [left|right].
        + apply bind_ok_inv in Hdig as (dp & w5' & Hw & [= _ <-]).
          apply negb_true_iff, bool_decide_eq_false in He. eauto.
        + injection Hdig as _ <-. auto.
      - apply negb_false_iff, bool_decide_eq_true in He. injection Hdig as _ <-. auto. }
    by apply maybe_send_email_nodes in Hmail.
Qed.

End RunSteps.

(** ** main.py: the log file after a run *)

Section RunLog.
Variable env : Env.

Lemma enumerated_pdf nodes folders q :
  enumerated env nodes folders q → Str.endswith (PathLib.name q) ".pdf" = true.
Proof. intros (folder & _ & _ & Hq). by eapply rglob_pdf_name. Qed.

(** A PDF that was enumerated is not a file whose name does not end in
    ".pdf". *)
Lemma enumerated_not_named nodes folders q (r : Path) :
  enumerated env nodes folders q →
  (∀ n, last r = Some n → Str.endswith n ".pdf" = false) →
  FS.resolve env q ≠ r.
Proof.
  intros Hq%enumerated_pdf Hr E.
  destruct (pdf_name_last _ Hq) as (q' & Hq' & Hord).
  assert (FS.resolve env q = FS.resolve env q' ++ [PathLib.name q]) as Hres.
  { rewrite Hq' at 1. unfold FS.resolve. apply resolve_snoc.
    - intros E'. apply Hord. rewrite E'. rewrite !elem_of_cons. tauto.
    - intros E'. apply Hord. rewrite E'. rewrite !elem_of_cons. tauto. }
  rewrite Hres in E. specialize (Hr (PathLib.name q)). rewrite <-E, last_snoc in Hr.
  specialize (Hr eq_refl). congruence.
Qed.

Lemma removed_elem (actions : list Action) paper :
  paper ∈ removed actions → paper ∈ (λ a : Action, a.1.1) <$> actions.
Proof.
  unfold removed. intros (a & -> & Ha)%list_elem_of_fmap.
  apply list_elem_of_filter in Ha as [_ Ha]. apply list_elem_of_fmap. by exists a.
Qed.

(** The log file after a run that returned: the rows of the entries, in
    order, after what the file held. *)
Lemma triage_once_log config args w entries w' :
  let archive_dir := Main.config_path env (arg_archive args) (cfg_archive_dir config) in
  let log_path := Main.config_path env (arg_log_path args) (cfg_log_path config) in
  let digest_dir := Main.config_path env (arg_digest_dir args) (cfg_digest_dir config) in
  Main.triage_once env config args w = (Ok entries, w') →
  (arg_dry_run args = false →
   (∀ q, enumerated env (w_nodes w) (cfg_input_folders config) q →
         FS.resolve env q ≠ FS.resolve env log_path)
   ∧ outside env log_path archive_dir) →
  (cfg_digest_enabled config = true → outside env log_path digest_dir) →
  w_nodes w' !! FS.resolve env log_path
  = logged (w_nodes w !! FS.resolve env log_path) entries.
Proof.
  intros archive_dir log_path digest_dir Hrun Hmoves Hdigest.
  apply triage_once_ok_steps in Hrun as (papers & w1 & Hdisc & Hrun).
  destruct (discover_papers_run env (cfg_input_folders config)
              (cfg_metadata_sources config) w)
    as (papers' & w1' & Hdisc' & Hn1 & _ & _ & Hin).
  rewrite Hdisc in Hdisc'. injection Hdisc' as <- <-.
  destruct Hrun as [(-> & -> & Hn)|(Hne & w2 & actions & w3 & w4 & w5
                                      & Hmk & Hact & Hproc & Hdig & Hn)].
  { simpl. by rewrite Hn, Hn1. }
  fold archive_dir in Hmk, Hproc. fold log_path in Hproc. fold digest_dir in Hdig.
  set (rl := FS.resolve env log_path) in *.
  pose proof (triage_papers_nodes env _ _ _ _ _ _ _ _ _ Hact) as Hn3.
  unfold same_nodes in Hn3. simpl in Hn3.
  apply triage_from_shape in Hact as (new & Hnew & Hpapers & _). simpl in Hnew. subst new.
  destruct (process_actions_moves env _ _ _ _ _ _ _ _ Hproc) as (moved & Ht & Hsrc & Htgt).
  apply process_actions_inv in Hproc as (new & evs & Hentries & Hdesc & Ht' & Hlog).
  simpl in Hentries. subst new.
  rewrite Ht in Ht'. apply app_inv_head in Ht' as <-.
  assert (entries ≠ []) as Hsome.
  { intros ->. apply Forall2_nil_inv_r in Hdesc. subst actions. by apply Hne. }
  assert (w_nodes w4 !! rl = logged (w_nodes w3 !! rl) entries) as H4.
  { apply Hlog. intros src dst Hmv.
    apply list_elem_of_fmap in Hmv as ([src' dst'] & [= <- <-] & Hmv).
    destruct (arg_dry_run args) eqn:Hdry.
    { apply fmap_nil_inv in Hsrc. subst moved. by apply elem_of_nil in Hmv. }
    destruct (Hmoves eq_refl) as [Hpaper Hout].
    assert (enumerated env (w_nodes w) (cfg_input_folders config) src) as Henum.
    { apply Hin. rewrite <-Hpapers, <-list_fmap_compose.
      assert (src ∈ pc_path <$> removed actions) as Hs.
      { rewrite <-Hsrc. apply list_elem_of_fmap. by exists (src, dst). }
      apply list_elem_of_fmap in Hs as (paper & -> & Hp%removed_elem).
      apply list_elem_of_fmap in Hp as (a & -> & Ha). apply list_elem_of_fmap. by exists a. }
    split; [by apply Hpaper|].
    rewrite Forall_forall in Htgt. specialize (Htgt _ Hmv). simpl in Htgt.
    destruct (archive_target_resolve env _ _ _ (enumerated_pdf _ _ _ Henum) Htgt) as [x ->].
    intros E. by eapply Hout. }
  assert (logged (w_nodes w3 !! rl) entries = logged (w_nodes w !! rl) entries) as H3.
  { rewrite Hn3, <-Hn1. destruct Hmk as [[_ ->]|[_ Hmk]]; [done|].
    apply mkdir_p_inv in Hmk as [(nodes2 & Hmk & _ & ->)|(e & ? & _)]; [|done]. simpl.
    destruct (mkdirs_lookup _ _ _ rl Hmk) as [->|(-> & -> & _)]; [done|].
    by destruct entries. }
  rewrite Hn, <-H3, <-H4.
  destruct Hdig as [(_ & Hen & dp & Hw)|[_ ->]]; [|done].
  rewrite H4. destruct entries as [|e entries]; [done|]. simpl.
  eapply write_digest_keeps; [exact Hw|by apply Hdigest|].
  rewrite H4. done.
Qed.

Lemma triage_from_auto_total model max_pages max_chars papers dry auto mode d acc w :
  UI.mode_given auto = Some mode → UI._auto_decide mode = Ok d →
  (0 < max_pages)%Z → e_ollama_installed env = true →
  ∃ actions w',
    UI.triage_from papers (Main.summary_wrapper env model max_pages max_chars)
      dry auto acc w = (Ok actions, w').
Proof.
  intros Hmode Hd Hmp Hinst. revert acc w.
  induction papers as [|paper rest IH]; intros acc w; simpl; [by eexists _, _|].
  assert (∃ summary w1,
            Main.summary_wrapper env model max_pages max_chars paper w = (Ok summary, w1))
    as (summary & w1 & Hsum).
  { destruct (w_cache w !! pc_path paper) as [s|] eqn:Hc.
    - eexists _, _. by apply summary_wrapper_hit.
    - by apply (summary_wrapper_outcomes env model max_pages max_chars paper w Hc). }
  rewrite (bind_ok _ _ _ _ _ Hsum). rewrite Hmode.
  rewrite (bind_ok _ _ w1 d w1) by (by rewrite Hd). apply IH.
Qed.

(** A dry run with an accepted automatic mode, a positive page limit,
    the ollama package, a log that can be written and no digest returns. *)
Lemma triage_once_dry_returns config args mode d w :
  arg_dry_run args = true →
  Main._resolve_decision_mode (cfg_auto_decision config) args = Some mode →
  mode ≠ EmptyString → UI._auto_decide mode = Ok d →
  (0 < int_or (arg_max_pages args) (cfg_max_pages config))%Z →
  e_ollama_installed env = true →
  log_ready env (Main.config_path env (arg_log_path args) (cfg_log_path config)) w →
  cfg_digest_enabled config = false →
  ∃ entries w', Main.triage_once env config args w = (Ok entries, w').
Proof.
  intros Hdry Hmode Hne Hd Hmp Hinst Hready Hdig. unfold Main.triage_once.
  destruct (discover_papers_run env (cfg_input_folders config)
              (cfg_metadata_sources config) w)
    as (papers & w1 & Hdisc & Hn1 & _).
  rewrite (bind_ok _ _ _ _ _ Hdisc). case_bool_decide as Hpapers.
  { rewrite (bind_ok _ _ _ _ _ (log_msg_run _ _ _)). by eexists _, _. }
  rewrite Hdry. cbn [negb]. rewrite (bind_ok _ _ w1 tt w1) by done.
  rewrite (bind_ok _ _ w1 tt (set_cache ∅ w1)) by done.
  assert (UI.mode_given (Main._resolve_decision_mode (cfg_auto_decision config) args)
          = Some mode) as Hgiven.
  { rewrite Hmode. unfold UI.mode_given, Str.truthy. by rewrite bool_decide_eq_false_2. }
  destruct (triage_from_auto_total (cfg_model config) _
              (int_or (arg_max_chars args) (cfg_max_chars config)) papers true _ mode d []
              (set_cache ∅ w1) Hgiven Hd Hmp Hinst) as (actions & w3 & Hact).
  fold (UI.triage_papers papers
          (Main.summary_wrapper env (cfg_model config)
             (int_or (arg_max_pages args) (cfg_max_pages config))
             (int_or (arg_max_chars args) (cfg_max_chars config))) true
          (Main._resolve_decision_mode (cfg_auto_decision config) args)) in Hact.
  rewrite (bind_ok _ _ _ _ _ Hact).
  pose proof (triage_papers_nodes env _ _ _ _ _ _ _ _ _ Hact) as Hn3.
  unfold same_nodes in Hn3. simpl in Hn3.
  destruct (process_actions_ready env
              (Main.config_path env (arg_archive args) (cfg_archive_dir config))
              (Main.config_path env (arg_log_path args) (cfg_log_path config))
              true actions w3) as (entries & w4 & Hproc & _).
  { split; [|discriminate]. eapply log_ready_nodes; [|exact Hready]. congruence. }
  rewrite (bind_ok _ _ _ _ _ Hproc). rewrite Hdig, andb_false_r.
  rewrite (bind_ok _ _ w4 None w4) by done.
  destruct (maybe_send_email_returns env (cfg_email config) entries w4) as (w5 & Hmail).
  rewrite (bind_ok _ _ _ _ _ Hmail). by eexists _, _.
Qed.

(** In a run whose mode the automatic decision accepts, every entry
    carries that one decision. *)
Lemma triage_once_one_decision config args mode d w entries w' :
  Main._resolve_decision_mode (cfg_auto_decision config) args = Some mode →
  mode ≠ EmptyString → UI._auto_decide mode = Ok d →
  Main.triage_once env config args w = (Ok entries, w') →
  Forall (λ entry, le_decision entry = d) entries.
Proof.
  intros Hmode Hne Hd Hrun.
  apply triage_once_ok_inv in Hrun as (papers & w1 & _ & [[_ ->]|Hrun]); [constructor|].
  destruct Hrun as (w2 & actions & w3 & w4 & Hact & Hproc).
  apply triage_from_shape in Hact as (new & Hnew & _ & _ & Hauto). simpl in Hnew. subst new.
  apply process_actions_inv in Hproc as (new & evs & Hentries & Hdesc & _).
  simpl in Hentries. subst new.
  assert (UI.mode_given (Main._resolve_decision_mode (cfg_auto_decision config) args)
          = Some mode) as Hgiven.
  { rewrite Hmode. unfold UI.mode_given, Str.truthy. by rewrite bool_decide_eq_false_2. }
  specialize (Hauto mode Hgiven).
  clear -Hauto Hdesc Hd. induction Hdesc as [|a e actions entries Hae _ IH]; [constructor|].
  apply Forall_cons in Hauto as [Ha Hauto]. constructor; [|by apply IH].
  destruct Hae as (_ & _ & _ & -> & _). congruence.
Qed.

End RunLog.

(** X10.  The decision mode of a run: a mode given on the command line wins
    over the configuration, and without one a disabled [auto_decision]
    section means the interactive prompt whatever its default says.  In a
    run whose mode the automatic decision accepts, every log entry
    carries that one decision. *)
Theorem one_mode_decides_the_whole_run env :
  (∀ auto_cfg args mode,
     arg_auto_decision args = Some mode → mode ≠ EmptyString →
     Main._resolve_decision_mode auto_cfg args = Some mode)
  ∧ (∀ auto_cfg args,
       UI.mode_given (arg_auto_decision args) = None → ad_enabled auto_cfg = false →
       Main._resolve_decision_mode auto_cfg args = None)
  ∧ (∀ config args mode d w entries w',
       Main._resolve_decision_mode (cfg_auto_decision config) args = Some mode →
       mode ≠ EmptyString → UI._auto_decide mode = Ok d →
       Main.triage_once env config args w = (Ok entries, w') →
       Forall (λ entry, le_decision entry = d) entries).
Proof.
  split; [|split].
  - intros auto_cfg args mode Harg Hne. unfold Main._resolve_decision_mode, UI.mode_given.
    rewrite Harg. unfold Str.truthy. by rewrite bool_decide_eq_false_2.
  - intros auto_cfg args Harg Hoff. unfold Main._resolve_decision_mode.
    by rewrite Harg, Hoff.
  - intros config args mode d w entries w'. apply triage_once_one_decision.
Qed.

Lemma one_mode_decides_the_whole_run_witness :
  Forall (λ entry, le_decision entry = "s")
    match (Main.triage_once Example.env (Example.config (Some (Some "remove")))
             {| arg_dry_run := false; arg_archive := None; arg_log_path := None;
                arg_digest_dir := None; arg_max_pages := None; arg_max_chars := None;
                arg_auto_decision := Some "skip" |} Example.world).1 with
    | Ok entries => entries
    | Raise _ => []
    end.
Proof.
  destruct (Main.triage_once Example.env (Example.config (Some (Some "remove")))
              {| arg_dry_run := false; arg_archive := None; arg_log_path := None;
                 arg_digest_dir := None; arg_max_pages := None; arg_max_chars := None;
                 arg_auto_decision := Some "skip" |} Example.world)
    as [[entries|e] w'] eqn:Hrun; [|constructor].
  apply (proj2 (proj2 (one_mode_decides_the_whole_run Example.env))
           (Example.config (Some (Some "remove")))
           {| arg_dry_run := false; arg_archive := None; arg_log_path := None;
              arg_digest_dir := None; arg_max_pages := None; arg_max_chars := None;
              arg_auto_decision := Some "skip" |}
           "skip" "s" Example.world entries w');
    [reflexivity|discriminate|reflexivity|exact Hrun].
Defined.

(** X11.  When no configured folder lists a PDF the run ends at once: it
    returns no entry and its last act is the message that nothing was
    found.  Nothing is created, not the archive directory and not the
    log file, nothing is read from the input and no mail is sent: the
    run only logs. *)
Theorem nothing_found_nothing_done env config args w :
  (∀ q, ¬ enumerated env (w_nodes w) (cfg_input_folders config) q) →
  ∃ w',
    Main.triage_once env config args w = (Ok [], w')
    ∧ logs_only w w'
    ∧ last (w_trace w')
      = Some (EvLog INFO ("No PDFs found in configured folders."
                          +:+ (if arg_dry_run args then " (dry-run)" else EmptyString))).
Proof.
  intros Hnone.
  destruct (discover_papers_run env (cfg_input_folders config)
              (cfg_metadata_sources config) w)
    as (papers & w1 & Hdisc & _ & _ & _ & Hin).
  assert (papers = []) as ->.
  { destruct papers as [|c papers]; [done|]. exfalso.
    apply (Hnone (pc_path c)), Hin. rewrite fmap_cons. by left. }
  pose proof (logs_only_discover_papers env _ _ _ _ _ Hdisc) as Hlogs.
  unfold Main.triage_once. rewrite (bind_ok _ _ _ _ _ Hdisc).
  rewrite bool_decide_eq_true_2 by done.
  rewrite (bind_ok _ _ _ _ _ (log_msg_run _ _ _)).
  eexists. split; [reflexivity|]. split.
  - etransitivity; [exact Hlogs|]. by eapply logs_only_log.
  - simpl. by rewrite last_snoc.
Qed.

Lemma nothing_found_nothing_done_witness :
  let config := {| cfg_input_folders := ["papers"]; cfg_metadata_sources := None;
                   cfg_archive_dir := "archive"; cfg_log_path := "triage_log.csv";
                   cfg_digest_dir := "digests"; cfg_max_pages := 3;
                   cfg_max_chars := 4000; cfg_model := "llama3.2:latest";
                   cfg_auto_decision := {| ad_enabled := true; ad_default := None |};
                   cfg_digest_enabled := true; cfg_email := Example.email_off |} in
  ∃ w', Main.triage_once Example.env config (Example.args false) Example.world = (Ok [], w')
        ∧ logs_only Example.world w'.
Proof.
  intros config.
  destruct (nothing_found_nothing_done Example.env config (Example.args false) Example.world)
    as (w' & Hrun & Hlogs & _).
  - intros q (folder & Hf & Hex & _). apply list_elem_of_singleton in Hf as ->.
    vm_compute in Hex. discriminate.
  - by exists w'.
Defined.

(** ** discover.py: the keys of the lookup *)

Lemma lower_char_idem c : Str.lower_char (Str.lower_char c) = Str.lower_char c.
Proof. destruct c as [[] [] [] [] [] [] [] []]; reflexivity. Qed.

Lemma lower_idem s : Str.lower (Str.lower s) = Str.lower s.
Proof. induction s as [|c s IH]; [done|]. simpl. by rewrite lower_char_idem, IH. Qed.

Lemma truthy_false s : Str.truthy s = false ↔ s = EmptyString.
Proof.
  unfold Str.truthy. case_bool_decide; simpl; split; done.
Qed.

Lemma bookmark_record_some source entry record :
  Discover.bookmark_record source entry = Some record →
  bookmark_path entry ≠ EmptyString
  ∧ record
    = <["title" := Some (opt_or (entry !! "title")
                           (PathLib.stem (PathLib.of_str (bookmark_path entry))))]>
        (<["file_key" := Some (key_of (bookmark_path entry))]>
           (<["source" := Some (PathLib.to_str source)]> ∅)).
Proof.
  unfold Discover.bookmark_record. cbv zeta. fold (bookmark_path entry).
  destruct (Str.truthy (bookmark_path entry)) eqn:Ht; simpl; [|done].
  intros [= <-]. split; [|done]. intros E. apply truthy_false in E. congruence.
Qed.

Lemma export_record_some source row record :
  Discover.export_record source row = Some record →
  export_attachment row ≠ EmptyString
  ∧ record
    = <["title" := Some (opt_or (row !! "Title")
                           (opt_or (row !! "title")
                              (PathLib.stem (PathLib.of_str (export_attachment row)))))]>
        (<["file_key" := Some (key_of (export_attachment row))]>
           (<["authors" := opt_or_opt (row !! "Author") (row !! "Authors")]>
              (<["year" := row !! "Year"]>
                 (<["source" := Some (PathLib.to_str source)]> ∅)))).
Proof.
  unfold Discover.export_record. cbv zeta. fold (export_attachment row).
  destruct (negb (Str.truthy (opt_or _ _))); [done|].
  destruct (Str.truthy (export_attachment row)) eqn:Ht; simpl; [|done].
  intros [= <-]. split; [|done]. intros E. apply truthy_false in E. congruence.
Qed.

Lemma export_record_none source row :
  Discover.export_record source row = None ↔ export_attachment row = EmptyString.
Proof.
  unfold Discover.export_record. cbv zeta. fold (export_attachment row).
  destruct (Str.truthy (opt_or _ _)) eqn:Hatt; simpl.
  - destruct (Str.truthy (export_attachment row)) eqn:Ht; simpl.
    + split; [done|]. intros E. apply truthy_false in E. congruence.
    + split; [|done]. intros _. by apply truthy_false.
  - split; [|done]. intros _. apply truthy_false in Hatt.
    unfold export_attachment. by rewrite Hatt.
Qed.

Lemma bookmark_record_none source entry :
  Discover.bookmark_record source entry = None ↔ bookmark_path entry = EmptyString.
Proof.
  unfold Discover.bookmark_record. cbv zeta. fold (bookmark_path entry).
  destruct (Str.truthy (bookmark_path entry)) eqn:Ht; simpl.
  - split; [done|]. intros E. apply truthy_false in E. congruence.
  - split; [|done]. intros _. by apply truthy_false.
Qed.

Section KeyFacts.
Variable env : Env.

(** Every record a source yields is keyed by a lower-cased file name. *)
Lemma yields_keyed w source records :
  yields env w source records →
  Forall (λ r, ∃ file_path, rec_get r "file_key" = Some (key_of file_path)) records.
Proof.
  unfold yields, Discover.load_source. cbv zeta.
  rewrite (bind_ok _ _ _ _ _ (exists_run _ _ _)).
  unfold try_except, Discover._parse_bookmarks_json,
    Discover._parse_reference_export, mbind, M_bind, mret, M_ret, raise, log_msg, emit.
  destruct (FS.node_exists _ _); [|done]. simpl.
  repeat destruct (decide _); try done.
  - destruct (e_json env _) as [doc|]; [|done]. simpl. intros [= <-].
    apply Forall_forall. intros r (entry & _ & Hr)%list_elem_of_omap.
    apply bookmark_record_some in Hr as [_ ->]. by exists (bookmark_path entry).
  - destruct (e_csv env _) as [rows|]; [|done]. simpl. intros [= <-].
    apply Forall_forall. intros r (row & _ & Hr)%list_elem_of_omap.
    apply export_record_some in Hr as [_ ->]. by exists (export_attachment row).
Qed.

Lemma store_records_keys (P : string → MetaRecord → Prop) records lookup :
  (∀ k r, lookup !! k = Some r → P k r) →
  (∀ r k, r ∈ records → rec_get r "file_key" = Some k → k ≠ EmptyString → P k r) →
  ∀ k r, Discover.store_records records lookup !! k = Some r → P k r.
Proof.
  revert lookup. unfold Discover.store_records.
  induction records as [|record rest IH]; intros lookup Hl Hr; simpl; [done|].
  apply IH.
  - intros k r. rewrite store_record_lookup. destruct (decide _) as [[Hk Hne]|_].
    + intros [= <-]. apply Hr; [by left|done..].
    + apply Hl.
  - intros r k Hin. apply Hr. by right.
Qed.

Lemma stored_keys (P : string → MetaRecord → Prop) w sources lookup :
  (∀ k r, lookup !! k = Some r → P k r) →
  (∀ s rs r k, s ∈ sources → yields env w s rs → r ∈ rs →
     rec_get r "file_key" = Some k → k ≠ EmptyString → P k r) →
  ∀ k r, stored env w sources lookup !! k = Some r → P k r.
Proof.
  revert lookup. unfold stored.
  induction sources as [|s rest IH]; intros lookup Hl Hr; simpl; [done|].
  apply IH.
  - destruct (Discover.load_source env s w).1 as [[records|]|] eqn:Hs; try done.
    apply store_records_keys; [done|]. intros r k Hin. eapply Hr; [by left|exact Hs|done].
  - intros s' rs r k Hin. apply Hr. by right.
Qed.

End KeyFacts.

(** X14.  The metadata of a file is found whatever the case of its name:
    every key of the lookup is the lower-cased file name of the path a
    record names, never empty, and each record is stored under its own
    file_key.  A bookmark entry names its file under "path", else
    "file"; a row of a reference export under "File Attachments", else
    "Attachments", "file", "path", of which only the first of the paths
    separated by ";" counts, stripped; an entry or a row that names no
    file gives no record. *)
Theorem lookup_keys_are_lower_cased_file_names env sources w :
  (∃ lookup w',
     Discover._build_metadata_lookup env sources w = (Ok lookup, w')
     ∧ ∀ k record,
         lookup !! k = Some record →
         k ≠ EmptyString ∧ Str.lower k = k
         ∧ rec_get record "file_key" = Some k
         ∧ ∃ file_path, k = key_of file_path)
  ∧ (∀ source entry,
       Discover.bookmark_record source entry = None ↔ bookmark_path entry = EmptyString)
  ∧ (∀ source entry record,
       Discover.bookmark_record source entry = Some record →
       rec_get record "file_key" = Some (key_of (bookmark_path entry))
       ∧ rec_get record "title"
         = Some (opt_or (entry !! "title")
                   (PathLib.stem (PathLib.of_str (bookmark_path entry))))
       ∧ rec_get record "source" = Some (PathLib.to_str source))
  ∧ (∀ source row,
       Discover.export_record source row = None ↔ export_attachment row = EmptyString)
  ∧ (∀ source row record,
       Discover.export_record source row = Some record →
       rec_get record "file_key" = Some (key_of (export_attachment row))
       ∧ rec_get record "title"
         = Some (opt_or (row !! "Title")
                   (opt_or (row !! "title")
                      (PathLib.stem (PathLib.of_str (export_attachment row)))))
       ∧ rec_get record "authors" = opt_or_opt (row !! "Author") (row !! "Authors")
       ∧ rec_get record "year" = row !! "Year"
       ∧ rec_get record "source" = Some (PathLib.to_str source)).
Proof.
  split; [|split; [|split; [|split]]].
  - destruct (build_from_run env sources ∅ w) as (w' & Hrun & _).
    eexists _, w'. split; [exact Hrun|].
    apply (stored_keys env (λ k r, k ≠ EmptyString ∧ Str.lower k = k
                                   ∧ rec_get r "file_key" = Some k
                                   ∧ ∃ file_path, k = key_of file_path) w sources ∅).
    + intros k r. by rewrite lookup_empty.
    + intros s rs r k Hs Hy Hin Hk Hne.
      apply yields_keyed in Hy. rewrite Forall_forall in Hy.
      destruct (Hy r Hin) as [fp Hfp]. rewrite Hk in Hfp. injection Hfp as ->.
      split; [done|]. split; [apply lower_idem|]. split; [done|]. by exists fp.
  - apply bookmark_record_none.
  - intros source entry record [_ ->]%bookmark_record_some. by repeat split.
  - apply export_record_none.
  - intros source row record [_ ->]%export_record_some.
    by repeat split.
Qed.

Lemma lookup_keys_are_lower_cased_file_names_witness :
  ∃ lookup w',
    Discover._build_metadata_lookup Example.env_with_metadata
      [Example.bookmarks; Example.zotero] Example.world_with_metadata = (Ok lookup, w')
    ∧ lookup !! "paper.pdf" = Some Example.zotero_record
    ∧ rec_get Example.zotero_record "file_key" = Some "paper.pdf"
    ∧ ∃ file_path, "paper.pdf" = key_of file_path.
Proof.
  destruct (lookup_keys_are_lower_cased_file_names Example.env_with_metadata
              [Example.bookmarks; Example.zotero] Example.world_with_metadata)
    as ((lookup & w' & Hrun & Hkeys) & _).
  exists lookup, w'. split; [exact Hrun|].
  assert (Hk : lookup !! "paper.pdf" = Some Example.zotero_record).
  { vm_compute in Hrun. injection Hrun as <- _. vm_compute. reflexivity. }
  split; [exact Hk|].
  destruct (Hkeys "paper.pdf" Example.zotero_record Hk) as (_ & _ & Hfile & Hpath).
  split; [exact Hfile|exact Hpath].
Defined.

(** ** log.py: the digest *)

Lemma digest_text_length entries : length (digest_text entries) = 2 + 6 * length entries.
Proof.
  unfold digest_text. rewrite length_app.
  assert (length (concat (Log.digest_lines <$> entries)) = 6 * length entries) as ->.
  { induction entries as [|e entries IH]; [done|].
    rewrite fmap_cons. cbn [concat]. rewrite length_app, IH.
    cbn [length Log.digest_lines]. lia. }
  cbn [length]. lia.
Qed.

Lemma mkdirs_is_dir (d : Path) nodes nodes1 :
  FS.mkdirs (FS.chain [] d) nodes = Ok nodes1 → FS.is_dir nodes1 d = true.
Proof.
  intros Hmk. unfold FS.is_dir. destruct d as [|a d]; [done|].
  by rewrite (mkdirs_made _ _ _ (a :: d) Hmk) by (apply (chain_last []); done).
Qed.

Lemma is_dir_insert_other nodes (d r : Path) n :
  FS.is_dir nodes d = true → d ≠ r → FS.is_dir (<[r := n]> nodes) d = true.
Proof.
  unfold FS.is_dir. intros Hd Hne. destruct d as [|a d]; [done|].
  by rewrite lookup_insert_ne.
Qed.

Section DigestFacts.
Variable env : Env.

Lemma digest_path_resolve digest_dir tick :
  FS.resolve env (PathLib.joinpath digest_dir (digest_name env tick))
  = FS.resolve env digest_dir ++ [digest_name env tick].
Proof.
  unfold digest_name. rewrite joinpath_ordinary by done.
  unfold FS.resolve. by apply resolve_snoc.
Qed.

Lemma write_digest_inv digest_dir entries w dp w' :
  Log.write_digest env digest_dir entries w = (Ok dp, w') →
  ∃ nodes1,
    FS.mkdirs (FS.chain [] (FS.resolve env digest_dir)) (w_nodes w) = Ok nodes1
    ∧ dp = PathLib.joinpath digest_dir (digest_name env (w_ticks w))
    ∧ w' = set_nodes (insert (FS.resolve env dp)
                        (File ((λ l, [l]) <$> digest_text entries)))
             (set_ticks (S (w_ticks w)) (set_nodes (λ _, nodes1) w)).
Proof.
  unfold Log.write_digest. intros H.
  apply bind_ok_inv in H as ([] & w1 & Hmk & H).
  apply mkdir_p_inv in Hmk as [(nodes1 & Hmk & _ & ->)|(e & ? & _)]; [|done].
  apply bind_ok_inv in H as (timestamp & w2 & [= <- <-] & H).
  apply bind_ok_inv in H as ([] & w3 & Hwrite & [= <- <-]).
  exists nodes1. split; [done|]. split; [done|].
  unfold FS.write_text in Hwrite. cbv zeta in Hwrite. simpl in Hwrite.
  fold (digest_name env (w_ticks w)) in Hwrite. fold (digest_text entries) in Hwrite.
  fold (digest_name env (w_ticks w)).
  destruct (FS.resolve env (PathLib.joinpath digest_dir (digest_name env (w_ticks w))))
    as [|a r] eqn:Er; [done|].
  destruct (nodes1 !! (a :: r : Path)) as [[|?]|]; [done| |];
    (destruct (FS.is_dir _ _); [|done]); by injection Hwrite as <-.
Qed.

End DigestFacts.

(** X12.  [write_digest] writes one file and nothing else: the file
    digest-<timestamp>.md in the digest directory, which it makes first,
    holding the title, an empty line and six lines per entry, in the
    order of the entries; a file of that name is replaced.  It reads the
    clock once, emits nothing, leaves every other regular file as it
    was, and returns whenever the directory can be made and that name is
    not a directory. *)
Theorem write_digest_writes_one_file env digest_dir entries w :
  let name := digest_name env (w_ticks w) in
  let r : Path := FS.resolve env digest_dir ++ [name] in
  (∀ dp w',
     Log.write_digest env digest_dir entries w = (Ok dp, w') →
     dp = PathLib.joinpath digest_dir name
     ∧ FS.resolve env dp = r
     ∧ w_nodes w' !! r = Some (File ((λ l, [l]) <$> digest_text entries))
     ∧ length (digest_text entries) = 2 + 6 * length entries
     ∧ FS.is_dir (w_nodes w') (FS.resolve env digest_dir) = true
     ∧ w_trace w' = w_trace w ∧ w_ticks w' = S (w_ticks w)
     ∧ w_stdin w' = w_stdin w ∧ w_cache w' = w_cache w
     ∧ (∀ (q : Path) c, q ≠ r →
          w_nodes w' !! q = Some (File c) ↔ w_nodes w !! q = Some (File c)))
  ∧ (dir_ready env digest_dir w → w_nodes w !! r ≠ Some Dir →
     ∃ dp w', Log.write_digest env digest_dir entries w = (Ok dp, w')).
Proof.
  intros name r. split.
  - intros dp w' H. apply write_digest_inv in H as (nodes1 & Hmk & -> & ->).
    fold name. pose proof (digest_path_resolve env digest_dir (w_ticks w)) as Hr.
    fold name in Hr. fold r in Hr. rewrite Hr. simpl.
    split; [done|]. split; [done|]. split; [by rewrite lookup_insert_eq|].
    split; [apply digest_text_length|]. split.
    { apply is_dir_insert_other; [by eapply mkdirs_is_dir|].
      unfold r. intros E. apply (f_equal length) in E. rewrite length_app in E.
      simpl in E. lia. }
    repeat split; try done.
    + intros Hq. rewrite lookup_insert_ne in Hq by done.
      destruct (mkdirs_lookup _ _ _ q Hmk) as [E|(_ & E & _)]; congruence.
    + intros Hq. rewrite lookup_insert_ne by done.
      destruct (mkdirs_lookup _ _ _ q Hmk) as [E|(E & _)]; congruence.
  - intros Hready Hnd. destruct (mkdirs_total _ _ Hready) as (nodes1 & Hmk).
    unfold Log.write_digest.
    rewrite (bind_ok _ _ w tt (set_nodes (λ _, nodes1) w))
      by (unfold FS.mkdir_p; by rewrite Hmk).
    rewrite (bind_ok _ _ _ (e_compact env (w_ticks w))
               (set_ticks (S (w_ticks w)) (set_nodes (λ _, nodes1) w))) by done.
    fold (digest_name env (w_ticks w)). fold name.
    assert (FS.is_dir nodes1 (FS.resolve env digest_dir) = true) as Hdir
      by (by eapply mkdirs_is_dir).
    assert (nodes1 !! r ≠ Some Dir) as Hnd1.
    { destruct (mkdirs_lookup _ _ _ r Hmk) as [E|(_ & _ & Hin)]; [congruence|].
      apply chain_length in Hin. unfold r in Hin. rewrite length_app in Hin.
      simpl in Hin. lia. }
    pose proof (digest_path_resolve env digest_dir (w_ticks w)) as Hr.
    fold name in Hr. fold r in Hr.
    unfold FS.write_text. cbv zeta. simpl. unfold mbind, M_bind. rewrite Hr.
    assert (removelast r = FS.resolve env digest_dir) as Hrl
      by (unfold r; by rewrite removelast_last).
    destruct r as [|a r'] eqn:Er; [by destruct (FS.resolve env digest_dir)|].
    cbn [w_nodes set_ticks set_nodes]. rewrite Hrl, Hdir.
    destruct (nodes1 !! (a :: r' : Path)) as [[|?]|]; [done| |]; by eexists _, _.
Qed.

Lemma write_digest_writes_one_file_witness :
  ∃ dp w',
    Log.write_digest Example.env ["digests"] [Example.entry 0; Example.entry 1]
      Example.world = (Ok dp, w')
    ∧ dp = ["digests"; "digest-C0.md"]
    ∧ length (digest_text [Example.entry 0; Example.entry 1]) = 14.
Proof.
  destruct (proj2 (write_digest_writes_one_file Example.env ["digests"]
                     [Example.entry 0; Example.entry 1] Example.world))
    as (dp & w' & Hrun).
  - intros d c Hd. vm_compute in Hd.
    apply elem_of_cons in Hd as [->|Hd]; [done|].
    apply elem_of_cons in Hd as [->|Hd]; [done|].
    apply elem_of_cons in Hd as [->|Hd]; [done|]. by apply elem_of_nil in Hd.
  - done.
  - exists dp, w'. split; [exact Hrun|].
    destruct (proj1 (write_digest_writes_one_file Example.env ["digests"]
                       [Example.entry 0; Example.entry 1] Example.world) dp w' Hrun)
      as (-> & _ & _ & Hlen & _).
    split; [reflexivity|exact Hlen].
Defined.

(** ** main.py and emailer.py: the report *)

Section ReportFacts.
Variable env : Env.

Lemma collect_attachments_run digest_path w :
  Main.collect_attachments env digest_path w
  = (Ok match digest_path with
        | Some dp =>
            if FS.node_exists (w_nodes w) (FS.resolve env dp)
            then [(PathLib.name dp, dp)] else []
        | None => []
        end, w).
Proof.
  unfold Main.collect_attachments. destruct digest_path as [dp|]; [|done].
  by rewrite (bind_ok _ _ _ _ _ (exists_run _ _ _)).
Qed.

Lemma build_message_run subject sender recipients body_lines digest_path w r w' :
  Emailer.build_message env subject sender recipients body_lines
    match digest_path with
    | Some dp =>
        if FS.node_exists (w_nodes w) (FS.resolve env dp)
        then [(PathLib.name dp, dp)] else []
    | None => []
    end w = (r, w') →
  w' = w
  ∧ ((∃ e, r = Raise e)
     ∨ r = Ok {| msg_subject := subject; msg_from := sender;
                 msg_to := Str.join ", " recipients;
                 msg_body := Str.join Summarize.nl body_lines;
                 msg_attachments := digest_attachment env w digest_path |}).
Proof.
  unfold Emailer.build_message, digest_attachment. intros H.
  apply bind_inv in H as [(atts & w1 & Hatt & [= <- <-])|(e & Hatt & ->)].
  2:{ apply attach_all_world in Hatt. split; [done|]. left. by eexists. }
  pose proof (attach_all_world _ _ _ _ _ _ Hatt) as ->. split; [done|]. right.
  destruct digest_path as [dp|]; [|by injection Hatt as <-].
  destruct (FS.node_exists (w_nodes w) (FS.resolve env dp)) eqn:Hex.
  - simpl in Hatt. rewrite (bind_ok _ _ _ _ _ (exists_run _ _ _)), Hex in Hatt.
    simpl in Hatt. unfold FS.read_text, mbind, M_bind in Hatt. cbv zeta in Hatt.
    destruct (FS.resolve env dp) as [|a rp]; [done|].
    destruct (w_nodes w !! (a :: rp : Path)) as [[|c]|]; [done| |done].
    by injection Hatt as <-.
  - injection Hatt as <-. unfold FS.node_exists in Hex.
    destruct (FS.resolve env dp) as [|a rp]; [done|].
    by destruct (w_nodes w !! (a :: rp : Path)).
Qed.

Lemma maybe_send_email_request email_cfg log_entries digest_path w r w' evs req :
  Main.maybe_send_email env email_cfg log_entries digest_path w = (r, w') →
  w_trace w' = w_trace w ++ evs → EvSmtp req ∈ evs →
  req = report_request env email_cfg log_entries digest_path w
  ∧ ∃ lvl msg, evs = [EvSmtp req; EvLog lvl msg].
Proof.
  unfold Main.maybe_send_email. intros H Ht Hin.
  assert (∀ lvl msg v, v = add_event (EvLog lvl msg) w → w_trace v = w_trace w ++ evs →
            False) as Hlog.
  { intros lvl msg v -> Hv. simpl in Hv. apply app_inv_head in Hv as <-.
    apply list_elem_of_singleton in Hin. discriminate. }
  destruct (negb (em_enabled email_cfg)).
  { injection H as _ <-. rewrite <-(app_nil_r (w_trace w)) in Ht at 1.
    apply app_inv_head in Ht as <-. by apply elem_of_nil in Hin. }
  destruct (bool_decide (log_entries = [])).
  { injection H as _ <-. by edestruct Hlog. }
  destruct (_ || _).
  { injection H as _ <-. by edestruct Hlog. }
  rewrite (bind_ok _ _ _ _ _ (collect_attachments_run _ _)) in H.
  apply bind_inv in H as [(message & w1 & Hbuild & H)|(e & Hbuild & _)].
  2:{ apply build_message_run in Hbuild as [-> _].
      rewrite <-(app_nil_r (w_trace w)) in Ht at 1.
      apply app_inv_head in Ht as <-. by apply elem_of_nil in Hin. }
  apply build_message_run in Hbuild as [-> [[e [=]]|[= ->]]].
  assert (∀ password,
            password = password_of env email_cfg →
            try_except
              (Emailer.send_message env
                 {| msg_subject := em_subject email_cfg;
                    msg_from := default "" (em_sender email_cfg);
                    msg_to := Str.join ", " (em_recipients email_cfg);
                    msg_body := Str.join Summarize.nl
                      (["Weekly paper triage report"; ""] ++
                       (Main.body_line <$> log_entries) ++
                       [""; "This email was generated automatically by the paper triage assistant."]);
                    msg_attachments := digest_attachment env w digest_path |}
                 (em_smtp_host email_cfg) (em_smtp_port email_cfg)
                 (em_username email_cfg) password (em_use_tls email_cfg);;
               log_msg INFO ("Email digest sent to " +:+ Str.join ", " (em_recipients email_cfg)))
              (λ _, log_msg ERROR "Failed to send email digest") w = (r, w') →
            req = report_request env email_cfg log_entries digest_path w
            ∧ ∃ lvl msg, evs = [EvSmtp req; EvLog lvl msg]) as Hsend.
  { intros password -> Hrun. rewrite guarded_send_run in Hrun. injection Hrun as _ <-.
    simpl in Ht. rewrite <-app_assoc in Ht. apply app_inv_head in Ht as <-.
    apply elem_of_cons in Hin as [[= ->]|Hin].
    - split; [reflexivity|]. destruct (e_smtp env _); by eexists _, _.
    - apply list_elem_of_singleton in Hin. by destruct (e_smtp env _). }
  unfold password_of in Hsend.
  destruct (em_password_env email_cfg) as [name|]; [|by apply (Hsend None)].
  destruct (Str.truthy name); [|by apply (Hsend None)].
  destruct (e_environ env !! name) as [password|] eqn:Henv.
  - destruct (Str.truthy password); [by apply (Hsend (Some password))|].
    injection H as _ <-. by edestruct Hlog.
  - injection H as _ <-. by edestruct Hlog.
Qed.

End ReportFacts.

(** X13.  When [maybe_send_email] calls the transport it does so once,
    followed by one log message, and the request is determined by the
    configuration, the entries and the digest: subject and sender as
    configured, the recipients joined by ", ", a body of one line per
    entry in the order of the entries between a heading and a closing
    sentence, host, port, user name and TLS flag as configured, the
    password read from the environment variable the configuration names,
    and the digest attached, under its file name, when it exists. *)
Theorem the_report_lists_every_entry env email_cfg log_entries digest_path w r w' evs req :
  Main.maybe_send_email env email_cfg log_entries digest_path w = (r, w') →
  w_trace w' = w_trace w ++ evs → EvSmtp req ∈ evs →
  req = report_request env email_cfg log_entries digest_path w
  ∧ (∃ lvl msg, evs = [EvSmtp req; EvLog lvl msg])
  ∧ length (report_lines log_entries) = 4 + length log_entries.
Proof.
  intros H Ht Hin.
  destruct (maybe_send_email_request env _ _ _ _ _ _ _ _ H Ht Hin) as [Hreq Hevs].
  split; [done|]. split; [done|].
  unfold report_lines. rewrite !length_app, length_fmap. simpl. lia.
Qed.

Lemma the_report_lists_every_entry_witness :
  let email_cfg :=
    {| em_enabled := true; em_sender := Some "paper-triage@example.com";
       em_recipients := ["a@example.com"; "b@example.com"];
       em_subject := "Weekly paper triage digest";
       em_password_env := None; em_smtp_host := "localhost"; em_smtp_port := 587;
       em_username := None; em_use_tls := true |} in
  let req := report_request Example.env email_cfg [Example.entry 0] None Example.world in
  msg_to (req_message req) = "a@example.com, b@example.com"
  ∧ w_trace (Main.maybe_send_email Example.env email_cfg [Example.entry 0] None
               Example.world).2
    = [EvSmtp req; EvLog INFO "Email digest sent to a@example.com, b@example.com"].
Proof.
  intros email_cfg req. split; [reflexivity|].
  destruct (the_report_lists_every_entry Example.env email_cfg [Example.entry 0] None
              Example.world
              (Main.maybe_send_email Example.env email_cfg [Example.entry 0] None
                 Example.world).1
              (Main.maybe_send_email Example.env email_cfg [Example.entry 0] None
                 Example.world).2
              [EvSmtp req; EvLog INFO "Email digest sent to a@example.com, b@example.com"]
              req)
    as (_ & _ & _).
  - apply surjective_pairing.
  - reflexivity.
  - apply elem_of_cons. by left.
  - reflexivity.
Defined.

(** ** The claims about whole runs *)

Lemma example_log_ready : log_ready Example.env Example.log_path Example.world.
Proof.
  split; [|split].
  - intros d c Hd. vm_compute in Hd.
    apply elem_of_cons in Hd as [->|Hd]; [done|].
    apply elem_of_cons in Hd as [->|Hd]; [done|]. by apply elem_of_nil in Hd.
  - by exists "triage_log.csv".
  - done.
Qed.

(** The loop is ready to remove b/x.pdf and keep a/x.pdf once the archive
    directory of the examples exists. *)
Lemma example_loop_ready :
  loop_ready Example.env ["archive"] Example.log_path false
    [({| pc_path := ["a"; "x.pdf"]; pc_title := "x"; pc_metadata := ∅ |}, "A summary.", "k");
     ({| pc_path := ["b"; "x.pdf"]; pc_title := "x"; pc_metadata := ∅ |}, "A summary.", "r")]
    (set_nodes (insert ["home"; "u"; "archive"] Dir) Example.world).
Proof.
  split; [split; [|split]|].
  - intros d c Hd. vm_compute in Hd.
    apply elem_of_cons in Hd as [->|Hd]; [done|].
    apply elem_of_cons in Hd as [->|Hd]; [done|]. by apply elem_of_nil in Hd.
  - by exists "triage_log.csv".
  - done.
  - intros _. split; [reflexivity|]. split; [|split].
    + intros d x Hd. vm_compute in Hd.
      apply elem_of_cons in Hd as [->|Hd]; [done|].
      apply elem_of_cons in Hd as [->|Hd]; [done|].
      apply elem_of_cons in Hd as [->|Hd]; [done|]. by apply elem_of_nil in Hd.
    + intros paper Hin. vm_compute in Hin. apply list_elem_of_singleton in Hin as ->.
      split; [reflexivity|]. split; [by exists []|done].
    + vm_compute. apply NoDup_singleton.
Qed.

(** C2.  The list [triage_papers] produces has exactly one action per
    candidate, in the order of the candidates, and the loop of
    [triage_once] makes one log entry per action, in the order of the
    actions.  The loop returns whenever it is ready ([loop_ready]), and
    then the rows of the entries are appended to the log file in that
    order.  A run of [triage_once] that returns is the discovery, then
    [triage_papers] on the discovered candidates, then the loop on its
    actions: the entries it returns describe the candidates one by one,
    in discovery order, and their rows are what the run appended to the
    log file, in that order, provided the log file is not itself one of
    the papers, nor an entry of the archive directory (both only matter
    when the run is not dry), nor an entry of the digest directory when a
    digest is written. *)
Theorem actions_and_log_follow_discovery_order env :
  (∀ papers summary_fn dry_run auto_decision w actions w',
     UI.triage_papers papers summary_fn dry_run auto_decision w = (Ok actions, w') →
     (λ a : Action, a.1.1) <$> actions = papers ∧ length actions = length papers)
  ∧ (∀ archive_dir log_path dry_run actions w entries w',
       Main.process_actions env archive_dir log_path dry_run actions [] w
       = (Ok entries, w') →
       Forall2 (describes dry_run) actions entries)
  ∧ (∀ archive_dir log_path dry_run actions w,
       loop_ready env archive_dir log_path dry_run actions w →
       ∃ entries w',
         Main.process_actions env archive_dir log_path dry_run actions [] w
         = (Ok entries, w')
         ∧ Forall2 (describes dry_run) actions entries
         ∧ w_nodes w' !! FS.resolve env log_path
           = logged (w_nodes w !! FS.resolve env log_path) entries)
  ∧ (∀ config args w entries w',
       let archive_dir := Main.config_path env (arg_archive args) (cfg_archive_dir config) in
       let log_path := Main.config_path env (arg_log_path args) (cfg_log_path config) in
       let digest_dir := Main.config_path env (arg_digest_dir args) (cfg_digest_dir config) in
       Main.triage_once env config args w = (Ok entries, w') →
       ∃ papers w1 actions w3 w4,
         Discover.discover_papers env (cfg_input_folders config)
           (cfg_metadata_sources config) w = (Ok papers, w1)
         ∧ (papers = [] ∧ actions = [] ∧ w3 = w1
            ∨ ∃ w2,
                (arg_dry_run args = true ∧ w2 = w1
                 ∨ arg_dry_run args = false
                   ∧ FS.mkdir_p env archive_dir w1 = (Ok tt, w2))
                ∧ UI.triage_papers papers
                    (Main.summary_wrapper env (cfg_model config)
                       (int_or (arg_max_pages args) (cfg_max_pages config))
                       (int_or (arg_max_chars args) (cfg_max_chars config)))
                    (arg_dry_run args)
                    (Main._resolve_decision_mode (cfg_auto_decision config) args)
                    (set_cache ∅ w2)
                  = (Ok actions, w3))
         ∧ Main.process_actions env archive_dir log_path (arg_dry_run args) actions [] w3
           = (Ok entries, w4)
         ∧ (λ a : Action, a.1.1) <$> actions = papers
         ∧ Forall2 (describes (arg_dry_run args)) actions entries
         ∧ length entries = length papers
         ∧ le_path <$> entries = (λ paper, PathLib.to_str (pc_path paper)) <$> papers
         ∧ le_title <$> entries = pc_title <$> papers
         ∧ ((arg_dry_run args = false →
             (∀ q, enumerated env (w_nodes w) (cfg_input_folders config) q →
                   FS.resolve env q ≠ FS.resolve env log_path)
             ∧ outside env log_path archive_dir) →
            (cfg_digest_enabled config = true → outside env log_path digest_dir) →
            w_nodes w' !! FS.resolve env log_path
            = logged (w_nodes w !! FS.resolve env log_path) entries)).
Proof.
  split; [|split; [|split]].
  - intros papers sf dry auto w actions w' H.
    apply triage_from_shape in H as (new & -> & Hp & _). simpl.
    split; [done|]. by rewrite <-Hp, length_fmap.
  - intros archive_dir log_path dry actions w entries w' H.
    by apply process_actions_inv in H as (new & evs & -> & Hall & _).
  - intros archive_dir log_path dry actions w. apply process_actions_ready.
  - intros config args w entries w' archive_dir log_path digest_dir H.
    pose proof (triage_once_log env config args w entries w' H) as Hlog.
    apply triage_once_ok_steps in H as (papers & w1 & Hdisc & H).
    destruct H as [(-> & -> & _)|(Hne & w2 & actions & w3 & w4 & w5
                                    & Hmk & Hact & Hproc & _)].
    { exists [], w1, [], w1, w1. split; [done|]. split; [by left|]. by repeat split. }
    exists papers, w1, actions, w3, w4. split; [done|].
    split; [right; by exists w2|]. split; [done|].
    apply triage_from_shape in Hact as (new & Hnew & Hp & _). simpl in Hnew. subst new.
    apply process_actions_inv in Hproc as (new' & _ & Hnew' & Hall & _).
    simpl in Hnew'. subst new'.
    destruct (describes_paths _ _ _ Hall) as (Hpaths & Htitles & _).
    split; [done|]. split; [done|].
    rewrite Hpaths, Htitles, <-Hp, <-!list_fmap_compose.
    split; [|done]. rewrite length_fmap. symmetry. by eapply Forall2_length.
Qed.

Lemma actions_and_log_follow_discovery_order_witness :
  (∃ entries w',
     Main.triage_once Example.env (Example.config (Some (Some "remove")))
       (Example.args false) Example.world = (Ok entries, w')
     ∧ le_path <$> entries = ["a/x.pdf"; "b/Paper.pdf"; "b/x.pdf"]
     ∧ w_nodes w' !! ["home"; "u"; "triage_log.csv"] = logged None entries)
  ∧ (∃ entries w',
       Main.process_actions Example.env ["archive"] Example.log_path false
         [({| pc_path := ["a"; "x.pdf"]; pc_title := "x"; pc_metadata := ∅ |},
           "A summary.", "k");
          ({| pc_path := ["b"; "x.pdf"]; pc_title := "x"; pc_metadata := ∅ |},
           "A summary.", "r")] []
         (set_nodes (insert ["home"; "u"; "archive"] Dir) Example.world)
       = (Ok entries, w')
       ∧ le_decision <$> entries = ["k"; "r"]
       ∧ w_nodes w' !! ["home"; "u"; "triage_log.csv"] = logged None entries).
Proof.
  split.
  - destruct (Main.triage_once Example.env (Example.config (Some (Some "remove")))
                (Example.args false) Example.world) as [[entries|e] w'] eqn:Hrun;
      [|vm_compute in Hrun; discriminate].
    exists entries, w'. split; [reflexivity|].
    destruct (proj2 (proj2 (proj2 (actions_and_log_follow_discovery_order Example.env)))
                (Example.config (Some (Some "remove"))) (Example.args false) Example.world
                entries w' Hrun)
      as (papers & w1 & actions & w3 & w4 & Hdisc & _ & _ & _ & _ & _ & Hpaths & _ & Hlog).
    split.
    + rewrite Hpaths. vm_compute in Hdisc. injection Hdisc as <- _. reflexivity.
    + apply Hlog.
      * intros _. split.
        -- intros q Hq. eapply enumerated_not_named; [exact Hq|].
           intros n [= <-]. reflexivity.
        -- intros x [=].
      * discriminate.
  - destruct (proj1 (proj2 (proj2 (actions_and_log_follow_discovery_order Example.env)))
                ["archive"] Example.log_path false _ _ example_loop_ready)
      as (entries & w' & Hrun & Hdesc & Hlog).
    exists entries, w'. split; [exact Hrun|]. split; [|exact Hlog].
    apply describes_paths in Hdesc as (_ & _ & -> & _). reflexivity.
Defined.

(** C5.  In a dry run nothing is moved: whatever the decisions, and
    whether the run returns or raises, no call of [shutil.move] is made
    and every node of the file system stays.  Yet one log entry is
    appended per action: the loop over the actions returns whenever the
    log can be written, with one entry per action; a loop that returned
    made one entry per action, in order, each with "True" in its dry_run
    field, and appended their rows to the log file.  A dry run of
    [triage_once] that returns is the discovery, [triage_papers] and that
    loop, and leaves the rows of its entries appended to the log file
    (unless a digest is written over the log file); and a dry run
    returns, with the log file so extended and nothing moved, when the
    automatic mode is one that is accepted, the page limit is positive,
    the ollama package is installed, the log can be written and no digest
    is asked for. *)
Theorem dry_run_moves_nothing_and_logs_every_action env :
  (∀ config args w r w',
     arg_dry_run args = true →
     Main.triage_once env config args w = (r, w') → unmoved w w')
  ∧ (∀ archive_dir log_path actions w entries w',
       Main.process_actions env archive_dir log_path true actions [] w
       = (Ok entries, w') →
       Forall2 (describes true) actions entries
       ∧ Forall (λ entry, le_dry_run entry = "True") entries
       ∧ w_nodes w' !! FS.resolve env log_path
         = logged (w_nodes w !! FS.resolve env log_path) entries)
  ∧ (∀ archive_dir log_path actions w,
       log_ready env log_path w →
       ∃ entries w',
         Main.process_actions env archive_dir log_path true actions [] w
         = (Ok entries, w')
         ∧ length entries = length actions)
  ∧ (∀ config args w entries w',
       let archive_dir := Main.config_path env (arg_archive args) (cfg_archive_dir config) in
       let log_path := Main.config_path env (arg_log_path args) (cfg_log_path config) in
       let digest_dir := Main.config_path env (arg_digest_dir args) (cfg_digest_dir config) in
       arg_dry_run args = true →
       Main.triage_once env config args w = (Ok entries, w') →
       Forall (λ entry, le_dry_run entry = "True") entries
       ∧ (∃ papers w1 actions w3 w4,
            Discover.discover_papers env (cfg_input_folders config)
              (cfg_metadata_sources config) w = (Ok papers, w1)
            ∧ (papers = [] ∧ actions = [] ∧ w3 = w1
               ∨ UI.triage_papers papers
                   (Main.summary_wrapper env (cfg_model config)
                      (int_or (arg_max_pages args) (cfg_max_pages config))
                      (int_or (arg_max_chars args) (cfg_max_chars config)))
                   true (Main._resolve_decision_mode (cfg_auto_decision config) args)
                   (set_cache ∅ w1)
                 = (Ok actions, w3))
            ∧ Main.process_actions env archive_dir log_path true actions [] w3
              = (Ok entries, w4)
            ∧ Forall2 (describes true) actions entries
            ∧ length entries = length papers)
       ∧ ((cfg_digest_enabled config = true → outside env log_path digest_dir) →
          w_nodes w' !! FS.resolve env log_path
          = logged (w_nodes w !! FS.resolve env log_path) entries))
  ∧ (∀ config args mode d w,
       let log_path := Main.config_path env (arg_log_path args) (cfg_log_path config) in
       arg_dry_run args = true →
       Main._resolve_decision_mode (cfg_auto_decision config) args = Some mode →
       mode ≠ EmptyString → UI._auto_decide mode = Ok d →
       (0 < int_or (arg_max_pages args) (cfg_max_pages config))%Z →
       e_ollama_installed env = true →
       log_ready env log_path w →
       cfg_digest_enabled config = false →
       ∃ entries w',
         Main.triage_once env config args w = (Ok entries, w')
         ∧ unmoved w w'
         ∧ Forall (λ entry, le_dry_run entry = "True") entries
         ∧ w_nodes w' !! FS.resolve env log_path
           = logged (w_nodes w !! FS.resolve env log_path) entries).
Proof.
  assert (∀ config args w entries w',
            arg_dry_run args = true →
            Main.triage_once env config args w = (Ok entries, w') →
            Forall (λ entry, le_dry_run entry = "True") entries
            ∧ (∃ papers w1 actions w3 w4,
                 Discover.discover_papers env (cfg_input_folders config)
                   (cfg_metadata_sources config) w = (Ok papers, w1)
                 ∧ (papers = [] ∧ actions = [] ∧ w3 = w1
                    ∨ UI.triage_papers papers
                        (Main.summary_wrapper env (cfg_model config)
                           (int_or (arg_max_pages args) (cfg_max_pages config))
                           (int_or (arg_max_chars args) (cfg_max_chars config)))
                        true (Main._resolve_decision_mode (cfg_auto_decision config) args)
                        (set_cache ∅ w1)
                      = (Ok actions, w3))
                 ∧ Main.process_actions env
                     (Main.config_path env (arg_archive args) (cfg_archive_dir config))
                     (Main.config_path env (arg_log_path args) (cfg_log_path config))
                     true actions [] w3
                   = (Ok entries, w4)
                 ∧ Forall2 (describes true) actions entries
                 ∧ length entries = length papers)) as Hsteps.
  { intros config args w entries w' Hdry H.
    apply triage_once_ok_steps in H as (papers & w1 & Hdisc & H). rewrite Hdry in H.
    destruct H as [(-> & -> & _)|(Hne & w2 & actions & w3 & w4 & w5
                                    & Hmk & Hact & Hproc & _)].
    { split; [constructor|]. exists [], w1, [], w1, w1.
      split; [done|]. split; [by left|]. by repeat split. }
    destruct Hmk as [[_ ->]|[? _]]; [|done].
    pose proof Hact as Hact'. pose proof Hproc as Hproc'.
    apply triage_from_shape in Hact as (new & Hnew & Hp & _). simpl in Hnew. subst new.
    apply process_actions_inv in Hproc as (new' & _ & Hnew' & Hall & _).
    simpl in Hnew'. subst new'.
    split; [by apply (describes_paths true actions entries)|].
    exists papers, w1, actions, w3, w4. split; [done|]. split; [by right|].
    split; [done|]. split; [done|].
    rewrite <-Hp, length_fmap. symmetry. by eapply Forall2_length. }
  split; [|split; [|split; [|split]]].
  - intros config args w r w' Hdry. by apply unmoved_triage_once.
  - intros archive_dir log_path actions w entries w' H.
    pose proof (unmoved_process_actions env _ _ _ _ _ _ _ H) as [(evs' & Ht' & Hquiet) _].
    apply process_actions_inv in H as (new & evs & -> & Hall & Ht & Hlog).
    simpl. split; [done|]. split; [by apply (describes_paths true actions new)|].
    apply Hlog. rewrite Ht in Ht'. apply app_inv_head in Ht' as <-.
    intros src dst Hin. rewrite Forall_forall in Hquiet. by apply Hquiet in Hin.
  - intros archive_dir log_path actions w Hready.
    destruct (process_actions_ready env archive_dir log_path true actions w)
      as (entries & w' & Hrun & Hdesc & _); [by split|].
    exists entries, w'. split; [done|]. symmetry. by eapply Forall2_length.
  - intros config args w entries w' archive_dir log_path digest_dir Hdry H.
    destruct (Hsteps config args w entries w' Hdry H) as [Htrue Hrun].
    split; [done|]. split; [done|]. intros Hd.
    apply (triage_once_log env config args w entries w' H); [by rewrite Hdry|done].
  - intros config args mode d w log_path Hdry Hmode Hne Hd Hmp Hinst Hready Hdig.
    destruct (triage_once_dry_returns env config args mode d w)
      as (entries & w' & Hrun); try done.
    exists entries, w'. split; [done|].
    split; [by eapply unmoved_triage_once|].
    split; [by apply (Hsteps config args w entries w' Hdry Hrun)|].
    apply (triage_once_log env config args w entries w' Hrun).
    + by rewrite Hdry.
    + by rewrite Hdig.
Qed.

Lemma dry_run_moves_nothing_and_logs_every_action_witness :
  ∃ entries w',
    Main.triage_once Example.env (Example.config (Some (Some "remove")))
      (Example.args true) Example.world = (Ok entries, w')
    ∧ unmoved Example.world w'
    ∧ Forall (λ entry, le_dry_run entry = "True") entries
    ∧ w_nodes w' !! ["home"; "u"; "triage_log.csv"] = logged None entries.
Proof.
  apply (proj2 (proj2 (proj2 (proj2
           (dry_run_moves_nothing_and_logs_every_action Example.env))))
           (Example.config (Some (Some "remove"))) (Example.args true) "remove" "r"
           Example.world).
  - reflexivity.
  - reflexivity.
  - discriminate.
  - reflexivity.
  - reflexivity.
  - reflexivity.
  - exact example_log_ready.
  - reflexivity.
Defined.

(** C10, as amended.  With no override on the command line and
    automatic mode enabled, the resolver yields the fixed mode "keep"
    when the configuration has no [default] key: under that mode every
    paper is decided "k" (keep), whatever the operator would have typed,
    [triage_papers] returns whenever the summaries do, and every entry
    of a run that returns carries "k".  A [default] that is present but
    null or empty is not replaced by "keep": the resolved mode is then
    no mode, and [triage_papers] asks the operator, as it does without
    automatic mode. *)
Theorem unconfigured_automatic_mode_keeps_every_paper env :
  (∀ auto_cfg args,
     UI.mode_given (arg_auto_decision args) = None → ad_enabled auto_cfg = true →
     ad_default auto_cfg = None →
     Main._resolve_decision_mode auto_cfg args = Some "keep")
  ∧ UI._auto_decide "keep" = Ok "k"
  ∧ (∀ papers summary_fn dry_run w actions w',
       UI.triage_papers papers summary_fn dry_run (Some "keep") w = (Ok actions, w') →
       Forall (λ a : Action, a.2 = "k") actions)
  ∧ (∀ papers (summary : PaperCandidate → string) dry_run w,
       UI.triage_papers papers (λ paper, mret (summary paper)) dry_run (Some "keep") w
       = (Ok ((λ paper, (paper, summary paper, "k")) <$> papers), w))
  ∧ (∀ config args w entries w',
       UI.mode_given (arg_auto_decision args) = None →
       ad_enabled (cfg_auto_decision config) = true →
       ad_default (cfg_auto_decision config) = None →
       Main.triage_once env config args w = (Ok entries, w') →
       Forall (λ entry, le_decision entry = "k") entries)
  ∧ (∀ auto_cfg args configured,
       UI.mode_given (arg_auto_decision args) = None → ad_enabled auto_cfg = true →
       ad_default auto_cfg = Some configured → UI.mode_given configured = None →
       UI.mode_given (Main._resolve_decision_mode auto_cfg args) = None)
  ∧ (∀ papers summary_fn dry_run auto_decision w,
       UI.mode_given auto_decision = None →
       UI.triage_papers papers summary_fn dry_run auto_decision w
       = UI.triage_papers papers summary_fn dry_run None w).
Proof.
  assert (∀ auto_cfg args,
            UI.mode_given (arg_auto_decision args) = None → ad_enabled auto_cfg = true →
            ad_default auto_cfg = None →
            Main._resolve_decision_mode auto_cfg args = Some "keep") as Hkeep.
  { intros auto_cfg args Harg Hen Hdef. unfold Main._resolve_decision_mode.
    by rewrite Harg, Hen, Hdef. }
  split; [exact Hkeep|]. split; [reflexivity|]. split; [|split; [|split; [|split]]].
  - intros papers sf dry w actions w' H.
    apply triage_from_shape in H as (new & -> & _ & _ & Hauto).
    specialize (Hauto "keep" eq_refl). simpl.
    eapply Forall_impl; [exact Hauto|]. simpl. by intros a [= <-].
  - intros papers summary dry w. apply (triage_from_keep papers summary dry [] w).
  - intros config args w entries w' Harg Hen Hdef Hrun.
    eapply (triage_once_one_decision env config args "keep" "k"); [|done|done|exact Hrun].
    by apply Hkeep.
  - intros auto_cfg args configured Harg Hen Hdef Hconf.
    unfold Main._resolve_decision_mode. by rewrite Harg, Hen, Hdef.
  - intros papers sf dry auto w Hauto. unfold UI.triage_papers.
    generalize (@nil Action). revert w.
    induction papers as [|paper rest IH]; intros w acc; [done|]. simpl.
    rewrite Hauto. unfold mbind, M_bind. destruct (sf paper w) as [[summary|e] w1]; [|done].
    destruct (UI._prompt_for_decision paper summary dry w1) as [[decision|e] w2]; [|done].
    apply IH.
Qed.

Lemma unconfigured_automatic_mode_keeps_every_paper_witness :
  ∃ entries w',
    Main.triage_once Example.env (Example.config None) (Example.args false)
      (set_stdin ["r"; "s"; "r"] Example.world) = (Ok entries, w')
    ∧ length entries = 3
    ∧ Forall (λ entry, le_decision entry = "k") entries.
Proof.
  destruct (Main.triage_once Example.env (Example.config None) (Example.args false)
              (set_stdin ["r"; "s"; "r"] Example.world)) as [[entries|e] w'] eqn:Hrun;
    [|vm_compute in Hrun; discriminate].
  exists entries, w'. split; [reflexivity|]. split.
  - pose proof Hrun as Hlen. vm_compute in Hlen. injection Hlen as <- _. reflexivity.
  - apply (proj1 (proj2 (proj2 (proj2 (proj2
             (unconfigured_automatic_mode_keeps_every_paper Example.env)))))
             (Example.config None) (Example.args false)
             (set_stdin ["r"; "s"; "r"] Example.world) entries w');
      [reflexivity|reflexivity|reflexivity|exact Hrun].
Defined.

(** C10, as stated, fails: with automatic mode enabled, no override and
    the default configured as null (no decision value), the decisions are
    the ones the operator types, here remove, skip, remove, not keep. *)
Lemma a_null_default_defers_to_the_prompt :
  ∃ entries w',
    arg_auto_decision (Example.args false) = None
    ∧ ad_enabled (cfg_auto_decision (Example.config (Some None))) = true
    ∧ ad_default (cfg_auto_decision (Example.config (Some None))) = Some None
    ∧ Main.triage_once Example.env (Example.config (Some None)) (Example.args false)
        (set_stdin ["r"; "s"; "r"] Example.world)
      = (Ok entries, w')
    ∧ le_decision <$> entries = ["r"; "s"; "r"].
Proof.
  destruct (Main.triage_once Example.env (Example.config (Some None)) (Example.args false)
              (set_stdin ["r"; "s"; "r"] Example.world)) as [[entries|e] w'] eqn:Hrun;
    [|vm_compute in Hrun; discriminate].
  exists entries, w'. repeat split.
  vm_compute in Hrun. injection Hrun as <- _. reflexivity.
Qed.
